(** * Sundex: good-weather-day estimator, raster loading and catalog scan

    A shallow embedding of the Python sources [app.py], [sundex_v2.py],
    [sundex.py], [build_webapp.py] and [build_webapp_v2.py], and the
    properties of the estimator, the loaders, the catalog scan and the block
    downsampler.

    Numbers: a float64 sample is a finite real or NaN ([sample]); rounding and
    infinities are not modelled.  NumPy arrays are shapes with a cell function;
    Python exceptions are the [Raise] branch of [result]. *)

From Stdlib Require Import Reals Lra Lia List String Ascii Bool Arith Factorial.
From stdpp Require Import gmap strings.
Import ListNotations.

Local Open Scope R_scope.

(** ** float64 samples *)

Inductive sample : Type :=
  | NaN : sample
  | Fin : R -> sample.

Definition isnan (s : sample) : bool :=
  match s with NaN => true | Fin _ => false end.

(** A unary float operation: NaN in, NaN out. *)
Definition smap (f : R -> R) (s : sample) : sample :=
  match s with NaN => NaN | Fin x => Fin (f x) end.

(** A binary float operation: NaN if either operand is NaN. *)
Definition smap2 (f : R -> R -> R) (a b : sample) : sample :=
  match a, b with
  | Fin x, Fin y => Fin (f x y)
  | _, _ => NaN
  end.

Definition sadd : sample -> sample -> sample := smap2 Rplus.
Definition smul : sample -> sample -> sample := smap2 Rmult.

(** [np.clip(x, lo, hi)] is [minimum(maximum(x, lo), hi)]. *)
Definition clip (x lo hi : R) : R := Rmin (Rmax x lo) hi.

(** ** Python exceptions *)

Inductive exn : Type := ValueError | TypeError | ZeroDivisionError.

Inductive result (A : Type) : Type :=
  | Ok : A -> result A
  | Raise : exn -> result A.
Arguments Ok {A} _.
Arguments Raise {A} _.

#[global] Instance result_ret : MRet result := fun A a => Ok a.
#[global] Instance result_bind : MBind result := fun A B k m =>
  match m with
  | Ok a => k a
  | Raise e => Raise e
  end.

Definition returns {A : Type} (m : result A) : Prop := exists a, m = Ok a.

(** ** NumPy arrays

    A 2-D array is its shape and a cell function ([cell g i j] is meaningful
    for [i < nrows g] and [j < ncols g]).  [ndarray] adds the 0-d array, which
    [np.zeros(None)] yields where NumPy still takes [None] for the shape [()]. *)

Record grid : Type := mkgrid {
  nrows : nat;
  ncols : nat;
  cell : nat -> nat -> sample
}.

Definition shape : Type := (nat * nat)%type.

Definition gshape (g : grid) : shape := (nrows g, ncols g).

Definition shape_eqb (a b : shape) : bool :=
  (fst a =? fst b)%nat && (snd a =? snd b)%nat.

Definition gsize (g : grid) : nat := (nrows g * ncols g)%nat.

Inductive ndarray : Type :=
  | Arr0 : sample -> ndarray
  | Arr2 : grid -> ndarray.

(** [a[i, j]], the 0-d array read as its only value. *)
Definition at_ (a : ndarray) (i j : nat) : sample :=
  match a with
  | Arr0 v => v
  | Arr2 g => cell g i j
  end.

Definition zeros (sh : shape) : ndarray :=
  Arr2 (mkgrid (fst sh) (snd sh) (fun _ _ => Fin 0)).

(** [np.zeros(shape)].  A shape of [None] was an alias of [()] (a 0-d array,
    with a DeprecationWarning since NumPy 1.20) until NumPy 2.3 made it a
    [TypeError]; [none_is_scalar] tells which NumPy runs. *)
Definition np_zeros (none_is_scalar : bool) (s : option shape) : result ndarray :=
  match s with
  | None => if none_is_scalar then Ok (Arr0 (Fin 0)) else Raise TypeError
  | Some sh => Ok (zeros sh)
  end.

Definition np_full (s : shape) (v : sample) : grid :=
  mkgrid (fst s) (snd s) (fun _ _ => v).

(** An elementwise operation with Python scalars. *)
Definition emap (f : sample -> sample) (g : grid) : grid :=
  mkgrid (nrows g) (ncols g) (fun i j => f (cell g i j)).

(** Broadcasting of one axis: equal lengths, or one of them is 1. *)
Definition bdim (a b : nat) : option nat :=
  if (a =? b)%nat then Some a
  else if (a =? 1)%nat then Some b
  else if (b =? 1)%nat then Some a
  else None.

(** The index read on an axis of length [n] when it is broadcast. *)
Definition bidx (n i : nat) : nat := if (n =? 1)%nat then 0%nat else i.

Definition bcell (g : grid) (i j : nat) : sample :=
  cell g (bidx (nrows g) i) (bidx (ncols g) j).

(** [a * b] on two arrays. *)
Definition gmul (a b : grid) : result grid :=
  match bdim (nrows a) (nrows b), bdim (ncols a) (ncols b) with
  | Some r, Some c => Ok (mkgrid r c (fun i j => smul (bcell a i j) (bcell b i j)))
  | _, _ => Raise ValueError
  end.

(** [n] broadcasts to the length [m] of the output operand. *)
Definition binto (n m : nat) : bool := (n =? m)%nat || (n =? 1)%nat.

(** [a += g]: the right operand must broadcast to the shape of [a]. *)
Definition iadd (a : ndarray) (g : grid) : result ndarray :=
  match a with
  | Arr0 _ => Raise ValueError
  | Arr2 a =>
      if binto (nrows g) (nrows a) && binto (ncols g) (ncols a)
      then Ok (Arr2 (mkgrid (nrows a) (ncols a)
                       (fun i j => sadd (cell a i j) (bcell g i j))))
      else Raise ValueError
  end.

(** ** Python dicts, in insertion order *)

Definition pydict (V : Type) : Type := list (nat * V).

Fixpoint dict_get {V : Type} (d : pydict V) (k : nat) : option V :=
  match d with
  | [] => None
  | (k', v) :: rest => if (k' =? k)%nat then Some v else dict_get rest k
  end.

(** [d[k] = v]: a present key keeps its place, a new one goes last. *)
Fixpoint dict_set {V : Type} (d : pydict V) (k : nat) (v : V) : pydict V :=
  match d with
  | [] => [(k, v)]
  | (k', v') :: rest =>
      if (k' =? k)%nat then (k', v) :: rest else (k', v') :: dict_set rest k v
  end.

Definition dict_values {V : Type} (d : pydict V) : list V := map snd d.

(** [for x in xs: st = body(st, x)], stopping at the first exception. *)
Fixpoint for_each {A S : Type} (body : S -> A -> result S) (xs : list A) (st : S)
  : result S :=
  match xs with
  | [] => Ok st
  | x :: rest => st' ← body st x; for_each body rest st'
  end.

(** The keys ['ppt'], ['soltrans'], ['tmean'], ['tdmean'] of the per-variable
    dicts, in their insertion order. *)
Inductive variable : Type := Ppt | Soltrans | Tmean | Tdmean.

#[global] Instance variable_eq_dec : EqDecision variable.
Proof. solve_decision. Defined.

Definition all_vars : list variable := [Ppt; Soltrans; Tmean; Tdmean].

Definition var_name (v : variable) : string :=
  match v with
  | Ppt => "ppt"
  | Soltrans => "soltrans"
  | Tmean => "tmean"
  | Tdmean => "tdmean"
  end.

(** [monthly_data[var][month]]: every variable has its (possibly empty) dict. *)
Definition monthly_data : Type := variable -> pydict grid.

Definition md_values (md : monthly_data) : list (pydict grid) := map md all_vars.

(** The shape of the first available array:
    [for var_data in monthly_data.values(): for arr in var_data.values(): ...]. *)
Fixpoint first_shape (vars : list (pydict grid)) : option shape :=
  match vars with
  | [] => None
  | var_data :: rest =>
      match dict_values var_data with
      | arr :: _ => Some (gshape arr)
      | [] => first_shape rest
      end
  end.

(** [{10: 31, 11: 30, 12: 31, 1: 31, 2: 28, 3: 31, 4: 30}] *)
Definition WINTER_MONTHS : list (nat * nat) :=
  [(10, 31); (11, 30); (12, 31); (1, 31); (2, 28); (3, 31); (4, 30)]%nat.

Definition sum_days (months : list (nat * nat)) : nat :=
  fold_right (fun md acc => (snd md + acc)%nat) 0%nat months.

Definition TOTAL_DAYS : nat := sum_days WINTER_MONTHS.

(** ** The error function

    [math.erf] is the C library's; its mathematical meaning is the series
    [erf x = 2/sqrt(pi) * sum_n (-1)^n x^(2n+1) / (n! (2n+1))], defined here
    with d'Alembert's criterion.  The estimators below take the error
    function as a parameter. *)

Module Erf.

Definition erf_coeff (n : nat) : R := (-1) ^ n / (INR (fact n) * INR (2 * n + 1)).

Lemma erf_coeff_den_pos n : 0 < INR (fact n) * INR (2 * n + 1).
Proof.
  apply Rmult_lt_0_compat.
  - apply INR_fact_lt_0.
  - apply lt_0_INR. lia.
Qed.

Lemma erf_coeff_neq n : erf_coeff n <> 0.
Proof.
  unfold erf_coeff. pose proof (erf_coeff_den_pos n) as Hd.
  apply Rmult_integral_contrapositive_currified.
  - apply pow_nonzero. lra.
  - apply Rinv_neq_0_compat. lra.
Qed.

Lemma erf_coeff_abs n : Rabs (erf_coeff n) = / (INR (fact n) * INR (2 * n + 1)).
Proof.
  unfold erf_coeff, Rdiv. rewrite Rabs_mult, pow_1_abs, Rmult_1_l.
  apply Rabs_pos_eq. left. apply Rinv_0_lt_compat, erf_coeff_den_pos.
Qed.

Lemma erf_coeff_ratio_le n : Rabs (erf_coeff (S n) / erf_coeff n) <= / INR (S n).
Proof.
  unfold Rdiv. rewrite Rabs_mult, Rabs_inv, !erf_coeff_abs.
  rewrite Rinv_inv.
  pose proof (erf_coeff_den_pos n) as Hd.
  pose proof (INR_fact_lt_0 n) as Hf.
  assert (Hs : 0 < INR (S n)) by (apply lt_0_INR; lia).
  rewrite fact_simpl, mult_INR.
  replace (2 * S n + 1)%nat with (2 * n + 1 + 2)%nat by lia.
  rewrite (plus_INR (2 * n + 1) 2).
  assert (H1 : 0 < INR (2 * n + 1)) by (apply lt_0_INR; lia).
  change (INR 2) with 2.
  set (a := INR (2 * n + 1)) in *. set (f := INR (fact n)) in *. set (s := INR (S n)) in *.
  replace (/ (s * f * (a + 2)) * (f * a)) with (/ s * (a / (a + 2))) by (field; lra).
  rewrite <- (Rmult_1_r (/ s)) at 2.
  apply Rmult_le_compat_l.
  - left. now apply Rinv_0_lt_compat.
  - apply Rmult_le_reg_r with (a + 2); [lra|]. unfold Rdiv. rewrite Rmult_assoc, Rinv_l; lra.
Qed.

Lemma erf_coeff_ratio : Un_cv (fun n => Rabs (erf_coeff (S n) / erf_coeff n)) 0.
Proof.
  intros eps Heps.
  destruct (archimed_cor1 eps Heps) as [N [HN HN0]].
  exists N. intros n Hn. unfold Rdist. rewrite Rminus_0_r, Rabs_Rabsolu.
  eapply Rle_lt_trans; [apply erf_coeff_ratio_le|].
  eapply Rle_lt_trans; [|exact HN].
  apply Rinv_le_contravar.
  - apply lt_0_INR; lia.
  - apply le_INR. lia.
Qed.

Definition erf_series_exists (y : R) : { l : R | Pser erf_coeff y l } :=
  Alembert_C3 erf_coeff y erf_coeff_neq erf_coeff_ratio.

Definition erf_series (y : R) : R := proj1_sig (erf_series_exists y).

Definition erf (x : R) : R := 2 / sqrt PI * (x * erf_series (x * x)).

Definition erf_term (y : R) (n : nat) : R := y ^ n / (INR (fact n) * INR (2 * n + 1)).

(** The error function cut to [[-1, 1]], where its values lie. *)
Definition erf_clamped (x : R) : R := Rmax (-1) (Rmin 1 (erf x)).

End Erf.

(** ** The good-day estimators *)

Section Estimators.

Variable erf : R -> R.
Variable none_is_scalar : bool.

(** [0.5 * (1 + np.vectorize(math.erf)(x / np.sqrt(2)))], one sample. *)
Definition norm_cdf (x : R) : R := 0.5 * (1 + erf (x / sqrt 2)).

(** The same on an array: [np.vectorize] without [otypes] refuses an input of
    size 0. *)
Definition norm_cdf_arr (x : grid) : result grid :=
  if (gsize x =? 0)%nat then Raise ValueError
  else Ok (emap (smap norm_cdf) x).

(** *** app.py *)

Definition app_acc : Type := (ndarray * ndarray * ndarray)%type.

(** The body of [for month, days_in_month in WINTER_MONTHS.items()] of
    [calculate_good_days]. *)
Definition calculate_good_days_body (md : monthly_data)
    (solar_min precip_max temp_min : R) (acc : app_acc) (it : nat * nat)
  : result app_acc :=
  let '(good_days_combined, good_days_solar, good_days_dry) := acc in
  let '(month, days_in_month) := it in
  let solar_std := 0.12 in
  let temp_std := 5 in
  match dict_get (md Soltrans) month,
        dict_get (md Ppt) month,
        dict_get (md Tmean) month with
  | Some soltrans, Some ppt, Some tmean =>
      (* Solar *)
      let z_score := emap (smap (fun x => (solar_min - x) / solar_std)) soltrans in
      cdf ← norm_cdf_arr z_score;
      let frac_good_solar := emap (smap (fun p => 1 - p)) cdf in
      good_days_solar ←
        iadd good_days_solar
          (emap (smap (fun f => f * INR days_in_month)) frac_good_solar);
      (* Precipitation *)
      let daily_precip_avg := emap (smap (fun x => x / INR days_in_month)) ppt in
      let frac_dry :=
        emap (smap (fun d => clip (0.95 - d / (precip_max * 6)) 0.10 0.95))
          daily_precip_avg in
      good_days_dry ←
        iadd good_days_dry (emap (smap (fun f => f * INR days_in_month)) frac_dry);
      (* Temperature *)
      let z_temp := emap (smap (fun x => (temp_min - x) / temp_std)) tmean in
      cdf_temp ← norm_cdf_arr z_temp;
      let frac_warm_enough := emap (smap (fun p => clip (1 - p) 0.1 1.0)) cdf_temp in
      (* Combined *)
      solar_dry ← gmul frac_good_solar frac_dry;
      frac_combined ← gmul solar_dry frac_warm_enough;
      good_days_combined ←
        iadd good_days_combined
          (emap (smap (fun f => f * INR days_in_month)) frac_combined);
      Ok (good_days_combined, good_days_solar, good_days_dry)
  | _, _, _ => Ok acc
  end.

(** [calculate_good_days] over a table of months; the source's table is
    [WINTER_MONTHS]. *)
Definition calculate_good_days_over (months : list (nat * nat))
    (md : monthly_data) (solar_min precip_max temp_min : R) : result app_acc :=
  let shape := first_shape (md_values md) in
  good_days_combined ← np_zeros none_is_scalar shape;
  good_days_solar ← np_zeros none_is_scalar shape;
  good_days_dry ← np_zeros none_is_scalar shape;
  for_each (calculate_good_days_body md solar_min precip_max temp_min) months
    (good_days_combined, good_days_solar, good_days_dry).

Definition calculate_good_days : monthly_data -> R -> R -> R -> result app_acc :=
  calculate_good_days_over WINTER_MONTHS.

(** *** sundex_v2.py *)

Record thresholds : Type := mkthresholds {
  solar_min : R;
  precip_max : R;
  temp_min : R;
  temp_max : R
}.

(** [{'solar_min': 0.40, 'precip_max': 2.5, 'temp_min': -5, 'temp_max': 20}] *)
Definition DEFAULT_THRESHOLDS : thresholds := mkthresholds 0.40 2.5 (-5) 20.

(** One entry of [monthly_good_days]. *)
Record month_days : Type := mkmonth_days {
  m_solar : grid;
  m_dry : grid;
  m_temp : grid;
  m_combined : grid
}.

Record v2_acc : Type := mkv2 {
  good_days_solar : ndarray;
  good_days_dry : ndarray;
  good_days_temp : ndarray;
  good_days_combined : ndarray;
  monthly_good_days : pydict month_days
}.

(** The body of the month loop of [estimate_good_days_from_monthly]. *)
Definition estimate_good_days_body (md : monthly_data) (th : thresholds)
    (acc : v2_acc) (it : nat * nat) : result v2_acc :=
  let '(month, days_in_month) := it in
  match dict_get (md Soltrans) month,
        dict_get (md Ppt) month,
        dict_get (md Tmean) month with
  | Some soltrans, Some ppt, Some tmean =>
      (* SOLAR *)
      let solar_std := 0.12 in
      let solar_threshold := solar_min th in
      let z_score := emap (smap (fun x => (solar_threshold - x) / solar_std)) soltrans in
      cdf ← norm_cdf_arr z_score;
      let frac_good_solar := emap (smap (fun p => 1 - p)) cdf in
      let days_good_solar :=
        emap (smap (fun f => f * INR days_in_month)) frac_good_solar in
      gsolar ← iadd (good_days_solar acc) days_good_solar;
      (* PRECIPITATION: [precip_threshold] is read and not used *)
      let daily_precip_avg := emap (smap (fun x => x / INR days_in_month)) ppt in
      let frac_dry :=
        emap (smap (fun d => clip (0.95 - d / 15) 0.15 0.95)) daily_precip_avg in
      let days_dry := emap (smap (fun f => f * INR days_in_month)) frac_dry in
      gdry ← iadd (good_days_dry acc) days_dry;
      (* TEMPERATURE *)
      let temp_threshold := temp_min th in
      let temp_std := 5 in
      let z_temp := emap (smap (fun x => (temp_threshold - x) / temp_std)) tmean in
      cdf_temp ← norm_cdf_arr z_temp;
      let frac_warm_enough := emap (smap (fun p => 1 - p)) cdf_temp in
      let frac_warm_enough := emap (smap (fun f => clip f 0.1 1.0)) frac_warm_enough in
      let days_warm := emap (smap (fun f => f * INR days_in_month)) frac_warm_enough in
      gtemp ← iadd (good_days_temp acc) days_warm;
      (* COMBINED *)
      solar_dry ← gmul frac_good_solar frac_dry;
      frac_combined ← gmul solar_dry frac_warm_enough;
      let days_combined := emap (smap (fun f => f * INR days_in_month)) frac_combined in
      gcombined ← iadd (good_days_combined acc) days_combined;
      Ok (mkv2 gsolar gdry gtemp gcombined
            (dict_set (monthly_good_days acc) month
               (mkmonth_days days_good_solar days_dry days_warm days_combined)))
  | _, _, _ => Ok acc
  end.

(** The returned dict. *)
Record good_days_result : Type := mkresult {
  good_days : ndarray;
  r_good_days_solar : ndarray;
  r_good_days_dry : ndarray;
  r_good_days_temp : ndarray;
  total_days : nat;
  monthly : pydict month_days;
  r_thresholds : thresholds
}.

Definition estimate_good_days_over (months : list (nat * nat))
    (md : monthly_data) (th : thresholds) : result good_days_result :=
  let shape := first_shape (md_values md) in
  solar0 ← np_zeros none_is_scalar shape;
  dry0 ← np_zeros none_is_scalar shape;
  temp0 ← np_zeros none_is_scalar shape;
  combined0 ← np_zeros none_is_scalar shape;
  acc ← for_each (estimate_good_days_body md th) months
          (mkv2 solar0 dry0 temp0 combined0 []);
  Ok (mkresult (good_days_combined acc) (good_days_solar acc) (good_days_dry acc)
        (good_days_temp acc) (sum_days months) (monthly_good_days acc) th).

Definition estimate_good_days_from_monthly
  : monthly_data -> thresholds -> result good_days_result :=
  estimate_good_days_over WINTER_MONTHS.

End Estimators.

(** *** build_webapp_v2.py, the page's [calculateGoodDays]: the dry-day
    fraction of one cell, [Math.max(0.05, Math.min(0.95, ...))]. *)
Definition js_fracDry (precipMax ppt days : R) : R :=
  let dailyPrecip := ppt / days in
  Rmax 0.05 (Rmin 0.95 (0.95 - dailyPrecip / (precipMax * 8))).

Section Cells.

Variable erf : R -> R.

(** *** One cell in one month

    What the loop bodies compute at one cell, and the accumulation of a cell
    over the months: the statements below are about these. *)

Definition accum (l : list sample) (v0 : sample) : sample := fold_left sadd l v0.

(** The fractions of one cell in one month, as the loop bodies compute them. *)
Definition solar_frac (solar_min : R) (s : sample) : sample :=
  smap (fun p => 1 - p) (smap (norm_cdf erf) (smap (fun x => (solar_min - x) / 0.12) s)).

Definition warm_frac (temp_min : R) (t : sample) : sample :=
  smap (fun p => clip (1 - p) 0.1 1.0)
    (smap (norm_cdf erf) (smap (fun x => (temp_min - x) / 5) t)).

(** [divisor] is [precip_max * 6] in app.py and [15] in sundex_v2.py. *)
Definition dry_frac (divisor floor : R) (days : nat) (p : sample) : sample :=
  smap (fun d => clip (0.95 - d / divisor) floor 0.95) (smap (fun x => x / INR days) p).

Definition in_days (days : nat) (f : sample) : sample :=
  smap (fun f => f * INR days) f.

Definition combined_frac (fs fd fw : sample) : sample := smul (smul fs fd) fw.

(** The samples of cell [(i, j)] in a month that the loop does not skip. *)
Definition month_inputs (md : monthly_data) (i j : nat) (month : nat)
  : option (sample * sample * sample) :=
  match dict_get (md Soltrans) month, dict_get (md Ppt) month, dict_get (md Tmean) month with
  | Some soltrans, Some ppt, Some tmean =>
      Some (bcell soltrans i j, bcell ppt i j, bcell tmean i j)
  | _, _, _ => None
  end.

(** The contributions of the months to one cell of an accumulator. *)
Definition contributions (md : monthly_data) (i j : nat)
    (f : nat -> sample * sample * sample -> sample) (months : list (nat * nat))
  : list sample :=
  flat_map
    (fun it => match month_inputs md i j (fst it) with
               | Some spt => [f (snd it) spt]
               | None => []
               end) months.

Definition app_solar (solar_min : R) (days : nat) (spt : sample * sample * sample) :=
  in_days days (solar_frac solar_min (fst (fst spt))).
Definition app_dry (precip_max : R) (days : nat) (spt : sample * sample * sample) :=
  in_days days (dry_frac (precip_max * 6) 0.10 days (snd (fst spt))).
Definition app_combined (solar_min precip_max temp_min : R) (days : nat)
    (spt : sample * sample * sample) :=
  in_days days
    (combined_frac (solar_frac solar_min (fst (fst spt)))
       (dry_frac (precip_max * 6) 0.10 days (snd (fst spt)))
       (warm_frac temp_min (snd spt))).

Definition v2_solar (th : thresholds) (days : nat) (spt : sample * sample * sample) :=
  in_days days (solar_frac (solar_min th) (fst (fst spt))).
Definition v2_dry (days : nat) (spt : sample * sample * sample) :=
  in_days days (dry_frac 15 0.15 days (snd (fst spt))).
Definition v2_temp (th : thresholds) (days : nat) (spt : sample * sample * sample) :=
  in_days days (warm_frac (temp_min th) (snd spt)).
Definition v2_combined (th : thresholds) (days : nat) (spt : sample * sample * sample) :=
  in_days days
    (combined_frac (solar_frac (solar_min th) (fst (fst spt)))
       (dry_frac 15 0.15 days (snd (fst spt)))
       (warm_frac (temp_min th) (snd spt))).

End Cells.

(** ** Shapes of the loaded data *)

(** Every loaded grid has the shape [sh]. *)
Definition uniform_shape (md : monthly_data) (sh : shape) : Prop :=
  forall var month g, dict_get (md var) month = Some g -> gshape g = sh.

(** An accumulator that is a 2-D array of the shape [sh]. *)
Definition has_shape (a : ndarray) (sh : shape) : Prop :=
  exists g, a = Arr2 g /\ gshape g = sh.

Definition v2_has_shape (sh : shape) (acc : v2_acc) : Prop :=
  has_shape (good_days_solar acc) sh /\ has_shape (good_days_dry acc) sh /\
  has_shape (good_days_temp acc) sh /\ has_shape (good_days_combined acc) sh.

(** ** The catalog scan ([get_file_paths], the same text in app.py,
    sundex_v2.py and build_webapp.py)

    Directory and file names are ASCII strings; a directory entry carries its
    own listing, in the order [os.listdir] gives it. *)

Module Catalog.

Definition DATA_DIR : string := "Data/prism_normals".

Record entry : Type := mkentry {
  e_name : string;
  e_isdir : bool;
  e_files : list string
}.

Definition lower_ascii (c : ascii) : ascii :=
  let n := nat_of_ascii c in
  if (65 <=? n)%nat && (n <=? 90)%nat then ascii_of_nat (n + 32) else c.

Fixpoint lower (s : string) : string :=
  match s with
  | EmptyString => EmptyString
  | String c rest => String (lower_ascii c) (lower rest)
  end.

Fixpoint startswith (p s : string) : bool :=
  match p, s with
  | EmptyString, _ => true
  | String a p', String b s' => Ascii.eqb a b && startswith p' s'
  | String _ _, EmptyString => false
  end.

(** [sub in s] *)
Fixpoint contains (sub s : string) : bool :=
  startswith sub s ||
  match s with
  | EmptyString => false
  | String _ rest => contains sub rest
  end.

Definition endswith (s suffix : string) : bool :=
  let n := String.length s in
  let m := String.length suffix in
  (m <=? n)%nat && String.eqb (substring (n - m) m s) suffix.

(** [s.split(sep)] *)
Fixpoint split (sep : ascii) (s : string) : list string :=
  match s with
  | EmptyString => [EmptyString]
  | String c rest =>
      if Ascii.eqb c sep then EmptyString :: split sep rest
      else match split sep rest with
           | part :: parts => String c part :: parts
           | [] => [String c EmptyString]
           end
  end.

Definition is_digit (c : ascii) : bool :=
  let n := nat_of_ascii c in (48 <=? n)%nat && (n <=? 57)%nat.

Fixpoint all_digits (s : string) : bool :=
  match s with
  | EmptyString => true
  | String c rest => is_digit c && all_digits rest
  end.

(** [s.isdigit()] *)
Definition isdigit (s : string) : bool :=
  negb (String.length s =? 0)%nat && all_digits s.

Fixpoint int_acc (acc : nat) (s : string) : nat :=
  match s with
  | EmptyString => acc
  | String c rest => int_acc (10 * acc + (nat_of_ascii c - 48)) rest
  end.

(** [int(s)] on a string of digits *)
Definition int (s : string) : nat := int_acc 0 s.

(** [os.path.join(a, b)] for a relative name [b] *)
Definition path_join (a b : string) : string := a ++ "/" ++ b.

Definition find_raster_file (pattern_dir : string) (e : entry) : option string :=
  if negb (e_isdir e) then None
  else
    match List.find (fun f => endswith f ".bil" || endswith f ".tif") (e_files e) with
    | Some f => Some (path_join pattern_dir f)
    | None => None
    end.

(** [for i, p in enumerate(parts): if p == 'bil' and i > 0: ...]; [prev] is
    [parts[i-1]] once [i > 0]. *)
Fixpoint scan_bil (prev : option string) (parts : list string) : option nat :=
  match parts with
  | [] => None
  | p :: rest =>
      match prev with
      | Some month_str =>
          if String.eqb p "bil" && (isdigit month_str && (String.length month_str =? 2)%nat)
          then Some (int month_str)
          else scan_bil (Some p) rest
      | None => scan_bil (Some p) rest
      end
  end.

(** [for p in parts: if len(p) == 6 and p.isdigit(): month = int(p[4:6]); break] *)
Fixpoint scan_yyyymm (parts : list string) : option nat :=
  match parts with
  | [] => None
  | p :: rest =>
      if (String.length p =? 6)%nat && isdigit p then Some (int (substring 4 2 p))
      else scan_yyyymm rest
  end.

Definition month_of (item : string) : option nat :=
  let item_lower := lower item in
  if contains "_bil" item_lower then scan_bil None (split "_" item)
  else if contains "avg_30y" item_lower then scan_yyyymm (split "_" item)
  else None.

(** [paths[var][month]] *)
Definition paths_t : Type := variable -> gmap nat string.

Definition empty_paths : paths_t := fun _ => ∅.

Definition paths_set (paths : paths_t) (var : variable) (month : nat) (file : string)
  : paths_t :=
  fun v => if decide (v = var) then <[month := file]> (paths v) else paths v.

(** Variable, month and file of one directory entry, when the scan records it. *)
Definition classify (e : entry) : option (variable * nat * string) :=
  let item := e_name e in
  let item_path := path_join DATA_DIR item in
  if negb (e_isdir e) then None
  else
    let item_lower := lower item in
    if contains "800m" item_lower then None
    else
      match List.find (fun var => contains (var_name var) item_lower) all_vars with
      | Some var =>
          match month_of item with
          | Some month =>
              if (month =? 0)%nat then None
              else
                match find_raster_file item_path e with
                | Some raster_file => Some (var, month, raster_file)
                | None => None
                end
          | None => None
          end
      | None => None
      end.

(** The body of [for item in os.listdir(DATA_DIR)]. *)
Definition get_file_paths_item (paths : paths_t) (e : entry) : paths_t :=
  match classify e with
  | Some (var, month, raster_file) => paths_set paths var month raster_file
  | None => paths
  end.

Definition get_file_paths (listing : list entry) : paths_t :=
  fold_left get_file_paths_item listing empty_paths.

(** The scan records entry [e] under the variable [var] and the month [month]. *)
Definition discovers (e : entry) (var : variable) (month : nat) : Prop :=
  exists file, classify e = Some (var, month, file).

Definition raster_ext (f : string) : bool := endswith f ".bil" || endswith f ".tif".

End Catalog.

(** ** Raster loading

    What [rasterio] yields for a file and the fixed bounding box: the window's
    samples, the declared nodata value ([None] when the file declares none),
    the window's affine transform and the CRS.  Opening a catalogued file is
    taken to succeed. *)

Record affine : Type := mkaffine {
  af_a : R; af_b : R; af_c : R; af_d : R; af_e : R; af_f : R
}.

Record raster : Type := mkraster {
  window_data : grid;
  src_nodata : option sample;
  window_transform : affine;
  src_crs : string
}.

(** The truth value of a Python float: zero is false, NaN is true. *)
Definition float_truthy (v : sample) : bool :=
  match v with
  | NaN => true
  | Fin x => if Req_dec_T x 0 then false else true
  end.

(** [a == b] on floats: NaN equals nothing. *)
Definition float_eqb (a b : sample) : bool :=
  match a, b with
  | Fin x, Fin y => if Req_dec_T x y then true else false
  | _, _ => false
  end.

(** [src.nodata if src.nodata else -9999] *)
Definition chosen_nodata (src : raster) : sample :=
  match src_nodata src with
  | Some v => if float_truthy v then v else Fin (-9999)
  | None => Fin (-9999)
  end.

(** [np.where(data == nodata, np.nan, data)] *)
Definition mask_nodata (nodata : sample) (data : grid) : grid :=
  emap (fun x => if float_eqb x nodata then NaN else x) data.

(** [new_data = np.full(target_shape, np.nan);
     new_data[:min_rows, :min_cols] = data[:min_rows, :min_cols]] *)
Definition crop_pad (target_shape : shape) (data : grid) : grid :=
  let min_rows := Nat.min (nrows data) (fst target_shape) in
  let min_cols := Nat.min (ncols data) (snd target_shape) in
  mkgrid (fst target_shape) (snd target_shape)
    (fun i j => if (i <? min_rows)%nat && (j <? min_cols)%nat
                then cell data i j else NaN).

Definition md_empty : monthly_data := fun _ => [].

(** [monthly_data[var][month] = data] *)
Definition md_set (md : monthly_data) (var : variable) (month : nat) (data : grid)
  : monthly_data :=
  fun v => if decide (v = var) then dict_set (md v) month data else md v.

Record load_state : Type := mkload {
  ls_data : monthly_data;
  ls_transform : option affine;
  ls_crs : option string;
  ls_target_shape : option shape
}.

(** *** sundex_v2.py (and, for [load_raster_wa], sundex.py) *)

Module SundexV2.

Definition load_raster_wa (fs : string -> raster) (filepath : string)
    (target_shape : option shape) : grid * affine * string :=
  let src := fs filepath in
  let data := window_data src in
  let transform := window_transform src in
  let nodata := chosen_nodata src in
  let data := mask_nodata nodata data in
  let data :=
    match target_shape with
    | Some ts => if negb (shape_eqb (gshape data) ts) then crop_pad ts data else data
    | None => data
    end in
  (data, transform, src_crs src).

(** The body of [for month in WINTER_MONTHS.keys()] for one variable. *)
Definition load_month (fs : string -> raster) (var : variable)
    (month_files : gmap nat string) (st : load_state) (month : nat) : load_state :=
  match month_files !! month with
  | Some filepath =>
      let '(data, t, c) := load_raster_wa fs filepath (ls_target_shape st) in
      let monthly := md_set (ls_data st) var month data in
      match ls_transform st with
      | None => mkload monthly (Some t) (Some c) (Some (gshape data))
      | Some _ => mkload monthly (ls_transform st) (ls_crs st) (ls_target_shape st)
      end
  | None => st
  end.

Definition load_var (fs : string -> raster) (file_paths : Catalog.paths_t)
    (st : load_state) (var : variable) : load_state :=
  fold_left (load_month fs var (file_paths var)) (map fst WINTER_MONTHS) st.

Definition load_monthly_data (fs : string -> raster) (file_paths : Catalog.paths_t)
  : load_state :=
  fold_left (load_var fs file_paths) all_vars (mkload md_empty None None None).

(** One step of the two loops run as one, over [(var, month)] pairs. *)
Definition load_step fs (file_paths : Catalog.paths_t) (st : load_state)
    (vm : variable * nat) : load_state :=
  load_month fs (fst vm) (file_paths (fst vm)) st (snd vm).

End SundexV2.

(** *** app.py *)

Module App.

Definition load_month (fs : string -> raster) (var : variable)
    (month_files : gmap nat string) (st : load_state) (month : nat) : load_state :=
  match month_files !! month with
  | Some filepath =>
      let src := fs filepath in
      let data := window_data src in
      let '(transform, target_shape) :=
        match ls_transform st with
        | None => (Some (window_transform src), Some (gshape data))
        | Some _ => (ls_transform st, ls_target_shape st)
        end in
      let nodata := chosen_nodata src in
      let data := mask_nodata nodata data in
      let data :=
        match target_shape with
        | Some ts => if negb (shape_eqb (gshape data) ts) then crop_pad ts data else data
        | None => data
        end in
      mkload (md_set (ls_data st) var month data) transform (ls_crs st) target_shape
  | None => st
  end.

Definition load_var (fs : string -> raster) (file_paths : Catalog.paths_t)
    (st : load_state) (var : variable) : load_state :=
  fold_left (load_month fs var (file_paths var)) (map fst WINTER_MONTHS) st.

Definition load_monthly_data (listing : list Catalog.entry) (fs : string -> raster)
  : load_state :=
  let file_paths := Catalog.get_file_paths listing in
  fold_left (load_var fs file_paths) all_vars (mkload md_empty None None None).

(** One step of the two loops run as one, over [(var, month)] pairs. *)
Definition load_step fs (file_paths : Catalog.paths_t) (st : load_state)
    (vm : variable * nat) : load_state :=
  load_month fs (fst vm) (file_paths (fst vm)) st (snd vm).

End App.

(** *** The reference of a run *)

(** The alignment both loaders apply to a masked window. *)
Definition conform (ts : shape) (data : grid) : grid :=
  if negb (shape_eqb (gshape data) ts) then crop_pad ts data else data.

(** The months of the table, for every variable in turn. *)
Definition load_order : list (variable * nat) :=
  flat_map (fun var => map (fun month => (var, month)) (map fst WINTER_MONTHS)) all_vars.

(** The files a run opens, in the order it opens them. *)
Definition opened_files (file_paths : Catalog.paths_t) (order : list (variable * nat))
  : list string :=
  flat_map (fun vm => match file_paths (fst vm) !! snd vm with
                      | Some filepath => [filepath]
                      | None => []
                      end) order.

(** The state once a first raster has fixed the reference. *)
Definition aligned_to (st : load_state) (t : affine) (sh : shape) : Prop :=
  ls_transform st = Some t /\ ls_target_shape st = Some sh /\
  uniform_shape (ls_data st) sh.

Definition nothing_loaded (st : load_state) : Prop :=
  ls_transform st = None /\ ls_target_shape st = None /\
  uniform_shape (ls_data st) (0%nat, 0%nat) /\ forall var, ls_data st var = [].

(** *** build_webapp.py *)

(** The finite values of a list of samples, in order ([x[~np.isnan(x)]]). *)
Fixpoint valid_samples (l : list sample) : list R :=
  match l with
  | [] => []
  | NaN :: rest => valid_samples rest
  | Fin x :: rest => x :: valid_samples rest
  end.

Definition Rsum (l : list R) : R := fold_right Rplus 0 l.

(** [np.mean] of a non-empty 1-d array *)
Definition np_mean (l : list R) : R := Rsum l / INR (length l).

(** One cell of [np.nanmean(stack, axis=0)]: NaN when every input is NaN. *)
Definition nanmean_cell (l : list sample) : sample :=
  match valid_samples l with
  | [] => NaN
  | x :: rest => Fin (np_mean (x :: rest))
  end.

Module BuildWebapp.

(** The body of [for month in WINTER_MONTHS.keys()]: the arrays of one
    variable, unaligned, and the transform of the first file opened. *)
Definition load_month (fs : string -> raster) (month_files : gmap nat string)
    (st : list grid * option affine) (month : nat) : list grid * option affine :=
  let '(monthly_arrays, transform) := st in
  match month_files !! month with
  | Some filepath =>
      let src := fs filepath in
      let data := window_data src in
      let transform :=
        match transform with
        | None => Some (window_transform src)
        | Some t => Some t
        end in
      let nodata := chosen_nodata src in
      let data := mask_nodata nodata data in
      (monthly_arrays ++ [data], transform)
  | None => st
  end.

(** [np.nanmean(np.stack(aligned), axis=0)], the arrays aligned to
    [monthly_arrays[0].shape]. *)
Definition average_aligned (monthly_arrays : list grid) : option grid :=
  match monthly_arrays with
  | [] => None
  | first :: _ =>
      let target_shape := gshape first in
      let aligned :=
        map (fun arr => if negb (shape_eqb (gshape arr) target_shape)
                        then crop_pad target_shape arr else arr) monthly_arrays in
      Some (mkgrid (fst target_shape) (snd target_shape)
              (fun i j => nanmean_cell (map (fun arr => cell arr i j) aligned)))
  end.

Definition load_var (fs : string -> raster) (file_paths : Catalog.paths_t)
    (st : list (variable * grid) * option affine) (var : variable)
  : list (variable * grid) * option affine :=
  let '(averages, transform) := st in
  let '(monthly_arrays, transform) :=
    fold_left (load_month fs (file_paths var)) (map fst WINTER_MONTHS) ([], transform) in
  match average_aligned monthly_arrays with
  | Some avg => (averages ++ [(var, avg)], transform)
  | None => (averages, transform)
  end.

Definition load_and_average_data (listing : list Catalog.entry) (fs : string -> raster)
  : list (variable * grid) * option affine :=
  let file_paths := Catalog.get_file_paths listing in
  fold_left (load_var fs file_paths) all_vars ([], None).

(** [arr[lo:hi]] on an axis of length [n]: the indices read. *)
Definition slice (lo hi n : nat) : list nat :=
  seq lo (Nat.min hi n - lo).

(** [arr[i*factor:(i+1)*factor, j*factor:(j+1)*factor]], flattened row by row. *)
Definition block (arr : grid) (factor i j : nat) : list sample :=
  flat_map
    (fun r => map (fun c => cell arr r c)
                (slice (j * factor) ((j + 1) * factor) (ncols arr)))
    (slice (i * factor) ((i + 1) * factor) (nrows arr)).

(** [result[i, j] = v] *)
Definition grid_set (g : grid) (i j : nat) (v : sample) : grid :=
  mkgrid (nrows g) (ncols g)
    (fun i' j' => if (i' =? i)%nat && (j' =? j)%nat then v else cell g i' j').

(** The body of the two loops of [downsample]. *)
Definition downsample_cell (arr : grid) (factor : nat) (result : grid) (i j : nat)
  : grid :=
  let valid := valid_samples (block arr factor i j) in
  if (0 <? length valid)%nat then grid_set result i j (Fin (np_mean valid))
  else grid_set result i j NaN.

Definition downsample (arr : grid) (factor : nat) : result grid :=
  if (factor =? 0)%nat then Raise ZeroDivisionError
  else
    let h := nrows arr in
    let w := ncols arr in
    let new_h := (h / factor)%nat in
    let new_w := (w / factor)%nat in
    let result := mkgrid new_h new_w (fun _ _ => Fin 0) in
    Ok (fold_left
          (fun result i =>
             fold_left (fun result j => downsample_cell arr factor result i j)
               (seq 0 new_w) result)
          (seq 0 new_h) result).

(** The files of one variable, in the order of the months. *)
Definition opened (month_files : gmap nat string) : list string :=
  flat_map (fun month => match month_files !! month with
                         | Some filepath => [filepath]
                         | None => []
                         end) (map fst WINTER_MONTHS).

Definition masked (fs : string -> raster) (filepath : string) : grid :=
  mask_nodata (chosen_nodata (fs filepath)) (window_data (fs filepath)).

Definition first_transform (fs : string -> raster) (t : option affine) (files : list string)
  : option affine :=
  match t, files with
  | Some t, _ => Some t
  | None, first :: _ => Some (window_transform (fs first))
  | None, [] => None
  end.

(** The average of one variable, when it has a file. *)
Definition var_average fs (file_paths : Catalog.paths_t) (var : variable) : option grid :=
  average_aligned (map (masked fs) (opened (file_paths var))).

(** The [factor] x [factor] block of output cell [(i, j)], row by row. *)
Definition block_at (arr : grid) (factor i j : nat) : list sample :=
  flat_map
    (fun di => map (fun dj => cell arr (i * factor + di) (j * factor + dj)) (seq 0 factor))
    (seq 0 factor).

(** The value the loops store at [(i, j)]. *)
Definition cell_value (arr : grid) (factor i j : nat) : sample :=
  let valid := valid_samples (block arr factor i j) in
  if 0 <? length valid then Fin (np_mean valid) else NaN.

End BuildWebapp.

(** ** Concrete inputs *)

(** A grid of one cell. *)
Definition one_cell (s : sample) : grid := mkgrid 1 1 (fun _ _ => s).

(** January alone: solar transmittance 0.50, 100 mm of precipitation, 2 degrees. *)
Definition january_md : monthly_data :=
  fun var =>
    match var with
    | Soltrans => [(1%nat, one_cell (Fin 0.50))]
    | Ppt => [(1%nat, one_cell (Fin 100))]
    | Tmean => [(1%nat, one_cell (Fin 2))]
    | Tdmean => []
    end.

(** November alone, with 150 mm of precipitation. *)
Definition november_md : monthly_data :=
  fun var =>
    match var with
    | Soltrans => [(11%nat, one_cell (Fin 0.50))]
    | Ppt => [(11%nat, one_cell (Fin 150))]
    | Tmean => [(11%nat, one_cell (Fin 2))]
    | Tdmean => []
    end.


(** January alone, with its solar transmittance (0.50) and its temperature
    but no precipitation grid. *)
Definition january_without_ppt_md : monthly_data :=
  fun var =>
    match var with
    | Soltrans => [(1%nat, one_cell (Fin 0.50))]
    | Tmean => [(1%nat, one_cell (Fin 2))]
    | _ => []
    end.

(** October alone, the three windows without a row (a size of 0). *)
Definition empty_window_md : monthly_data :=
  fun var =>
    match var with
    | Tdmean => []
    | _ => [(10%nat, mkgrid 0 3 (fun _ _ => NaN))]
    end.

(** Two catalogued files whose windows differ in shape. *)
Definition two_shapes_listing : list Catalog.entry :=
  [ Catalog.mkentry "PRISM_ppt_30yr_normal_4kmM4_10_bil" true ["ppt_10.bil"];
    Catalog.mkentry "PRISM_soltrans_30yr_normal_4kmM4_10_bil" true ["soltrans_10.bil"] ].

Definition ppt_10_path : string :=
  "Data/prism_normals/PRISM_ppt_30yr_normal_4kmM4_10_bil/ppt_10.bil".
Definition soltrans_10_path : string :=
  "Data/prism_normals/PRISM_soltrans_30yr_normal_4kmM4_10_bil/soltrans_10.bil".

Definition two_shapes_fs (filepath : string) : raster :=
  if String.eqb filepath ppt_10_path
  then mkraster (mkgrid 1 1 (fun _ _ => Fin 100)) (Some (Fin (-9999)))
         (mkaffine 1 0 0 0 (-1) 0) "EPSG:4269"
  else mkraster (mkgrid 2 2 (fun _ _ => Fin 0.5)) (Some (Fin (-9999)))
         (mkaffine 1 0 0 0 (-1) 0) "EPSG:4269".

(** A window [0, 5, -9999] of a file that declares the nodata value 0. *)
Definition zero_nodata_raster : raster :=
  mkraster
    (mkgrid 1 3 (fun _ j => match j with
                            | 0%nat => Fin 0
                            | 1%nat => Fin 5
                            | _ => Fin (-9999)
                            end))
    (Some (Fin 0)) (mkaffine 1 0 0 0 (-1) 0) "EPSG:4269".

(** Two directories of the same variable and month. *)
Definition twice_listing : list Catalog.entry :=
  [ Catalog.mkentry "PRISM_ppt_30yr_normal_4kmM4_01_bil" true ["first.bil"];
    Catalog.mkentry "PRISM_ppt_30yr_normal_4kmM3_01_bil" true ["second.bil"] ].

(** A 2 x 2 grid with a missing column. *)
Definition half_missing : grid :=
  mkgrid 2 2 (fun i j => match j with
                         | 0%nat => Fin (if (i =? 0)%nat then 1 else 3)
                         | _ => NaN
                         end).

(** ** Stacks of grids *)

(** [np.nanmean(np.stack(arrays), axis=0)]: [np.stack] refuses an empty list
    and arrays of different shapes. *)
Definition nanmean_stack (arrays : list grid) : result grid :=
  match arrays with
  | [] => Raise ValueError
  | first :: _ =>
      if forallb (fun arr => shape_eqb (gshape arr) (gshape first)) arrays
      then Ok (mkgrid (nrows first) (ncols first)
                 (fun i j => nanmean_cell (map (fun arr => cell arr i j) arrays)))
      else Raise ValueError
  end.

(** A dict keyed by the variables, when the order of its keys is not read. *)
Definition averages_t : Type := variable -> option grid.

Definition no_averages : averages_t := fun _ => None.

(** [averages[var] = avg] *)
Definition averages_set (averages : averages_t) (var : variable) (avg : grid)
  : averages_t :=
  fun v => if decide (v = var) then Some avg else averages v.

(** The grids of the months a dict holds, in the order of the months. *)
Definition month_arrays (d : pydict grid) (months : list nat) : list grid :=
  flat_map (fun m => match dict_get d m with
                     | Some g => [g]
                     | None => []
                     end) months.

(** ** Elementwise operations with broadcasting *)

(** [f(a, b)] on two 2-D arrays. *)
Definition gzip (f : sample -> sample -> sample) (a b : grid) : result grid :=
  match bdim (nrows a) (nrows b), bdim (ncols a) (ncols b) with
  | Some r, Some c => Ok (mkgrid r c (fun i j => f (bcell a i j) (bcell b i j)))
  | _, _ => Raise ValueError
  end.

Definition nd_map (f : sample -> sample) (a : ndarray) : ndarray :=
  match a with
  | Arr0 v => Arr0 (f v)
  | Arr2 g => Arr2 (emap f g)
  end.

(** [f(a, b)] where either operand may be 0-d. *)
Definition nd_zip (f : sample -> sample -> sample) (a b : ndarray) : result ndarray :=
  match a, b with
  | Arr0 u, Arr0 v => Ok (Arr0 (f u v))
  | Arr0 u, Arr2 h => Ok (Arr2 (emap (f u) h))
  | Arr2 g, Arr0 v => Ok (Arr2 (emap (fun x => f x v) g))
  | Arr2 g, Arr2 h => c ← gzip f g h; Ok (Arr2 c)
  end.

(** A sample that is missing or lies in [[lo, hi]]. *)
Definition within (lo hi : R) (s : sample) : Prop :=
  match s with
  | NaN => True
  | Fin x => lo <= x <= hi
  end.

(** ** The catalog scan of sundex.py and of build_webapp_v2.py

    [get_file_paths] of sundex.py has no test of ['800m']; the one of
    build_webapp_v2.py has the test and the keys ['ppt'], ['soltrans'] and
    ['tmean'] only.  The rest of the text is that of [Catalog.classify]. *)

Module Sundex.
Import Catalog.

Definition classify (e : entry) : option (variable * nat * string) :=
  let item := e_name e in
  let item_path := path_join DATA_DIR item in
  if negb (e_isdir e) then None
  else
    let item_lower := lower item in
    match List.find (fun var => contains (var_name var) item_lower) all_vars with
    | Some var =>
        match month_of item with
        | Some month =>
            if (month =? 0)%nat then None
            else
              match find_raster_file item_path e with
              | Some raster_file => Some (var, month, raster_file)
              | None => None
              end
        | None => None
        end
    | None => None
    end.

Definition get_file_paths_item (paths : paths_t) (e : entry) : paths_t :=
  match classify e with
  | Some (var, month, raster_file) => paths_set paths var month raster_file
  | None => paths
  end.

Definition get_file_paths (listing : list entry) : paths_t :=
  fold_left get_file_paths_item listing empty_paths.


(** [WINTER_MONTHS = [10, 11, 12, 1, 2, 3, 4]] *)
Definition WINTER_MONTHS : list nat := [10; 11; 12; 1; 2; 3; 4]%nat.

Record averages_state : Type := mkavg {
  av_averages : averages_t;
  av_transform : option affine;
  av_crs : option string;
  av_target_shape : option shape
}.

(** The body of [for month in months] of [compute_winter_averages];
    [load_raster_wa] is the text of sundex_v2.py. *)
Definition load_month (fs : string -> raster) (month_files : gmap nat string)
    (st : list grid * option affine * option string * option shape) (month : nat)
  : list grid * option affine * option string * option shape :=
  let '(monthly_data, transform, crs, target_shape) := st in
  match month_files !! month with
  | Some filepath =>
      let '(data, t, c) := SundexV2.load_raster_wa fs filepath target_shape in
      let monthly_data := (monthly_data ++ [data])%list in
      match transform with
      | None => (monthly_data, Some t, Some c, Some (gshape data))
      | Some _ => (monthly_data, transform, crs, target_shape)
      end
  | None => st
  end.

(** The body of [for var, month_files in file_paths.items()]. *)
Definition compute_var (fs : string -> raster) (file_paths : Catalog.paths_t)
    (months : list nat) (st : averages_state) (var : variable) : result averages_state :=
  let '(monthly_data, transform, crs, target_shape) :=
    fold_left (load_month fs (file_paths var)) months
      ([], av_transform st, av_crs st, av_target_shape st) in
  match monthly_data with
  | [] => Ok (mkavg (av_averages st) transform crs target_shape)
  | _ :: _ =>
      avg ← nanmean_stack monthly_data;
      Ok (mkavg (averages_set (av_averages st) var avg) transform crs target_shape)
  end.

Definition compute_winter_averages (fs : string -> raster) (file_paths : Catalog.paths_t)
    (months : list nat) : result (averages_t * option affine * option string) :=
  st ← for_each (compute_var fs file_paths months) all_vars (mkavg no_averages None None None);
  Ok (av_averages st, av_transform st, av_crs st).


(** *** [compute_sundex] *)

(** [np.full_like(a, 50)] for [a] an array or [None]: of [None] NumPy makes a
    0-d array. *)
Definition full_like_50 (a : option grid) : ndarray :=
  match a with
  | Some g => Arr2 (np_full (gshape g) (Fin 50))
  | None => Arr0 (Fin 50)
  end.

(** [np.clip(soltrans * 100, 0, 100)], one sample. *)
Definition solar_idx_of (soltrans : R) : R := clip (soltrans * 100) 0 100.

(** [100 - np.clip(ppt / 2, 0, 100)] *)
Definition precip_idx_of (ppt : R) : R := 100 - clip (ppt / 2) 0 100.

(** [np.clip(dewpoint_spread / 15 * 50, 0, 50)] *)
Definition humidity_factor_of (dewpoint_spread : R) : R :=
  clip (dewpoint_spread / 15 * 50) 0 50.

(** [np.where((tmean > 0) & (tmean < 7),
              np.clip(30 - (7 - np.abs(tmean - 3.5)) * 5, 0, 50),
              np.clip(50 - np.abs(tmean - 10) * 2, 0, 50))] *)
Definition temp_factor_of (tmean : R) : R :=
  if Rlt_dec 0 tmean then
    if Rlt_dec tmean 7 then clip (30 - (7 - Rabs (tmean - 3.5)) * 5) 0 50
    else clip (50 - Rabs (tmean - 10) * 2) 0 50
  else clip (50 - Rabs (tmean - 10) * 2) 0 50.

Record metrics : Type := mkmetrics {
  sundex : ndarray;
  solar_idx : ndarray;
  precip_idx : ndarray;
  comfort_idx : ndarray;
  m_soltrans : option grid;
  m_ppt : option grid;
  m_tmean : option grid;
  m_tdmean : option grid
}.

Definition compute_sundex (averages : averages_t) : result metrics :=
  let soltrans := averages Soltrans in
  let ppt := averages Ppt in
  let tmean := averages Tmean in
  let tdmean := averages Tdmean in
  (* SOLAR INDEX *)
  let solar_idx :=
    match soltrans with
    | Some soltrans => Arr2 (emap (smap solar_idx_of) soltrans)
    | None => full_like_50 ppt
    end in
  (* PRECIPITATION INDEX *)
  let precip_idx :=
    match ppt with
    | Some ppt => Arr2 (emap (smap precip_idx_of) ppt)
    | None => nd_map (fun _ => Fin 50) solar_idx
    end in
  (* COMFORT INDEX *)
  comfort_idx ←
    match tmean, tdmean with
    | Some tmean, Some tdmean =>
        dewpoint_spread ← gzip (smap2 Rminus) tmean tdmean;
        let humidity_factor := emap (smap humidity_factor_of) dewpoint_spread in
        let temp_factor := emap (smap temp_factor_of) tmean in
        comfort ← gzip sadd humidity_factor temp_factor;
        Ok (Arr2 comfort)
    | _, _ => Ok (nd_map (fun _ => Fin 50) solar_idx)
    end;
  (* SUNDEX COMPOSITE *)
  weighted ←
    nd_zip sadd (nd_map (smap (fun x => 0.45 * x)) solar_idx)
                (nd_map (smap (fun x => 0.30 * x)) precip_idx);
  sundex ← nd_zip sadd weighted (nd_map (smap (fun x => 0.25 * x)) comfort_idx);
  Ok (mkmetrics sundex solar_idx precip_idx comfort_idx soltrans ppt tmean tdmean).

(** The composite of one cell, from its four samples. *)
Definition sundex_cell (soltrans ppt tmean tdmean : sample) : sample :=
  sadd
    (sadd (smap (fun x => 0.45 * x) (smap solar_idx_of soltrans))
          (smap (fun x => 0.30 * x) (smap precip_idx_of ppt)))
    (smap (fun x => 0.25 * x)
       (sadd (smap humidity_factor_of (smap2 Rminus tmean tdmean))
             (smap temp_factor_of tmean))).

End Sundex.

Module BuildWebappV2.
Import Catalog.

(** The keys of [paths = {'ppt': {}, 'soltrans': {}, 'tmean': {}}]. *)
Definition path_vars : list variable := [Ppt; Soltrans; Tmean].

Definition classify (e : entry) : option (variable * nat * string) :=
  let item := e_name e in
  let item_path := path_join DATA_DIR item in
  if negb (e_isdir e) then None
  else
    let item_lower := lower item in
    if contains "800m" item_lower then None
    else
      match List.find (fun var => contains (var_name var) item_lower) path_vars with
      | Some var =>
          match month_of item with
          | Some month =>
              if (month =? 0)%nat then None
              else
                match find_raster_file item_path e with
                | Some raster_file => Some (var, month, raster_file)
                | None => None
                end
          | None => None
          end
      | None => None
      end.

Definition get_file_paths_item (paths : paths_t) (e : entry) : paths_t :=
  match classify e with
  | Some (var, month, raster_file) => paths_set paths var month raster_file
  | None => paths
  end.

Definition get_file_paths (listing : list entry) : paths_t :=
  fold_left get_file_paths_item listing empty_paths.

End BuildWebappV2.


(** The two directory names the scan is written for, as its comments give
    them: [PRISM_ppt_30yr_normal_4kmM4_01_bil] and
    [prism_tmean_us_25m_202001_avg_30y]. *)
Definition two_digits (n : nat) : string :=
  String (ascii_of_nat (48 + n / 10)) (String (ascii_of_nat (48 + n mod 10)) EmptyString).

Definition old_format_name (var : variable) (month : nat) : string :=
  ("PRISM_" ++ var_name var ++ "_30yr_normal_4kmM4_" ++ two_digits month ++ "_bil")%string.

Definition new_format_name (var : variable) (month : nat) : string :=
  ("prism_" ++ var_name var ++ "_us_25m_2020" ++ two_digits month ++ "_avg_30y")%string.

(** The entries the scans of app.py and sundex_v2.py read on: no ['800m'] in
    the lowered name. *)
Definition not_800m (e : Catalog.entry) : bool :=
  negb (Catalog.contains "800m" (Catalog.lower (Catalog.e_name e))).

(** *** sundex_v2.py, [create_map]: the winter averages of the raw data *)

Module SundexV2Map.

(** [arrays = [monthly_data[var][m] for m in WINTER_MONTHS.keys()
               if m in monthly_data[var]]] and its mean, for one variable. *)
Definition winter_avg_var (md : monthly_data) (winter_avg : averages_t) (var : variable)
  : result averages_t :=
  let arrays := month_arrays (md var) (map fst WINTER_MONTHS) in
  match arrays with
  | [] => Ok winter_avg
  | _ :: _ =>
      avg ← nanmean_stack arrays;
      Ok (averages_set winter_avg var avg)
  end.

Definition winter_avg (md : monthly_data) : result averages_t :=
  for_each (winter_avg_var md) [Soltrans; Ppt; Tmean; Tdmean] no_averages.

End SundexV2Map.

(** The files of one variable, in the order of the months given. *)
Definition opened_months (month_files : gmap nat string) (months : list nat)
  : list string :=
  flat_map (fun month => match month_files !! month with
                         | Some filepath => [filepath]
                         | None => []
                         end) months.

(** The files a run over [vars] and [months] opens, in the order it opens
    them. *)
Definition opened_in (file_paths : Catalog.paths_t) (vars : list variable)
    (months : list nat) : list string :=
  flat_map (fun var => opened_months (file_paths var) months) vars.

(** The state of the loop of [compute_winter_averages] over the variables:
    once a first raster is loaded, and before. *)
Definition averages_aligned (st : Sundex.averages_state) (t : affine) (c : string)
    (sh : shape) : Prop :=
  Sundex.av_transform st = Some t /\ Sundex.av_crs st = Some c /\
  Sundex.av_target_shape st = Some sh /\
  forall var avg, Sundex.av_averages st var = Some avg -> gshape avg = sh.

Definition averages_fresh (st : Sundex.averages_state) : Prop :=
  Sundex.av_transform st = None /\ Sundex.av_crs st = None /\
  Sundex.av_target_shape st = None /\
  forall var, Sundex.av_averages st var = None.

(** The loop of [load_monthly_data] (sundex_v2.py) for one variable, over a
    list of months. *)
Definition load_var_over (fs : string -> raster) (file_paths : Catalog.paths_t)
    (months : list nat) (st : load_state) (var : variable) : load_state :=
  fold_left (SundexV2.load_month fs var (file_paths var)) months st.

(** An array that is 0-d or has the shape [sh]. *)
Definition scalar_or_shape (sh : shape) (a : ndarray) : Prop :=
  match a with
  | Arr0 _ => True
  | Arr2 g => gshape g = sh
  end.

(** Averages of one cell: solar transmittance 0.5, 120 mm of precipitation,
    a mean temperature of 4 C and a dew point of 1 C. *)
Definition one_cell_averages : averages_t :=
  fun var =>
    match var with
    | Soltrans => Some (one_cell (Fin 0.5))
    | Ppt => Some (one_cell (Fin 120))
    | Tmean => Some (one_cell (Fin 4))
    | Tdmean => Some (one_cell (Fin 1))
    end.

(** The same cell with more sun, less precipitation and a lower dew point. *)
Definition one_cell_averages_drier : averages_t :=
  fun var =>
    match var with
    | Soltrans => Some (one_cell (Fin 0.6))
    | Ppt => Some (one_cell (Fin 60))
    | Tmean => Some (one_cell (Fin 4))
    | Tdmean => Some (one_cell (Fin 0))
    end.

(** * Properties *)

(** ** Broadcasting *)

Lemma binto_bidx n m i : binto n m = true -> bidx n (bidx m i) = bidx n i.
Proof.
  unfold binto, bidx. intros H.
  destruct (Nat.eqb_spec n 1) as [->|Hn]; [reflexivity|].
  rewrite orb_false_r in H. apply Nat.eqb_eq in H. subst m.
  destruct (Nat.eqb_spec n 1); [contradiction|reflexivity].
Qed.

Lemma bdim_binto a b r : bdim a b = Some r -> binto a r = true /\ binto b r = true.
Proof.
  unfold bdim, binto. intros H.
  destruct (Nat.eqb_spec a b); [|destruct (Nat.eqb_spec a 1); [|destruct (Nat.eqb_spec b 1)]];
    try discriminate; injection H as <-; subst;
    split; apply orb_true_iff; rewrite !Nat.eqb_eq; auto.
Qed.

Lemma bdim_same n : bdim n n = Some n.
Proof. unfold bdim. now rewrite Nat.eqb_refl. Qed.

Lemma binto_refl n : binto n n = true.
Proof. unfold binto. now rewrite Nat.eqb_refl. Qed.

Lemma gmul_bcell a b c i j :
  gmul a b = Ok c -> bcell c i j = smul (bcell a i j) (bcell b i j).
Proof.
  unfold gmul. intros H.
  destruct (bdim (nrows a) (nrows b)) as [r|] eqn:Hr; [|discriminate].
  destruct (bdim (ncols a) (ncols b)) as [k|] eqn:Hc; [|discriminate].
  injection H as <-. unfold bcell at 1. simpl.
  apply bdim_binto in Hr as [Hra Hrb]. apply bdim_binto in Hc as [Hca Hcb].
  unfold bcell. now rewrite !binto_bidx.
Qed.

Lemma iadd_at a g a' i j :
  iadd a g = Ok a' -> at_ a' i j = sadd (at_ a i j) (bcell g i j).
Proof.
  unfold iadd. destruct a as [v|a]; [discriminate|].
  destruct (binto (nrows g) (nrows a) && binto (ncols g) (ncols a)); [|discriminate].
  intros H. injection H as <-. reflexivity.
Qed.

Lemma bcell_emap f g i j : bcell (emap f g) i j = f (bcell g i j).
Proof. reflexivity. Qed.

Lemma norm_cdf_arr_bcell erf x y i j :
  norm_cdf_arr erf x = Ok y -> bcell y i j = smap (norm_cdf erf) (bcell x i j).
Proof.
  unfold norm_cdf_arr. destruct (gsize x =? 0)%nat; [discriminate|].
  intros H. injection H as <-. reflexivity.
Qed.

(** ** Accumulation of one cell over the months *)

Lemma accum_nan l : accum l NaN = NaN.
Proof. induction l as [|a l IH]; [reflexivity|]. simpl. exact IH. Qed.

Lemma sadd_fin a b x : sadd a b = Fin x -> exists u v, a = Fin u /\ b = Fin v /\ x = u + v.
Proof. destruct a, b; simpl; try discriminate. intros H. injection H as <-. eauto. Qed.

Lemma accum_fin l v0 x : accum l v0 = Fin x -> exists u, v0 = Fin u.
Proof.
  destruct v0 as [|u]; [|eauto]. rewrite accum_nan. discriminate.
Qed.

Lemma accum_cons a l v0 : accum (a :: l) v0 = accum l (sadd v0 a).
Proof. reflexivity. Qed.

Lemma bind_ok {A B : Type} (m : result A) (k : A -> result B) (b : B) :
  (m ≫= k) = Ok b -> exists a, m = Ok a /\ k a = Ok b.
Proof. destruct m as [a|e]; [eauto|discriminate]. Qed.

Section EstimatorCells.

Variable erf : R -> R.
Variable none_is_scalar : bool.

Lemma calculate_good_days_body_cells md smin pmax tmin c s d month days c' s' d' i j :
  calculate_good_days_body erf md smin pmax tmin (c, s, d) (month, days) = Ok (c', s', d') ->
  match month_inputs md i j month with
  | Some spt =>
      at_ c' i j = sadd (at_ c i j) (app_combined erf smin pmax tmin days spt) /\
      at_ s' i j = sadd (at_ s i j) (app_solar erf smin days spt) /\
      at_ d' i j = sadd (at_ d i j) (app_dry pmax days spt)
  | None => c' = c /\ s' = s /\ d' = d
  end.
Proof.
  unfold calculate_good_days_body, month_inputs.
  destruct (dict_get (md Soltrans) month) as [gs|];
    [destruct (dict_get (md Ppt) month) as [gp|];
     [destruct (dict_get (md Tmean) month) as [gt|]|]|];
    try (intros H; injection H as <- <- <-; auto).
  intros H.
  apply bind_ok in H as (cdf & Ecdf & H).
  apply bind_ok in H as (gsolar & Esolar & H).
  apply bind_ok in H as (gdry & Edry & H).
  apply bind_ok in H as (cdft & Ecdft & H).
  apply bind_ok in H as (sd & Esd & H).
  apply bind_ok in H as (fc & Efc & H).
  apply bind_ok in H as (gcomb & Ecomb & H).
  injection H as <- <- <-.
  rewrite (iadd_at _ _ _ i j Ecomb), (iadd_at _ _ _ i j Esolar), (iadd_at _ _ _ i j Edry).
  rewrite !bcell_emap, (gmul_bcell _ _ _ i j Efc), (gmul_bcell _ _ _ i j Esd), !bcell_emap.
  rewrite (norm_cdf_arr_bcell _ _ _ i j Ecdf), (norm_cdf_arr_bcell _ _ _ i j Ecdft),
    !bcell_emap.
  auto.
Qed.

Lemma smap_smap f g s : smap f (smap g s) = smap (fun x => f (g x)) s.
Proof. destruct s; reflexivity. Qed.

Lemma estimate_good_days_body_cells md th acc month days acc' i j :
  estimate_good_days_body erf md th acc (month, days) = Ok acc' ->
  match month_inputs md i j month with
  | Some spt =>
      at_ (good_days_combined acc') i j
        = sadd (at_ (good_days_combined acc) i j) (v2_combined erf th days spt) /\
      at_ (good_days_solar acc') i j
        = sadd (at_ (good_days_solar acc) i j) (v2_solar erf th days spt) /\
      at_ (good_days_dry acc') i j
        = sadd (at_ (good_days_dry acc) i j) (v2_dry days spt) /\
      at_ (good_days_temp acc') i j
        = sadd (at_ (good_days_temp acc) i j) (v2_temp erf th days spt)
  | None => acc' = acc
  end.
Proof.
  unfold estimate_good_days_body, month_inputs.
  destruct (dict_get (md Soltrans) month) as [gs|];
    [destruct (dict_get (md Ppt) month) as [gp|];
     [destruct (dict_get (md Tmean) month) as [gt|]|]|];
    try (intros H; injection H as <-; auto).
  intros H.
  apply bind_ok in H as (cdf & Ecdf & H).
  apply bind_ok in H as (gsolar & Esolar & H).
  apply bind_ok in H as (gdry & Edry & H).
  apply bind_ok in H as (cdft & Ecdft & H).
  apply bind_ok in H as (gtemp & Etemp & H).
  apply bind_ok in H as (sd & Esd & H).
  apply bind_ok in H as (fc & Efc & H).
  apply bind_ok in H as (gcomb & Ecomb & H).
  injection H as <-. simpl.
  rewrite (iadd_at _ _ _ i j Ecomb), (iadd_at _ _ _ i j Esolar),
    (iadd_at _ _ _ i j Edry), (iadd_at _ _ _ i j Etemp).
  rewrite !bcell_emap, (gmul_bcell _ _ _ i j Efc), (gmul_bcell _ _ _ i j Esd), !bcell_emap.
  rewrite (norm_cdf_arr_bcell _ _ _ i j Ecdf), (norm_cdf_arr_bcell _ _ _ i j Ecdft),
    !bcell_emap.
  unfold v2_combined, v2_solar, v2_dry, v2_temp, warm_frac. simpl.
  rewrite (smap_smap (fun f => clip f 0.1 1.0) (fun p => 1 - p)).
  auto.
Qed.

(** *** The accumulators after the loop, cell by cell *)

Lemma accum_app l1 l2 v : accum (l1 ++ l2) v = accum l2 (accum l1 v).
Proof. apply fold_left_app. Qed.

Lemma contributions_cons md i j f it months :
  contributions md i j f (it :: months)
  = match month_inputs md i j (fst it) with
    | Some spt => f (snd it) spt :: contributions md i j f months
    | None => contributions md i j f months
    end.
Proof.
  unfold contributions. simpl. destruct (month_inputs md i j (fst it)); reflexivity.
Qed.

Lemma calculate_good_days_loop_cells md smin pmax tmin months :
  forall c0 s0 d0 c s d i j,
  for_each (calculate_good_days_body erf md smin pmax tmin) months (c0, s0, d0)
    = Ok (c, s, d) ->
  at_ c i j = accum (contributions md i j (app_combined erf smin pmax tmin) months) (at_ c0 i j) /\
  at_ s i j = accum (contributions md i j (app_solar erf smin) months) (at_ s0 i j) /\
  at_ d i j = accum (contributions md i j (app_dry pmax) months) (at_ d0 i j).
Proof.
  induction months as [|[month days] months IH]; intros c0 s0 d0 c s d i j H.
  - simpl in H. injection H as <- <- <-. auto.
  - simpl in H. apply bind_ok in H as ([[c1 s1] d1] & Hbody & H).
    apply (calculate_good_days_body_cells _ _ _ _ _ _ _ _ _ _ _ _ i j) in Hbody.
    specialize (IH _ _ _ _ _ _ i j H) as (Hc & Hs & Hd).
    rewrite !contributions_cons. simpl fst; simpl snd.
    destruct (month_inputs md i j month) as [spt|].
    + destruct Hbody as (Hc1 & Hs1 & Hd1). rewrite !accum_cons, <- Hc1, <- Hs1, <- Hd1. auto.
    + destruct Hbody as (-> & -> & ->). auto.
Qed.

Lemma at_np_zeros sh a i j : np_zeros none_is_scalar sh = Ok a -> at_ a i j = Fin 0.
Proof.
  destruct sh as [sh|]; simpl.
  - intros H. now injection H as <-.
  - destruct none_is_scalar; [|discriminate]. intros H. now injection H as <-.
Qed.

Lemma calculate_good_days_cells months md smin pmax tmin c s d i j :
  calculate_good_days_over erf none_is_scalar months md smin pmax tmin = Ok (c, s, d) ->
  at_ c i j = accum (contributions md i j (app_combined erf smin pmax tmin) months) (Fin 0) /\
  at_ s i j = accum (contributions md i j (app_solar erf smin) months) (Fin 0) /\
  at_ d i j = accum (contributions md i j (app_dry pmax) months) (Fin 0).
Proof.
  unfold calculate_good_days_over. intros H.
  apply bind_ok in H as (c0 & Hc0 & H).
  apply bind_ok in H as (s0 & Hs0 & H).
  apply bind_ok in H as (d0 & Hd0 & H).
  apply (calculate_good_days_loop_cells _ _ _ _ _ _ _ _ _ _ _ i j) in H.
  now rewrite (at_np_zeros _ _ i j Hc0), (at_np_zeros _ _ i j Hs0),
    (at_np_zeros _ _ i j Hd0) in H.
Qed.

Lemma estimate_good_days_loop_cells md th months :
  forall acc0 acc i j,
  for_each (estimate_good_days_body erf md th) months acc0 = Ok acc ->
  at_ (good_days_combined acc) i j
    = accum (contributions md i j (v2_combined erf th) months) (at_ (good_days_combined acc0) i j) /\
  at_ (good_days_solar acc) i j
    = accum (contributions md i j (v2_solar erf th) months) (at_ (good_days_solar acc0) i j) /\
  at_ (good_days_dry acc) i j
    = accum (contributions md i j v2_dry months) (at_ (good_days_dry acc0) i j) /\
  at_ (good_days_temp acc) i j
    = accum (contributions md i j (v2_temp erf th) months) (at_ (good_days_temp acc0) i j).
Proof.
  induction months as [|[month days] months IH]; intros acc0 acc i j H.
  - simpl in H. injection H as <-. auto.
  - simpl in H. apply bind_ok in H as (acc1 & Hbody & H).
    apply (estimate_good_days_body_cells _ _ _ _ _ _ i j) in Hbody.
    specialize (IH _ _ i j H) as (Hc & Hs & Hd & Ht).
    rewrite !contributions_cons. simpl fst; simpl snd.
    destruct (month_inputs md i j month) as [spt|].
    + destruct Hbody as (Hc1 & Hs1 & Hd1 & Ht1).
      rewrite !accum_cons, <- Hc1, <- Hs1, <- Hd1, <- Ht1. auto.
    + subst acc1. auto.
Qed.

Lemma estimate_good_days_cells months md th r i j :
  estimate_good_days_over erf none_is_scalar months md th = Ok r ->
  at_ (good_days r) i j = accum (contributions md i j (v2_combined erf th) months) (Fin 0) /\
  at_ (r_good_days_solar r) i j = accum (contributions md i j (v2_solar erf th) months) (Fin 0) /\
  at_ (r_good_days_dry r) i j = accum (contributions md i j v2_dry months) (Fin 0) /\
  at_ (r_good_days_temp r) i j = accum (contributions md i j (v2_temp erf th) months) (Fin 0) /\
  total_days r = sum_days months.
Proof.
  unfold estimate_good_days_over. intros H.
  apply bind_ok in H as (s0 & Hs0 & H).
  apply bind_ok in H as (d0 & Hd0 & H).
  apply bind_ok in H as (t0 & Ht0 & H).
  apply bind_ok in H as (c0 & Hc0 & H).
  apply bind_ok in H as (acc & Hloop & H). injection H as <-. simpl.
  apply (estimate_good_days_loop_cells _ _ _ _ _ i j) in Hloop.
  simpl in Hloop.
  rewrite (at_np_zeros _ _ i j Hc0), (at_np_zeros _ _ i j Hs0),
    (at_np_zeros _ _ i j Hd0), (at_np_zeros _ _ i j Ht0) in Hloop. tauto.
Qed.

End EstimatorCells.

Lemma clip_bounds x lo hi : lo <= hi -> lo <= clip x lo hi <= hi.
Proof.
  intros H. unfold clip, Rmin, Rmax.
  destruct (Rle_dec x lo); destruct (Rle_dec _ hi); lra.
Qed.

Lemma smap_fin f s y : smap f s = Fin y -> exists x, s = Fin x /\ y = f x.
Proof. destruct s; simpl; [discriminate|]. intros H. injection H as <-. eauto. Qed.

Lemma smul_fin a b x : smul a b = Fin x -> exists u v, a = Fin u /\ b = Fin v /\ x = u * v.
Proof. destruct a, b; simpl; try discriminate. intros H. injection H as <-. eauto. Qed.

Lemma dry_frac_bounds divisor floor days p x :
  floor <= 0.95 -> dry_frac divisor floor days p = Fin x -> floor <= x <= 0.95.
Proof.
  intros Hf H. unfold dry_frac in H. rewrite smap_smap in H.
  apply smap_fin in H as (y & _ & ->). now apply clip_bounds.
Qed.

Lemma in_days_fin days f x :
  in_days days f = Fin x -> exists u, f = Fin u /\ x = u * INR days.
Proof. apply smap_fin. Qed.

Lemma combined_frac_fin fs fd fw x :
  combined_frac fs fd fw = Fin x ->
  exists a b c, fs = Fin a /\ fd = Fin b /\ fw = Fin c /\ x = a * b * c.
Proof.
  unfold combined_frac. intros H.
  apply smul_fin in H as (u & c & Hu & -> & ->).
  apply smul_fin in Hu as (a & b & -> & -> & ->). eauto 8.
Qed.

(** A cell whose every contribution lies within its month's days. *)
Lemma accum_contributions_bounds md i j f :
  (forall days spt x, f days spt = Fin x -> 0 <= x <= INR days) ->
  forall months u x,
  accum (contributions md i j f months) (Fin u) = Fin x ->
  u <= x <= u + INR (sum_days months).
Proof.
  intros Hf. induction months as [|[month days] months IH]; intros u x Hx.
  - simpl in Hx. injection Hx as <-. simpl. lra.
  - rewrite contributions_cons in Hx. simpl fst in Hx; simpl snd in Hx.
    unfold sum_days. simpl fold_right. fold (sum_days months). rewrite plus_INR.
    pose proof (pos_INR days) as Hd.
    destruct (month_inputs md i j month) as [spt|].
    + rewrite accum_cons in Hx.
      destruct (accum_fin _ _ _ Hx) as [w Hw].
      apply sadd_fin in Hw as Hw'. destruct Hw' as (u' & v & Hu' & Hv & ->).
      injection Hu' as <-. rewrite Hw in Hx. apply IH in Hx.
      specialize (Hf _ _ _ Hv). lra.
    + apply IH in Hx. lra.
Qed.

(** Two accumulators side by side, the first dominated month by month. *)
Lemma accum_contributions_le md i j f g :
  (forall days spt x, f days spt = Fin x -> exists y, g days spt = Fin y /\ x <= y) ->
  forall months u v x, u <= v ->
  accum (contributions md i j f months) (Fin u) = Fin x ->
  exists y, accum (contributions md i j g months) (Fin v) = Fin y /\ x <= y.
Proof.
  intros Hfg. induction months as [|[month days] months IH]; intros u v x Huv Hx.
  - simpl in *. injection Hx as <-. eauto.
  - rewrite contributions_cons in *. simpl fst in *; simpl snd in *.
    destruct (month_inputs md i j month) as [spt|].
    + rewrite accum_cons in *.
      destruct (accum_fin _ _ _ Hx) as [w Hw].
      apply sadd_fin in Hw as Hw'. destruct Hw' as (u' & a & Hu' & Ha & ->).
      injection Hu' as <-. destruct (Hfg _ _ _ Ha) as (b & Hb & Hab).
      rewrite Ha in Hx. rewrite Hb. simpl sadd in *.
      eapply IH; [|exact Hx]. lra.
    + eapply IH; eassumption.
Qed.

Section EstimatorBounds.

Variable erf : R -> R.
Hypothesis erf_range : forall x, -1 <= erf x <= 1.

Lemma norm_cdf_range x : 0 <= norm_cdf erf x <= 1.
Proof. unfold norm_cdf. pose proof (erf_range (x / sqrt 2)). lra. Qed.

Lemma solar_frac_bounds smin s x : solar_frac erf smin s = Fin x -> 0 <= x <= 1.
Proof.
  unfold solar_frac. rewrite !smap_smap. intros H.
  apply smap_fin in H as (y & _ & ->).
  pose proof (norm_cdf_range ((smin - y) / 0.12)). lra.
Qed.

Lemma warm_frac_bounds tmin t x : warm_frac erf tmin t = Fin x -> 0.1 <= x <= 1.
Proof.
  unfold warm_frac. rewrite !smap_smap. intros H.
  apply smap_fin in H as (y & _ & ->).
  pose proof (clip_bounds (1 - norm_cdf erf ((tmin - y) / 5)) 0.1 1.0). lra.
Qed.

(** The combined contribution of a month, against the per-criterion ones. *)
Lemma combined_days_fin smin divisor floor tmin days spt x :
  0 <= floor <= 0.95 ->
  in_days days
    (combined_frac (solar_frac erf smin (fst (fst spt)))
       (dry_frac divisor floor days (snd (fst spt)))
       (warm_frac erf tmin (snd spt))) = Fin x ->
  exists a b c,
    solar_frac erf smin (fst (fst spt)) = Fin a /\
    dry_frac divisor floor days (snd (fst spt)) = Fin b /\
    warm_frac erf tmin (snd spt) = Fin c /\
    0 <= a <= 1 /\ 0 <= b <= 1 /\ 0 <= c <= 1 /\ x = a * b * c * INR days.
Proof.
  intros Hfl H. apply in_days_fin in H as (u & Hu & ->).
  apply combined_frac_fin in Hu as (a & b & c & Ha & Hb & Hc & ->).
  exists a, b, c. repeat split; try assumption; try reflexivity.
  - now apply solar_frac_bounds in Ha.
  - now apply solar_frac_bounds in Ha.
  - apply dry_frac_bounds in Hb; lra.
  - apply dry_frac_bounds in Hb; lra.
  - apply warm_frac_bounds in Hc; lra.
  - apply warm_frac_bounds in Hc; lra.
Qed.

End EstimatorBounds.

Lemma product_le_factor a b c d :
  0 <= a <= 1 -> 0 <= b <= 1 -> 0 <= c <= 1 -> 0 <= d ->
  0 <= a * b * c * d /\ a * b * c * d <= a * d /\ a * b * c * d <= b * d
  /\ a * b * c * d <= c * d /\ a * b * c * d <= d.
Proof.
  intros Ha Hb Hc Hd.
  assert (0 <= a * d <= d) by nra.
  assert (0 <= b * d <= d) by nra.
  assert (0 <= c * d <= d) by nra.
  assert (0 <= b * c <= 1) by nra.
  assert (0 <= a * c <= 1) by nra.
  assert (0 <= a * b <= 1) by nra.
  repeat split.
  - replace (a * b * c * d) with ((a * d) * (b * c)) by ring. nra.
  - replace (a * b * c * d) with ((a * d) * (b * c)) by ring. nra.
  - replace (a * b * c * d) with ((b * d) * (a * c)) by ring. nra.
  - replace (a * b * c * d) with ((c * d) * (a * b)) by ring. nra.
  - replace (a * b * c * d) with ((a * d) * (b * c)) by ring. nra.
Qed.

Section EstimatorProperties.

Variable erf : R -> R.
Hypothesis erf_range : forall x, -1 <= erf x <= 1.
Variable none_is_scalar : bool.

Lemma app_combined_month smin pmax tmin days spt x :
  app_combined erf smin pmax tmin days spt = Fin x ->
  0 <= x <= INR days /\
  (exists y, app_solar erf smin days spt = Fin y /\ x <= y) /\
  (exists y, app_dry pmax days spt = Fin y /\ x <= y).
Proof.
  intros H. apply (combined_days_fin erf erf_range) in H; [|lra].
  destruct H as (a & b & c & Ha & Hb & Hc & Ra & Rb & Rc & ->).
  pose proof (product_le_factor a b c (INR days) Ra Rb Rc (pos_INR days)) as (? & ? & ? & ? & ?).
  unfold app_solar, app_dry. rewrite Ha, Hb. simpl.
  repeat split; try lra; eexists; (split; [reflexivity|lra]).
Qed.

Lemma v2_combined_month th days spt x :
  v2_combined erf th days spt = Fin x ->
  0 <= x <= INR days /\
  (exists y, v2_solar erf th days spt = Fin y /\ x <= y) /\
  (exists y, v2_dry days spt = Fin y /\ x <= y) /\
  (exists y, v2_temp erf th days spt = Fin y /\ x <= y).
Proof.
  intros H. apply (combined_days_fin erf erf_range) in H; [|lra].
  destruct H as (a & b & c & Ha & Hb & Hc & Ra & Rb & Rc & ->).
  pose proof (product_le_factor a b c (INR days) Ra Rb Rc (pos_INR days)) as (? & ? & ? & ? & ?).
  unfold v2_solar, v2_dry, v2_temp. rewrite Ha, Hb, Hc. simpl.
  repeat split; try lra; eexists; (split; [reflexivity|lra]).
Qed.

(** C1. For thresholds with [solar_min] in [0, 1] and [precip_max > 0] and for
    every table of months, each non-missing cell of the combined good-days
    grid lies between 0 and the total number of days of the table, in
    [calculate_good_days] (app.py) and in [estimate_good_days_from_monthly]
    (sundex_v2.py). *)
Theorem combined_good_days_within_period :
  forall (months : list (nat * nat)) (md : monthly_data) (th : thresholds),
  0 <= solar_min th <= 1 -> 0 < precip_max th ->
  (forall c s d,
     calculate_good_days_over erf none_is_scalar months md (solar_min th) (precip_max th) (temp_min th)
       = Ok (c, s, d) ->
     forall i j x, at_ c i j = Fin x -> 0 <= x <= INR (sum_days months)) /\
  (forall r,
     estimate_good_days_over erf none_is_scalar months md th = Ok r ->
     forall i j x, at_ (good_days r) i j = Fin x -> 0 <= x <= INR (total_days r)).
Proof.
  intros months md th _ _. split.
  - intros c s d Hrun i j x Hx.
    destruct (calculate_good_days_cells erf _ _ _ _ _ _ _ _ _ i j Hrun) as (Hc & _).
    rewrite Hc in Hx. apply accum_contributions_bounds in Hx; [lra|].
    intros days spt y Hy. now apply app_combined_month in Hy.
  - intros r Hrun i j x Hx.
    destruct (estimate_good_days_cells erf _ _ _ _ _ i j Hrun) as (Hc & _ & _ & _ & ->).
    rewrite Hc in Hx. apply accum_contributions_bounds in Hx; [lra|].
    intros days spt y Hy. now apply v2_combined_month in Hy.
Qed.

(** C10. At every cell where the combined count is not missing, each
    per-criterion count is not missing either and is at least the combined
    count: solar-only and dry-only in app.py, and temperature-only as well in
    sundex_v2.py. *)
Theorem combined_le_each_criterion :
  forall (months : list (nat * nat)) (md : monthly_data) (th : thresholds),
  (forall c s d,
     calculate_good_days_over erf none_is_scalar months md (solar_min th) (precip_max th) (temp_min th)
       = Ok (c, s, d) ->
     forall i j x, at_ c i j = Fin x ->
       (exists y, at_ s i j = Fin y /\ x <= y) /\
       (exists y, at_ d i j = Fin y /\ x <= y)) /\
  (forall r,
     estimate_good_days_over erf none_is_scalar months md th = Ok r ->
     forall i j x, at_ (good_days r) i j = Fin x ->
       (exists y, at_ (r_good_days_solar r) i j = Fin y /\ x <= y) /\
       (exists y, at_ (r_good_days_dry r) i j = Fin y /\ x <= y) /\
       (exists y, at_ (r_good_days_temp r) i j = Fin y /\ x <= y)).
Proof.
  intros months md th. split.
  - intros c s d Hrun i j x Hx.
    destruct (calculate_good_days_cells erf _ _ _ _ _ _ _ _ _ i j Hrun) as (Hc & Hs & Hd).
    rewrite Hc in Hx. rewrite Hs, Hd. split.
    + eapply accum_contributions_le; [|apply Rle_refl|exact Hx].
      intros days spt y Hy. now apply app_combined_month in Hy.
    + eapply accum_contributions_le; [|apply Rle_refl|exact Hx].
      intros days spt y Hy. now apply app_combined_month in Hy.
  - intros r Hrun i j x Hx.
    destruct (estimate_good_days_cells erf _ _ _ _ _ i j Hrun) as (Hc & Hs & Hd & Ht & _).
    rewrite Hc in Hx. rewrite Hs, Hd, Ht. repeat split.
    + eapply accum_contributions_le; [|apply Rle_refl|exact Hx].
      intros days spt y Hy. now apply v2_combined_month in Hy.
    + eapply accum_contributions_le; [|apply Rle_refl|exact Hx].
      intros days spt y Hy. now apply v2_combined_month in Hy.
    + eapply accum_contributions_le; [|apply Rle_refl|exact Hx].
      intros days spt y Hy. now apply v2_combined_month in Hy.
Qed.

End EstimatorProperties.

(** ** The estimators return *)

Lemma shape_eq_inv g sh : gshape g = sh -> nrows g = fst sh /\ ncols g = snd sh.
Proof. intros <-. auto. Qed.

Lemma iadd_same_shape a g sh :
  has_shape a sh -> gshape g = sh -> exists a', iadd a g = Ok a' /\ has_shape a' sh.
Proof.
  intros (ga & -> & Ha) Hg. unfold iadd.
  apply shape_eq_inv in Ha as [Har Hac]. apply shape_eq_inv in Hg as [Hgr Hgc].
  assert (Hb : binto (nrows g) (nrows ga) && binto (ncols g) (ncols ga) = true).
  { rewrite Hgr, Hgc, Har, Hac, !binto_refl. reflexivity. }
  rewrite Hb. eexists. split; [reflexivity|]. eexists. split; [reflexivity|].
  unfold gshape. simpl. rewrite Har, Hac. now destruct sh.
Qed.

Lemma gmul_same_shape a b sh :
  gshape a = sh -> gshape b = sh -> exists c, gmul a b = Ok c /\ gshape c = sh.
Proof.
  intros Ha Hb. unfold gmul.
  apply shape_eq_inv in Ha as [Har Hac]. apply shape_eq_inv in Hb as [Hbr Hbc].
  assert (Hr : bdim (nrows a) (nrows b) = Some (fst sh)) by (rewrite Har, Hbr; apply bdim_same).
  assert (Hc : bdim (ncols a) (ncols b) = Some (snd sh)) by (rewrite Hac, Hbc; apply bdim_same).
  rewrite Hr, Hc. eexists. split; [reflexivity|]. now destruct sh.
Qed.

Lemma norm_cdf_arr_nonempty erf x sh :
  gshape x = sh -> (0 < fst sh * snd sh)%nat ->
  exists y, norm_cdf_arr erf x = Ok y /\ gshape y = sh.
Proof.
  intros Hx Hne. unfold norm_cdf_arr, gsize.
  apply shape_eq_inv in Hx as Hx'. destruct Hx' as [Hr Hc].
  assert (Hz : (nrows x * ncols x =? 0)%nat = false).
  { rewrite Hr, Hc. apply Nat.eqb_neq. lia. }
  rewrite Hz. eexists. split; [reflexivity|]. exact Hx.
Qed.

Lemma gshape_emap f g : gshape (emap f g) = gshape g.
Proof. reflexivity. Qed.

Lemma first_shape_uniform md sh sh' :
  uniform_shape md sh -> first_shape (md_values md) = Some sh' -> sh' = sh.
Proof.
  intros Hu. unfold md_values.
  induction all_vars as [|v vars IH]; simpl; [discriminate|].
  destruct (md v) as [|[k arr] rest] eqn:Hd; simpl; [exact IH|].
  intros H. injection H as <-. apply (Hu v k). rewrite Hd. simpl.
  now rewrite Nat.eqb_refl.
Qed.

Lemma first_shape_none md var :
  first_shape (md_values md) = None -> md var = [].
Proof.
  unfold md_values, all_vars. simpl.
  destruct (md Ppt) eqn:E1; [|discriminate].
  destruct (md Soltrans) eqn:E2; [|discriminate].
  destruct (md Tmean) eqn:E3; [|discriminate].
  destruct (md Tdmean) eqn:E4; [|discriminate].
  intros _. now destruct var.
Qed.

Lemma for_each_cons {A S : Type} (body : S -> A -> result S) x xs st :
  for_each body (x :: xs) st = body st x ≫= (fun st' => for_each body xs st').
Proof. reflexivity. Qed.

Lemma np_zeros_some b sh : np_zeros b (Some sh) = Ok (zeros sh).
Proof. reflexivity. Qed.

Lemma has_shape_zeros sh : has_shape (zeros sh) sh.
Proof. destruct sh as [r c]. eexists. split; reflexivity. Qed.

Section Returns.

Variable erf : R -> R.
Variable none_is_scalar : bool.
Variable md : monthly_data.
Variable sh : shape.
Hypothesis md_uniform : uniform_shape md sh.
Hypothesis sh_nonempty : (0 < fst sh * snd sh)%nat.
Hypothesis zeros_ok : none_is_scalar = true \/ first_shape (md_values md) <> None.

Ltac step_ok tac name :=
  let v := fresh name in
  let E := fresh "E" name in
  let S := fresh "S" name in
  destruct tac as (v & E & S); rewrite E; simpl.

Lemma calculate_good_days_body_returns smin pmax tmin c s d it :
  has_shape c sh -> has_shape s sh -> has_shape d sh ->
  exists c' s' d',
    calculate_good_days_body erf md smin pmax tmin (c, s, d) it = Ok (c', s', d') /\
    has_shape c' sh /\ has_shape s' sh /\ has_shape d' sh.
Proof.
  intros Hc Hs Hd. destruct it as [month days]. unfold calculate_good_days_body.
  destruct (dict_get (md Soltrans) month) as [gs|] eqn:Es; [|eauto 10].
  destruct (dict_get (md Ppt) month) as [gp|] eqn:Ep; [|eauto 10].
  destruct (dict_get (md Tmean) month) as [gt|] eqn:Et; [|eauto 10].
  apply md_uniform in Es, Ep, Et.
  unfold mbind, result_bind.
  step_ok (norm_cdf_arr_nonempty erf
             (emap (smap (fun x => (smin - x) / 0.12)) gs) sh Es sh_nonempty) cdf.
  step_ok (iadd_same_shape s
             (emap (smap (fun f => f * INR days)) (emap (smap (fun p => 1 - p)) cdf)) sh
             Hs Scdf) s1.
  step_ok (iadd_same_shape d
             (emap (smap (fun f => f * INR days))
                (emap (smap (fun d => clip (0.95 - d / (pmax * 6)) 0.10 0.95))
                   (emap (smap (fun x => x / INR days)) gp))) sh Hd Ep) d1.
  step_ok (norm_cdf_arr_nonempty erf
             (emap (smap (fun x => (tmin - x) / 5)) gt) sh Et sh_nonempty) cdft.
  step_ok (gmul_same_shape (emap (smap (fun p => 1 - p)) cdf)
             (emap (smap (fun d => clip (0.95 - d / (pmax * 6)) 0.10 0.95))
                (emap (smap (fun x => x / INR days)) gp)) sh Scdf Ep) sd.
  step_ok (gmul_same_shape sd
             (emap (smap (fun p => clip (1 - p) 0.1 1.0)) cdft) sh Ssd Scdft) fc.
  step_ok (iadd_same_shape c (emap (smap (fun f => f * INR days)) fc) sh Hc Sfc) c1.
  eauto 10.
Qed.

Lemma calculate_good_days_loop_returns smin pmax tmin months :
  forall c s d, has_shape c sh -> has_shape s sh -> has_shape d sh ->
  returns (for_each (calculate_good_days_body erf md smin pmax tmin) months (c, s, d)).
Proof.
  induction months as [|it months IH]; intros c s d Hc Hs Hd.
  - simpl. eexists. reflexivity.
  - rewrite for_each_cons.
    destruct (calculate_good_days_body_returns smin pmax tmin c s d it Hc Hs Hd)
      as (c' & s' & d' & -> & Hc' & Hs' & Hd').
    simpl. now apply IH.
Qed.

Lemma skipped_when_empty month :
  first_shape (md_values md) = None ->
  dict_get (md Soltrans) month = None.
Proof. intros H. now rewrite (first_shape_none md Soltrans H). Qed.

Lemma calculate_good_days_body_skip smin pmax tmin acc month days :
  dict_get (md Soltrans) month = None ->
  calculate_good_days_body erf md smin pmax tmin acc (month, days) = Ok acc.
Proof.
  intros H. destruct acc as [[c s] d]. unfold calculate_good_days_body.
  now rewrite H.
Qed.

Lemma estimate_good_days_body_skip th acc month days :
  dict_get (md Soltrans) month = None ->
  estimate_good_days_body erf md th acc (month, days) = Ok acc.
Proof.
  intros H. unfold estimate_good_days_body. now rewrite H.
Qed.

Lemma calculate_good_days_loop_empty smin pmax tmin months acc :
  first_shape (md_values md) = None ->
  for_each (calculate_good_days_body erf md smin pmax tmin) months acc = Ok acc.
Proof.
  intros Hnone. induction months as [|[month days] months IH]; [reflexivity|].
  rewrite for_each_cons, calculate_good_days_body_skip
    by (now apply skipped_when_empty).
  exact IH.
Qed.

Lemma calculate_good_days_returns months smin pmax tmin :
  returns (calculate_good_days_over erf none_is_scalar months md smin pmax tmin).
Proof.
  unfold calculate_good_days_over.
  destruct (first_shape (md_values md)) as [sh'|] eqn:Hfs.
  - apply (first_shape_uniform md sh sh' md_uniform) in Hfs. subst sh'.
    rewrite np_zeros_some. cbn [mbind result_bind].
    apply calculate_good_days_loop_returns; apply has_shape_zeros.
  - destruct zeros_ok as [->|Hsome]; [|contradiction].
    cbn [np_zeros mbind result_bind].
    rewrite calculate_good_days_loop_empty by assumption. eexists. reflexivity.
Qed.

Lemma estimate_good_days_body_returns th acc it :
  v2_has_shape sh acc ->
  exists acc', estimate_good_days_body erf md th acc it = Ok acc' /\ v2_has_shape sh acc'.
Proof.
  intros (Hs & Hd & Ht & Hc). destruct it as [month days].
  unfold estimate_good_days_body.
  destruct (dict_get (md Soltrans) month) as [gs|] eqn:Es;
    [|exists acc; unfold v2_has_shape; auto].
  destruct (dict_get (md Ppt) month) as [gp|] eqn:Ep;
    [|exists acc; unfold v2_has_shape; auto].
  destruct (dict_get (md Tmean) month) as [gt|] eqn:Et;
    [|exists acc; unfold v2_has_shape; auto].
  apply md_uniform in Es, Ep, Et.
  unfold mbind, result_bind.
  step_ok (norm_cdf_arr_nonempty erf
             (emap (smap (fun x => (solar_min th - x) / 0.12)) gs) sh Es sh_nonempty) cdf.
  step_ok (iadd_same_shape (good_days_solar acc)
             (emap (smap (fun f => f * INR days)) (emap (smap (fun p => 1 - p)) cdf)) sh
             Hs Scdf) s1.
  step_ok (iadd_same_shape (good_days_dry acc)
             (emap (smap (fun f => f * INR days))
                (emap (smap (fun d => clip (0.95 - d / 15) 0.15 0.95))
                   (emap (smap (fun x => x / INR days)) gp))) sh Hd Ep) d1.
  step_ok (norm_cdf_arr_nonempty erf
             (emap (smap (fun x => (temp_min th - x) / 5)) gt) sh Et sh_nonempty) cdft.
  step_ok (iadd_same_shape (good_days_temp acc)
             (emap (smap (fun f => f * INR days))
                (emap (smap (fun f => clip f 0.1 1.0)) (emap (smap (fun p => 1 - p)) cdft)))
             sh Ht Scdft) t1.
  step_ok (gmul_same_shape (emap (smap (fun p => 1 - p)) cdf)
             (emap (smap (fun d => clip (0.95 - d / 15) 0.15 0.95))
                (emap (smap (fun x => x / INR days)) gp)) sh Scdf Ep) sd.
  step_ok (gmul_same_shape sd
             (emap (smap (fun f => clip f 0.1 1.0)) (emap (smap (fun p => 1 - p)) cdft))
             sh Ssd Scdft) fc.
  step_ok (iadd_same_shape (good_days_combined acc)
             (emap (smap (fun f => f * INR days)) fc) sh Hc Sfc) c1.
  eexists. split; [reflexivity|]. unfold v2_has_shape. simpl. auto.
Qed.

Lemma estimate_good_days_loop_returns th months :
  forall acc, v2_has_shape sh acc ->
  returns (for_each (estimate_good_days_body erf md th) months acc).
Proof.
  induction months as [|it months IH]; intros acc Hacc.
  - simpl. eexists. reflexivity.
  - rewrite for_each_cons.
    destruct (estimate_good_days_body_returns th acc it Hacc) as (acc' & -> & Hacc').
    simpl. now apply IH.
Qed.

Lemma estimate_good_days_loop_empty th months acc :
  first_shape (md_values md) = None ->
  for_each (estimate_good_days_body erf md th) months acc = Ok acc.
Proof.
  intros Hnone. induction months as [|[month days] months IH]; [reflexivity|].
  rewrite for_each_cons, estimate_good_days_body_skip
    by (now apply skipped_when_empty).
  exact IH.
Qed.

Lemma estimate_good_days_returns months th :
  returns (estimate_good_days_over erf none_is_scalar months md th).
Proof.
  unfold estimate_good_days_over.
  destruct (first_shape (md_values md)) as [sh'|] eqn:Hfs.
  - apply (first_shape_uniform md sh sh' md_uniform) in Hfs. subst sh'.
    rewrite np_zeros_some. cbn [mbind result_bind].
    destruct (estimate_good_days_loop_returns th months
                (mkv2 (zeros sh) (zeros sh) (zeros sh) (zeros sh) [])) as [acc ->].
    + unfold v2_has_shape. simpl. repeat split; apply has_shape_zeros.
    + simpl. eexists. reflexivity.
  - destruct zeros_ok as [->|Hsome]; [|contradiction].
    cbn [np_zeros mbind result_bind].
    rewrite estimate_good_days_loop_empty by assumption. simpl. eexists. reflexivity.
Qed.

End Returns.

(** With something loaded (or a NumPy that still takes [None] for [()]),
    grids of one shape and at least one cell, the estimators return, whatever
    variables and months are present. *)
Lemma estimators_return :
  forall (erf : R -> R) (none_is_scalar : bool) (months : list (nat * nat))
         (md : monthly_data) (th : thresholds) (sh : shape),
  uniform_shape md sh -> (0 < fst sh * snd sh)%nat ->
  none_is_scalar = true \/ first_shape (md_values md) <> None ->
  returns (calculate_good_days_over erf none_is_scalar months md
             (solar_min th) (precip_max th) (temp_min th))
  /\ returns (estimate_good_days_over erf none_is_scalar months md th).
Proof.
  intros erf none_is_scalar months md th sh Hu Hne Hz. split.
  - now apply (calculate_good_days_returns erf none_is_scalar md sh).
  - now apply (estimate_good_days_returns erf none_is_scalar md sh).
Qed.

(** C8, the estimators on two inputs they can be given.  With nothing loaded
    the shape stays [None] and [np.zeros(None)] is a [TypeError] (NumPy 2.3 and
    later; before, the result is 0-d arrays, not grids).  With windows of
    size 0, [np.vectorize] raises a [ValueError] in [norm_cdf]. *)
Theorem estimator_raises_without_data :
  forall (erf : R -> R) (th : thresholds),
  calculate_good_days erf false md_empty (solar_min th) (precip_max th) (temp_min th)
    = Raise TypeError /\
  estimate_good_days_from_monthly erf false md_empty th = Raise TypeError /\
  calculate_good_days erf true md_empty (solar_min th) (precip_max th) (temp_min th)
    = Ok (Arr0 (Fin 0), Arr0 (Fin 0), Arr0 (Fin 0)) /\
  (forall none_is_scalar : bool,
     calculate_good_days erf none_is_scalar empty_window_md
       (solar_min th) (precip_max th) (temp_min th) = Raise ValueError /\
     estimate_good_days_from_monthly erf none_is_scalar empty_window_md th
       = Raise ValueError).
Proof.
  intros erf th. repeat split.
Qed.

(** ** Loading: one reference shape and transform *)

Lemma dict_get_set {V : Type} (d : pydict V) k v k' :
  dict_get (dict_set d k v) k' = if (k =? k')%nat then Some v else dict_get d k'.
Proof.
  induction d as [|[k0 v0] d IH]; simpl.
  - reflexivity.
  - destruct (Nat.eqb_spec k0 k) as [->|Hk]; simpl.
    + destruct (Nat.eqb_spec k k'); reflexivity.
    + rewrite IH. destruct (Nat.eqb_spec k0 k') as [->|Hk'].
      * destruct (Nat.eqb_spec k k'); [congruence|reflexivity].
      * reflexivity.
Qed.

Lemma shape_eqb_eq a b : shape_eqb a b = true <-> a = b.
Proof.
  destruct a as [r c], b as [r' c']. unfold shape_eqb. simpl.
  rewrite andb_true_iff, !Nat.eqb_eq. split; [intros [-> ->]; reflexivity|].
  intros H. injection H as -> ->. auto.
Qed.

Lemma gshape_crop_pad ts data : gshape (crop_pad ts data) = ts.
Proof. now destruct ts. Qed.

Lemma gshape_mask_nodata nodata data : gshape (mask_nodata nodata data) = gshape data.
Proof. reflexivity. Qed.

Lemma gshape_conform ts data : gshape (conform ts data) = ts.
Proof.
  unfold conform. destruct (shape_eqb (gshape data) ts) eqn:E; simpl.
  - now apply shape_eqb_eq.
  - apply gshape_crop_pad.
Qed.

Lemma uniform_md_set md sh var month data :
  uniform_shape md sh -> gshape data = sh -> uniform_shape (md_set md var month data) sh.
Proof.
  intros Hu Hd v m g. unfold md_set.
  destruct (decide (v = var)) as [->|Hv]; [|apply Hu].
  rewrite dict_get_set. destruct (month =? m)%nat; [|apply Hu].
  intros H. now injection H as <-.
Qed.

Lemma uniform_md_empty sh : uniform_shape md_empty sh.
Proof. intros v m g. discriminate. Qed.

Lemma fold_left_flat_map {A B S : Type} (f : S -> B -> S) (g : A -> list B) l s :
  fold_left f (flat_map g l) s = fold_left (fun s a => fold_left f (g a) s) l s.
Proof.
  revert s. induction l as [|a l IH]; intros s; simpl; [reflexivity|].
  now rewrite fold_left_app, IH.
Qed.

Lemma fold_left_map {A B S : Type} (f : S -> B -> S) (g : A -> B) l s :
  fold_left f (map g l) s = fold_left (fun s a => f s (g a)) l s.
Proof. revert s. induction l as [|a l IH]; intros s; simpl; [reflexivity|apply IH]. Qed.

Lemma fold_left_pointwise {A S : Type} (f g : S -> A -> S) l :
  (forall s a, f s a = g s a) -> forall s, fold_left f l s = fold_left g l s.
Proof.
  intros H. induction l as [|a l IH]; intros s; simpl; [reflexivity|].
  now rewrite H, IH.
Qed.

Module SundexV2Facts.
Import SundexV2.

Lemma v2_load_monthly_data_steps fs file_paths :
  load_monthly_data fs file_paths
  = fold_left (load_step fs file_paths) load_order (mkload md_empty None None None).
Proof.
  unfold load_monthly_data, load_order. rewrite fold_left_flat_map.
  apply fold_left_pointwise. intros st var. unfold load_var. now rewrite fold_left_map.
Qed.

Lemma v2_load_step_aligned fs file_paths st vm t sh :
  aligned_to st t sh -> aligned_to (load_step fs file_paths st vm) t sh.
Proof.
  intros (Ht & Hs & Hu). unfold load_step, load_month.
  destruct (file_paths (fst vm) !! snd vm) as [filepath|]; [|now repeat split].
  unfold load_raster_wa. rewrite Hs, Ht. simpl.
  repeat split; try assumption.
  apply uniform_md_set; [assumption|]. apply gshape_conform.
Qed.

Lemma v2_load_steps_aligned fs file_paths order : forall st t sh,
  aligned_to st t sh ->
  aligned_to (fold_left (load_step fs file_paths) order st) t sh.
Proof.
  induction order as [|vm order IH]; intros st t sh H; [exact H|].
  simpl. apply IH. now apply v2_load_step_aligned.
Qed.

Lemma v2_load_steps_first fs file_paths order : forall st,
  nothing_loaded st ->
  match opened_files file_paths order with
  | [] => nothing_loaded (fold_left (load_step fs file_paths) order st)
  | first :: _ =>
      aligned_to (fold_left (load_step fs file_paths) order st)
        (window_transform (fs first)) (gshape (window_data (fs first)))
  end.
Proof.
  induction order as [|vm order IH]; intros st Hst; [exact Hst|].
  simpl. destruct (file_paths (fst vm) !! snd vm) as [filepath|] eqn:E; simpl.
  - apply v2_load_steps_aligned. destruct Hst as (Ht & Hs & Hu & He).
    unfold load_step, load_month. rewrite E. unfold load_raster_wa.
    rewrite Hs, Ht. simpl. repeat split.
    apply uniform_md_set; [|reflexivity].
    intros v m g. rewrite He. discriminate.
  - replace (load_step fs file_paths st vm) with st; [now apply IH|].
    unfold load_step, load_month. now rewrite E.
Qed.

End SundexV2Facts.

Lemma sundex_v2_reference fs file_paths :
  match opened_files file_paths load_order with
  | [] => nothing_loaded (SundexV2.load_monthly_data fs file_paths)
  | first :: _ =>
      aligned_to (SundexV2.load_monthly_data fs file_paths)
        (window_transform (fs first)) (gshape (window_data (fs first)))
  end.
Proof.
  rewrite SundexV2Facts.v2_load_monthly_data_steps.
  apply SundexV2Facts.v2_load_steps_first.
  repeat split. apply uniform_md_empty.
Qed.

Module AppFacts.
Import App.

Lemma app_load_monthly_data_steps listing fs :
  load_monthly_data listing fs
  = fold_left (load_step fs (Catalog.get_file_paths listing)) load_order
      (mkload md_empty None None None).
Proof.
  unfold load_monthly_data, load_order. rewrite fold_left_flat_map.
  apply fold_left_pointwise. intros st var. unfold load_var. now rewrite fold_left_map.
Qed.

Lemma app_load_step_aligned fs file_paths st vm t sh :
  aligned_to st t sh -> aligned_to (load_step fs file_paths st vm) t sh.
Proof.
  intros (Ht & Hs & Hu). unfold load_step, load_month.
  destruct (file_paths (fst vm) !! snd vm) as [filepath|]; [|now repeat split].
  rewrite Ht, Hs. simpl.
  repeat split; try assumption.
  apply uniform_md_set; [assumption|]. apply gshape_conform.
Qed.

Lemma app_load_steps_aligned fs file_paths order : forall st t sh,
  aligned_to st t sh ->
  aligned_to (fold_left (load_step fs file_paths) order st) t sh.
Proof.
  induction order as [|vm order IH]; intros st t sh H; [exact H|].
  simpl. apply IH. now apply app_load_step_aligned.
Qed.

Lemma app_load_steps_first fs file_paths order : forall st,
  nothing_loaded st ->
  match opened_files file_paths order with
  | [] => nothing_loaded (fold_left (load_step fs file_paths) order st)
  | first :: _ =>
      aligned_to (fold_left (load_step fs file_paths) order st)
        (window_transform (fs first)) (gshape (window_data (fs first)))
  end.
Proof.
  induction order as [|vm order IH]; intros st Hst; [exact Hst|].
  simpl. destruct (file_paths (fst vm) !! snd vm) as [filepath|] eqn:E; simpl.
  - apply app_load_steps_aligned. destruct Hst as (Ht & Hs & Hu & He).
    unfold load_step, load_month. rewrite E, Ht. simpl. repeat split.
    apply uniform_md_set; [|apply gshape_conform].
    intros v m g. rewrite He. discriminate.
  - replace (load_step fs file_paths st vm) with st; [now apply IH|].
    unfold load_step, load_month. now rewrite E.
Qed.

End AppFacts.

Lemma app_reference listing fs :
  match opened_files (Catalog.get_file_paths listing) load_order with
  | [] => nothing_loaded (App.load_monthly_data listing fs)
  | first :: _ =>
      aligned_to (App.load_monthly_data listing fs)
        (window_transform (fs first)) (gshape (window_data (fs first)))
  end.
Proof.
  rewrite AppFacts.app_load_monthly_data_steps.
  apply AppFacts.app_load_steps_first.
  repeat split. apply uniform_md_empty.
Qed.

(** What either loader leaves is of one shape. *)
Lemma loaded_uniform st t sh : aligned_to st t sh -> uniform_shape (ls_data st) sh.
Proof. now intros (_ & _ & H). Qed.

(** *** build_webapp.py: one reference shape per variable *)

Module BuildWebappFacts.
Import BuildWebapp.

Lemma load_months fs month_files months : forall arrays t,
  fold_left (load_month fs month_files) months (arrays, t)
  = (arrays ++ map (masked fs)
               (flat_map (fun month => match month_files !! month with
                                       | Some filepath => [filepath]
                                       | None => []
                                       end) months),
     first_transform fs t
       (flat_map (fun month => match month_files !! month with
                               | Some filepath => [filepath]
                               | None => []
                               end) months)).
Proof.
  induction months as [|month months IH]; intros arrays t; simpl.
  - rewrite app_nil_r. now destruct t.
  - destruct (month_files !! month) as [filepath|]; simpl.
    + rewrite IH, <- app_assoc. simpl. now destruct t.
    + apply IH.
Qed.

Lemma load_var_eq fs file_paths averages t var :
  load_var fs file_paths (averages, t) var
  = (match var_average fs file_paths var with
     | Some avg => averages ++ [(var, avg)]
     | None => averages
     end,
     first_transform fs t (opened (file_paths var))).
Proof.
  unfold load_var. rewrite load_months, app_nil_l.
  change (flat_map _ (map fst WINTER_MONTHS)) with (opened (file_paths var)).
  fold (var_average fs file_paths var).
  now destruct (var_average fs file_paths var).
Qed.

Lemma load_vars fs file_paths vars : forall averages t,
  fst (fold_left (load_var fs file_paths) vars (averages, t))
  = averages ++ flat_map (fun var => match var_average fs file_paths var with
                                     | Some avg => [(var, avg)]
                                     | None => []
                                     end) vars.
Proof.
  induction vars as [|var vars IH]; intros averages t.
  - simpl. now rewrite app_nil_r.
  - cbn [fold_left flat_map]. rewrite load_var_eq, IH.
    destruct (var_average fs file_paths var) as [avg|].
    + now rewrite <- app_assoc.
    + reflexivity.
Qed.

Lemma average_aligned_shape first rest avg :
  average_aligned (first :: rest) = Some avg -> gshape avg = gshape first.
Proof. simpl. intros H. injection H as <-. reflexivity. Qed.

(** Each variable's average takes the shape of that variable's own first
    file, whatever the first file of the run was. *)
Lemma var_average_shape fs file_paths var first rest :
  opened (file_paths var) = first :: rest ->
  exists avg, var_average fs file_paths var = Some avg /\
              gshape avg = gshape (window_data (fs first)).
Proof.
  intros H. unfold var_average. rewrite H. simpl map.
  eexists. split; [reflexivity|reflexivity].
Qed.

End BuildWebappFacts.

Lemma two_shapes_opened :
  BuildWebapp.opened (Catalog.get_file_paths two_shapes_listing Ppt) = [ppt_10_path] /\
  BuildWebapp.opened (Catalog.get_file_paths two_shapes_listing Soltrans)
    = [soltrans_10_path] /\
  BuildWebapp.opened (Catalog.get_file_paths two_shapes_listing Tmean) = [] /\
  BuildWebapp.opened (Catalog.get_file_paths two_shapes_listing Tdmean) = [].
Proof. repeat split; vm_compute; reflexivity. Qed.

(** C5, the run of [load_and_average_data] (build_webapp.py) on a catalog whose
    precipitation window is 1 x 1 and whose solar window is 2 x 2: the two
    averages it returns keep different shapes, the second one not conformed to
    the first raster loaded. *)
Theorem build_webapp_shapes_differ :
  exists a b,
    fst (BuildWebapp.load_and_average_data two_shapes_listing two_shapes_fs)
      = [(Ppt, a); (Soltrans, b)] /\
    gshape a = (1%nat, 1%nat) /\ gshape b = (2%nat, 2%nat).
Proof.
  unfold BuildWebapp.load_and_average_data.
  rewrite BuildWebappFacts.load_vars. unfold all_vars. cbn [flat_map app].
  destruct two_shapes_opened as (Hp & Hs & Ht & Hd).
  destruct (BuildWebappFacts.var_average_shape two_shapes_fs _ Ppt _ _ Hp) as (a & -> & Ha).
  destruct (BuildWebappFacts.var_average_shape two_shapes_fs _ Soltrans _ _ Hs) as (b & -> & Hb).
  unfold BuildWebapp.var_average at 1 2. rewrite Ht, Hd. cbn [map BuildWebapp.average_aligned app].
  exists a, b. split; [reflexivity|]. split; assumption.
Qed.

(** ** Nodata *)

Lemma float_eqb_fin x y : float_eqb (Fin x) (Fin y) = true <-> x = y.
Proof.
  simpl. destruct (Req_dec_T x y); split; intros; congruence.
Qed.

Lemma float_eqb_refl_fin x : float_eqb (Fin x) (Fin x) = true.
Proof. now apply float_eqb_fin. Qed.

Lemma float_eqb_neq x y : x <> y -> float_eqb (Fin x) (Fin y) = false.
Proof. intros H. simpl. destruct (Req_dec_T x y); [contradiction|reflexivity]. Qed.

(** A declared nodata value other than zero is the one used, and so is the
    default when none is declared. *)
Lemma chosen_nodata_declared src v :
  src_nodata src = Some v -> float_truthy v = true -> chosen_nodata src = v.
Proof. unfold chosen_nodata. now intros -> ->. Qed.

Lemma chosen_nodata_absent src :
  src_nodata src = None -> chosen_nodata src = Fin (-9999).
Proof. unfold chosen_nodata. now intros ->. Qed.

(** A declared nodata of zero is dropped for the default. *)
Lemma chosen_nodata_zero src :
  src_nodata src = Some (Fin 0) -> chosen_nodata src = Fin (-9999).
Proof.
  unfold chosen_nodata. intros ->. simpl.
  destruct (Req_dec_T 0 0); [reflexivity|contradiction].
Qed.

(** Masking turns the samples equal to the chosen value into NaN and leaves
    every other sample as it is. *)
Lemma mask_nodata_cell nodata data i j :
  cell (mask_nodata nodata data) i j
  = if float_eqb (cell data i j) nodata then NaN else cell data i j.
Proof. reflexivity. Qed.

(** C7, [load_raster_wa] on a file that declares the nodata value 0: the
    samples equal to 0 are kept and the sample -9999 becomes NaN, the declared
    value being dropped for the default. *)
Theorem declared_zero_nodata_ignored :
  let data := fst (fst (SundexV2.load_raster_wa (fun _ => zero_nodata_raster) "f.bil" None)) in
  chosen_nodata zero_nodata_raster = Fin (-9999) /\
  cell data 0 0 = Fin 0 /\ cell data 0 1 = Fin 5 /\ cell data 0 2 = NaN.
Proof.
  assert (Hn : chosen_nodata zero_nodata_raster = Fin (-9999))
    by now apply chosen_nodata_zero.
  split; [exact Hn|].
  unfold SundexV2.load_raster_wa. cbn [fst]. rewrite Hn.
  rewrite !mask_nodata_cell. cbn [cell window_data zero_nodata_raster].
  rewrite float_eqb_refl_fin, !float_eqb_neq by lra. auto.
Qed.

(** ** The catalog scan *)

Module CatalogFacts.
Import Catalog.

Lemma paths_set_same paths var month file :
  paths_set paths var month file var !! month = Some file.
Proof.
  unfold paths_set. destruct (decide (var = var)); [|contradiction].
  apply lookup_insert_eq.
Qed.

Lemma paths_set_other paths var month file var' month' :
  (var', month') <> (var, month) ->
  paths_set paths var month file var' !! month' = paths var' !! month'.
Proof.
  intros H. unfold paths_set. destruct (decide (var' = var)) as [->|Hv]; [|reflexivity].
  apply lookup_insert_ne. congruence.
Qed.

Lemma get_file_paths_item_other paths e var month :
  ~ discovers e var month ->
  get_file_paths_item paths e var !! month = paths var !! month.
Proof.
  intros H. unfold get_file_paths_item.
  destruct (classify e) as [[[v m] f]|] eqn:E; [|reflexivity].
  apply paths_set_other. intros Heq. injection Heq as -> ->.
  apply H. now exists f.
Qed.

Lemma scan_rest_keeps rest var month : forall paths,
  (forall e, In e rest -> ~ discovers e var month) ->
  fold_left get_file_paths_item rest paths var !! month = paths var !! month.
Proof.
  induction rest as [|e rest IH]; intros paths H; [reflexivity|].
  simpl. rewrite IH by (intros e' He'; apply H; now right).
  apply get_file_paths_item_other. apply H. now left.
Qed.

Lemma find_raster_file_first dir e pre f post :
  e_isdir e = true -> e_files e = pre ++ f :: post ->
  raster_ext f = true -> (forall g, In g pre -> raster_ext g = false) ->
  find_raster_file dir e = Some (path_join dir f).
Proof.
  intros Hd Hf Hext Hpre. unfold find_raster_file. rewrite Hd, Hf. simpl negb. cbv iota.
  assert (Hfind : List.find (fun f => endswith f ".bil" || endswith f ".tif") (pre ++ f :: post)
                  = Some f).
  { clear Hf. induction pre as [|g pre IH]; simpl.
    - unfold raster_ext in Hext. now rewrite Hext.
    - pose proof (Hpre g (or_introl eq_refl)) as Hg. unfold raster_ext in Hg. rewrite Hg.
      apply IH. intros g' Hg'. apply Hpre. now right. }
  now rewrite Hfind.
Qed.

End CatalogFacts.

(** C6 as stated fails: of two directories that qualify for precipitation in
    January, the scan keeps the file of the second one. *)
Lemma first_discovery_does_not_win :
  ~ (forall (before : list Catalog.entry) (e : Catalog.entry) (after : list Catalog.entry)
            (var : variable) (month : nat) (file : string),
       Catalog.classify e = Some (var, month, file) ->
       (forall e', In e' before -> ~ Catalog.discovers e' var month) ->
       Catalog.get_file_paths (before ++ e :: after) var !! month = Some file).
Proof.
  intros H.
  specialize (H [] (Catalog.mkentry "PRISM_ppt_30yr_normal_4kmM4_01_bil" true ["first.bil"])
                [Catalog.mkentry "PRISM_ppt_30yr_normal_4kmM3_01_bil" true ["second.bil"]]
                Ppt 1%nat
                "Data/prism_normals/PRISM_ppt_30yr_normal_4kmM4_01_bil/first.bil"
                eq_refl (fun e' He' => match He' with end)).
  vm_compute in H. discriminate H.
Qed.

(** C6, amended. A (variable, month) pair has at most one file, the one of the
    last directory of the scan that qualifies for the pair; inside a directory
    the first file with a raster extension is the one taken. *)
Theorem last_discovery_wins :
  (forall (before : list Catalog.entry) (e : Catalog.entry) (after : list Catalog.entry)
          (var : variable) (month : nat) (file : string),
     Catalog.classify e = Some (var, month, file) ->
     (forall e', In e' after -> ~ Catalog.discovers e' var month) ->
     Catalog.get_file_paths (before ++ e :: after) var !! month = Some file) /\
  (forall (listing : list Catalog.entry) (var : variable) (month : nat),
     (forall e, In e listing -> ~ Catalog.discovers e var month) ->
     Catalog.get_file_paths listing var !! month = None) /\
  (forall (dir : string) (e : Catalog.entry) (pre : list string) (f : string)
          (post : list string),
     Catalog.e_isdir e = true -> Catalog.e_files e = pre ++ f :: post ->
     Catalog.raster_ext f = true ->
     (forall g, In g pre -> Catalog.raster_ext g = false) ->
     Catalog.find_raster_file dir e = Some (Catalog.path_join dir f)).
Proof.
  split; [|split].
  - intros before e after var month file Hc Hafter.
    unfold Catalog.get_file_paths.
    rewrite fold_left_app. cbn [fold_left].
    rewrite CatalogFacts.scan_rest_keeps by assumption.
    unfold Catalog.get_file_paths_item. rewrite Hc.
    apply CatalogFacts.paths_set_same.
  - intros listing var month H. unfold Catalog.get_file_paths.
    now rewrite CatalogFacts.scan_rest_keeps.
  - apply CatalogFacts.find_raster_file_first.
Qed.

Local Open Scope nat_scope.

(** ** The block downsampler *)

Module DownsampleFacts.
Import BuildWebapp.

Lemma downsample_cell_set arr factor result i j :
  downsample_cell arr factor result i j = grid_set result i j (cell_value arr factor i j).
Proof.
  unfold downsample_cell, cell_value.
  now destruct (0 <? length (valid_samples (block arr factor i j))).
Qed.

Lemma cell_value_nanmean arr factor i j :
  cell_value arr factor i j = nanmean_cell (block arr factor i j).
Proof.
  unfold cell_value, nanmean_cell.
  now destruct (valid_samples (block arr factor i j)).
Qed.

Lemma existsb_seq k n : existsb (Nat.eqb k) (seq 0 n) = (k <? n).
Proof.
  destruct (Nat.ltb_spec k n) as [H|H].
  - apply existsb_exists. exists k. rewrite in_seq, Nat.eqb_refl. split; [lia|reflexivity].
  - apply not_true_is_false. intros He. apply existsb_exists in He as (x & Hx & Heq).
    apply in_seq in Hx. apply Nat.eqb_eq in Heq. lia.
Qed.

Lemma row_loop arr factor i js : forall result,
  let result' :=
    fold_left (fun result j => downsample_cell arr factor result i j) js result in
  gshape result' = gshape result /\
  forall i' j', cell result' i' j'
    = if (i' =? i) && existsb (Nat.eqb j') js
      then cell_value arr factor i j' else cell result i' j'.
Proof.
  induction js as [|j js IH]; intros result; cbn [fold_left].
  - split; [reflexivity|]. intros i' j'. now rewrite andb_false_r.
  - rewrite downsample_cell_set.
    destruct (IH (grid_set result i j (cell_value arr factor i j))) as [Hs Hc].
    split; [now rewrite Hs|]. intros i' j'. rewrite Hc. cbn [existsb cell grid_set].
    destruct (Nat.eqb_spec i' i) as [->|Hi]; cbn [andb]; [|reflexivity].
    destruct (existsb (Nat.eqb j') js); [now rewrite orb_true_r|].
    rewrite orb_false_r. destruct (Nat.eqb_spec j' j) as [->|Hj]; reflexivity.
Qed.

Lemma rows_loop arr factor js rows : forall result,
  let result' :=
    fold_left
      (fun result i => fold_left (fun result j => downsample_cell arr factor result i j)
                         js result) rows result in
  gshape result' = gshape result /\
  forall i' j', cell result' i' j'
    = if existsb (Nat.eqb i') rows && existsb (Nat.eqb j') js
      then cell_value arr factor i' j' else cell result i' j'.
Proof.
  induction rows as [|i rows IH]; intros result; cbn [fold_left].
  - split; [reflexivity|]. intros i' j'. reflexivity.
  - destruct (row_loop arr factor i js result) as [Hs1 Hc1].
    destruct (IH (fold_left (fun result j => downsample_cell arr factor result i j) js result))
      as [Hs Hc].
    split; [now rewrite Hs|]. intros i' j'. rewrite Hc, Hc1. cbn [existsb].
    destruct (existsb (Nat.eqb i') rows); cbn [andb orb].
    + rewrite orb_true_r. cbn [andb]. destruct (existsb (Nat.eqb j') js); [reflexivity|].
      now rewrite andb_false_r.
    + rewrite orb_false_r. destruct (Nat.eqb_spec i' i) as [->|Hi]; reflexivity.
Qed.

Lemma seq_offset a n : seq a n = map (fun d => a + d) (seq 0 n).
Proof.
  revert a. induction n as [|n IH]; intros a; [reflexivity|].
  cbn [seq map]. rewrite Nat.add_0_r. f_equal.
  rewrite (IH (S a)), (IH 1), map_map. apply map_ext. intros d. lia.
Qed.

Lemma slice_complete k factor n :
  (k + 1) * factor <= n -> slice (k * factor) ((k + 1) * factor) n
                           = map (fun d => k * factor + d) (seq 0 factor).
Proof.
  intros H. unfold slice. rewrite Nat.min_l by assumption.
  replace ((k + 1) * factor - k * factor) with factor by lia.
  apply seq_offset.
Qed.

Lemma complete_block k factor n : 0 < factor -> k < n / factor -> (k + 1) * factor <= n.
Proof.
  intros Hf Hk. pose proof (Nat.Div0.mul_div_le n factor) as H.
  assert ((k + 1) * factor <= factor * (n / factor)) by nia. lia.
Qed.

(** Inside the output, the slices of the source are complete blocks. *)
Lemma block_complete arr factor i j :
  0 < factor -> i < nrows arr / factor -> j < ncols arr / factor ->
  block arr factor i j = block_at arr factor i j.
Proof.
  intros Hf Hi Hj. unfold block, block_at.
  rewrite (slice_complete i factor (nrows arr)) by now apply complete_block.
  rewrite (slice_complete j factor (ncols arr)) by now apply complete_block.
  rewrite flat_map_concat_map, map_map, <- flat_map_concat_map.
  apply flat_map_ext. intros di. now rewrite map_map.
Qed.

Lemma downsample_cells arr factor :
  0 < factor ->
  exists result,
    downsample arr factor = Ok result /\
    nrows result = nrows arr / factor /\
    ncols result = ncols arr / factor /\
    forall i j, i < nrows result -> j < ncols result ->
      cell result i j = nanmean_cell (block_at arr factor i j).
Proof.
  intros Hf. unfold downsample.
  destruct (Nat.eqb_spec factor 0) as [E|_]; [lia|].
  eexists. split; [reflexivity|].
  match goal with
  | |- context [fold_left ?f ?rows ?init] =>
      destruct (rows_loop arr factor (seq 0 (ncols arr / factor)) rows init) as [Hs Hc]
  end.
  cbv zeta in Hs, Hc. injection Hs as Hr Hcn. cbn [nrows ncols] in Hr, Hcn.
  rewrite Hr, Hcn. split; [reflexivity|]. split; [reflexivity|].
  intros i j Hi Hj. rewrite Hc, !existsb_seq.
  destruct (Nat.ltb_spec i (nrows arr / factor)); [|lia].
  destruct (Nat.ltb_spec j (ncols arr / factor)); [|lia].
  cbn [andb]. rewrite cell_value_nanmean. now rewrite block_complete.
Qed.

Lemma block_at_agree arr arr' factor i j :
  (forall r c, r < (i + 1) * factor -> c < (j + 1) * factor -> cell arr' r c = cell arr r c) ->
  block_at arr' factor i j = block_at arr factor i j.
Proof.
  intros H. unfold block_at. rewrite !flat_map_concat_map. f_equal.
  apply map_ext_in. intros di Hdi.
  apply map_ext_in. intros dj Hdj. apply in_seq in Hdi, Hdj. apply H; nia.
Qed.

End DownsampleFacts.

(** C9. For a factor of at least 1, [downsample] returns a grid of
    [rows / factor] by [cols / factor] cells; each cell is the arithmetic mean
    of the non-missing samples of its [factor] x [factor] block, and missing
    when the block has none; the rows and columns after the last complete
    block have no effect on the result. *)
Theorem downsample_block_mean :
  forall (arr : grid) (factor : nat),
  1 <= factor ->
  exists result,
    BuildWebapp.downsample arr factor = Ok result /\
    nrows result = nrows arr / factor /\
    ncols result = ncols arr / factor /\
    (forall i j, i < nrows result -> j < ncols result ->
       cell result i j
       = match valid_samples (BuildWebapp.block_at arr factor i j) with
         | [] => NaN
         | x :: rest => Fin (Rsum (x :: rest) / INR (length (x :: rest)))
         end) /\
    (forall arr' result',
       gshape arr' = gshape arr ->
       (forall r c, r < nrows result * factor -> c < ncols result * factor ->
          cell arr' r c = cell arr r c) ->
       BuildWebapp.downsample arr' factor = Ok result' ->
       forall i j, i < nrows result -> j < ncols result ->
         cell result' i j = cell result i j).
Proof.
  intros arr factor Hf.
  destruct (DownsampleFacts.downsample_cells arr factor Hf) as (result & Hd & Hr & Hc & Hcell).
  exists result.
  split; [exact Hd|]. split; [exact Hr|]. split; [exact Hc|]. split.
  - intros i j Hi Hj. now rewrite Hcell.
  - intros arr' result' Hshape Hagree Hd' i j Hi Hj.
    destruct (DownsampleFacts.downsample_cells arr' factor Hf)
      as (result2 & Hd2 & Hr2 & Hc2 & Hcell2).
    rewrite Hd2 in Hd'. injection Hd' as <-.
    injection Hshape as Hsr Hsc.
    rewrite Hcell2 by (rewrite ?Hr2, ?Hc2, ?Hsr, ?Hsc, <- ?Hr, <- ?Hc; assumption).
    rewrite Hcell by assumption. f_equal.
    apply DownsampleFacts.block_at_agree. intros r c Hrr Hcc. apply Hagree; nia.
Qed.

Local Open Scope R_scope.

Module ErfFacts.
Import Erf.

Lemma erf_series_cv y : Un_cv (fun N => sum_f_R0 (tg_alt (erf_term y)) N) (erf_series y).
Proof.
  pose proof (proj2_sig (erf_series_exists y)) as H. fold (erf_series y) in H.
  intros eps Heps. destruct (H eps Heps) as [N HN]. exists N. intros n Hn.
  specialize (HN n Hn).
  erewrite sum_eq; [exact HN|].
  intros i _. unfold tg_alt, erf_term, erf_coeff. simpl. field.
  pose proof (erf_coeff_den_pos i). split; apply Rgt_not_eq.
  - apply lt_0_INR; lia.
  - apply INR_fact_lt_0.
Qed.

Lemma erf_term_decreasing y : 0 <= y <= 1 -> Un_decreasing (erf_term y).
Proof.
  intros [H0 H1] n. unfold erf_term.
  pose proof (erf_coeff_den_pos n) as Hd. pose proof (erf_coeff_den_pos (S n)) as Hd'.
  assert (Hp : 0 <= y ^ n) by now apply pow_le.
  apply Rmult_le_compat.
  - simpl. apply Rmult_le_pos; assumption.
  - left. now apply Rinv_0_lt_compat.
  - simpl. rewrite <- (Rmult_1_l (y ^ n)) at 2. apply Rmult_le_compat_r; assumption.
  - apply Rinv_le_contravar; [assumption|].
    apply Rmult_le_compat.
    + left; apply INR_fact_lt_0.
    + left; apply lt_0_INR; lia.
    + apply le_INR, fact_le. lia.
    + apply le_INR. lia.
Qed.

Lemma erf_term_cv_0 y : 0 <= y <= 1 -> Un_cv (erf_term y) 0.
Proof.
  intros [H0 H1] eps Heps.
  destruct (archimed_cor1 eps Heps) as [N [HN HN0]].
  exists N. intros n Hn. unfold Rdist. rewrite Rminus_0_r.
  unfold erf_term.
  pose proof (erf_coeff_den_pos n) as Hd.
  assert (Hp : 0 <= y ^ n) by now apply pow_le.
  assert (Hp1 : y ^ n <= 1) by (rewrite <- (pow1 n); apply pow_incr; lra).
  rewrite Rabs_pos_eq.
  2:{ apply Rmult_le_pos; [assumption|]. left. now apply Rinv_0_lt_compat. }
  eapply Rle_lt_trans; [|exact HN].
  rewrite <- (Rmult_1_l (/ INR N)).
  apply Rmult_le_compat; try assumption.
  - left. now apply Rinv_0_lt_compat.
  - apply Rinv_le_contravar; [apply lt_0_INR; lia|].
    rewrite <- (Rmult_1_l (INR N)).
    apply Rmult_le_compat; try lra.
    + apply pos_INR.
    + change 1 with (INR 1). apply le_INR. apply lt_O_fact.
    + apply le_INR. lia.
Qed.

Lemma erf_series_bounds y N : 0 <= y <= 1 ->
  sum_f_R0 (tg_alt (erf_term y)) (S (2 * N)) <= erf_series y
    <= sum_f_R0 (tg_alt (erf_term y)) (2 * N).
Proof.
  intros Hy. apply alternated_series_ineq.
  - now apply erf_term_decreasing.
  - now apply erf_term_cv_0.
  - apply erf_series_cv.
Qed.
Lemma PI_bounds : 3.1415 < PI < 3.1421.
Proof.
  pose proof (PI_2_3_7_ineq 1) as H.
  unfold PI_2_3_7_tg, tg_alt, Ratan_seq in H. simpl in H. lra.
Qed.

Lemma sqrt_2PI_bounds : 2.506 < sqrt PI * sqrt 2 < 2.507.
Proof.
  pose proof PI_bounds as [Hl Hu].
  rewrite <- sqrt_mult by lra.
  split.
  - rewrite <- (sqrt_square 2.506) by lra. apply sqrt_lt_1_alt. lra.
  - rewrite <- (sqrt_square 2.507) by lra. apply sqrt_lt_1_alt. lra.
Qed.

Lemma erf_series_25_72 : 0.8953 < erf_series (25/72) < 0.8964.
Proof.
  pose proof (erf_series_bounds (25/72) 1 ltac:(lra)) as H.
  unfold tg_alt, erf_term in H. simpl in H. lra.
Qed.

Lemma erf_clamped_range x : -1 <= erf_clamped x <= 1.
Proof.
  unfold erf_clamped, Rmax, Rmin.
  destruct (Rle_dec 1 (erf x)); destruct (Rle_dec (-1) _); lra.
Qed.

(** [1 - Phi(z)] at [z = (0.40 - 0.50) / 0.12]. *)
Lemma erf_scenario :
  0.7975 < 1 - norm_cdf erf ((0.40 - 0.50) / 0.12) < 0.7983.
Proof.
  unfold norm_cdf, erf.
  assert (H2 : sqrt 2 * sqrt 2 = 2) by (apply sqrt_sqrt; lra).
  assert (H2p : 0 < sqrt 2) by (apply sqrt_lt_R0; lra).
  assert (HPp : 0 < sqrt PI) by (apply sqrt_lt_R0, PI_RGT_0).
  replace ((0.40 - 0.50) / 0.12 / sqrt 2 * ((0.40 - 0.50) / 0.12 / sqrt 2)) with (25/72).
  2:{ replace ((0.40 - 0.50) / 0.12) with (- (5 / 6)) by lra.
      replace (- (5 / 6) / sqrt 2 * (- (5 / 6) / sqrt 2))
        with (25 / 36 / (sqrt 2 * sqrt 2)) by (field; lra).
      rewrite H2. lra. }
  pose proof erf_series_25_72 as [Sl Su].
  pose proof sqrt_2PI_bounds as [Ql Qu].
  set (S := erf_series (25/72)) in *.
  replace (1 - 0.5 * (1 + 2 / sqrt PI * ((0.40 - 0.50) / 0.12 / sqrt 2 * S)))
    with (0.5 * (1 + 5 / 3 * S / (sqrt PI * sqrt 2))) by (field_simplify_eq; lra).
  set (q := sqrt PI * sqrt 2) in *.
  assert (Hl : 0.595 < 5 / 3 * S / q).
  { apply Rmult_lt_reg_r with q; [lra|]. unfold Rdiv. rewrite Rmult_assoc, Rinv_l by lra. lra. }
  assert (Hu : 5 / 3 * S / q < 0.5965).
  { apply Rmult_lt_reg_r with q; [lra|]. unfold Rdiv. rewrite Rmult_assoc, Rinv_l by lra. lra. }
  lra.
Qed.

End ErfFacts.

Lemma january_uniform : uniform_shape january_md (1%nat, 1%nat).
Proof.
  intros var month g. destruct var; cbn [january_md dict_get]; try discriminate;
    destruct (1 =? month)%nat; try discriminate; intros H; now injection H as <-.
Qed.

Lemma january_loaded : first_shape (md_values january_md) <> None.
Proof. discriminate. Qed.

Lemma bidx_in_range n i : (i < n)%nat -> bidx n i = i.
Proof. unfold bidx. destruct (Nat.eqb_spec n 1); lia. Qed.

Lemma bcell_in_range g i j :
  (i < nrows g)%nat -> (j < ncols g)%nat -> bcell g i j = cell g i j.
Proof. intros Hi Hj. unfold bcell. now rewrite !bidx_in_range. Qed.

(** ** One more month in the table

    The accumulators returned for a table of months that ends with
    [(month, days)], against the ones returned for the table without it: the
    state of the loop after the month against its state before. *)

Lemma contributions_app md i j f months1 months2 :
  contributions md i j f (months1 ++ months2)
  = (contributions md i j f months1 ++ contributions md i j f months2)%list.
Proof. unfold contributions. apply flat_map_app. Qed.

Lemma accum_month md i j f months month days :
  accum (contributions md i j f (months ++ [(month, days)])) (Fin 0)
  = match month_inputs md i j month with
    | Some spt => sadd (accum (contributions md i j f months) (Fin 0)) (f days spt)
    | None => accum (contributions md i j f months) (Fin 0)
    end.
Proof.
  rewrite contributions_app, accum_app.
  unfold contributions at 1. cbn [flat_map fst snd]. rewrite app_nil_r.
  now destruct (month_inputs md i j month).
Qed.

Lemma calculate_good_days_month erf none_is_scalar months md smin pmax tmin month days
    c s d c' s' d' i j :
  calculate_good_days_over erf none_is_scalar months md smin pmax tmin = Ok (c, s, d) ->
  calculate_good_days_over erf none_is_scalar (months ++ [(month, days)]) md smin pmax tmin
    = Ok (c', s', d') ->
  match month_inputs md i j month with
  | Some spt =>
      at_ c' i j = sadd (at_ c i j) (app_combined erf smin pmax tmin days spt) /\
      at_ s' i j = sadd (at_ s i j) (app_solar erf smin days spt) /\
      at_ d' i j = sadd (at_ d i j) (app_dry pmax days spt)
  | None => at_ c' i j = at_ c i j /\ at_ s' i j = at_ s i j /\ at_ d' i j = at_ d i j
  end.
Proof.
  intros H H'.
  destruct (calculate_good_days_cells erf _ _ _ _ _ _ _ _ _ i j H) as (Hc & Hs & Hd).
  destruct (calculate_good_days_cells erf _ _ _ _ _ _ _ _ _ i j H') as (Hc' & Hs' & Hd').
  rewrite accum_month in Hc', Hs', Hd'. rewrite Hc, Hs, Hd.
  destruct (month_inputs md i j month); auto.
Qed.

Lemma estimate_good_days_month erf none_is_scalar months md th month days r r' i j :
  estimate_good_days_over erf none_is_scalar months md th = Ok r ->
  estimate_good_days_over erf none_is_scalar (months ++ [(month, days)]) md th = Ok r' ->
  match month_inputs md i j month with
  | Some spt =>
      at_ (good_days r') i j = sadd (at_ (good_days r) i j) (v2_combined erf th days spt) /\
      at_ (r_good_days_solar r') i j
        = sadd (at_ (r_good_days_solar r) i j) (v2_solar erf th days spt) /\
      at_ (r_good_days_dry r') i j = sadd (at_ (r_good_days_dry r) i j) (v2_dry days spt) /\
      at_ (r_good_days_temp r') i j
        = sadd (at_ (r_good_days_temp r) i j) (v2_temp erf th days spt)
  | None =>
      at_ (good_days r') i j = at_ (good_days r) i j /\
      at_ (r_good_days_solar r') i j = at_ (r_good_days_solar r) i j /\
      at_ (r_good_days_dry r') i j = at_ (r_good_days_dry r) i j /\
      at_ (r_good_days_temp r') i j = at_ (r_good_days_temp r) i j
  end.
Proof.
  intros H H'.
  destruct (estimate_good_days_cells erf _ _ _ _ _ i j H) as (Hc & Hs & Hd & Ht & _).
  destruct (estimate_good_days_cells erf _ _ _ _ _ i j H') as (Hc' & Hs' & Hd' & Ht' & _).
  rewrite accum_month in Hc', Hs', Hd', Ht'. rewrite Hc, Hs, Hd, Ht.
  destruct (month_inputs md i j month); auto.
Qed.

Lemma month_inputs_loaded md i j month gs gp gt :
  dict_get (md Soltrans) month = Some gs ->
  dict_get (md Ppt) month = Some gp ->
  dict_get (md Tmean) month = Some gt ->
  month_inputs md i j month = Some (bcell gs i j, bcell gp i j, bcell gt i j).
Proof. intros Hs Hp Ht. unfold month_inputs. now rewrite Hs, Hp, Ht. Qed.

Lemma month_inputs_none md i j month :
  dict_get (md Soltrans) month = None \/ dict_get (md Ppt) month = None \/
  dict_get (md Tmean) month = None ->
  month_inputs md i j month = None.
Proof.
  unfold month_inputs. intros [H|[H|H]]; rewrite H;
    repeat match goal with |- context [dict_get ?d ?k] => destruct (dict_get d k) end;
    reflexivity.
Qed.

(** ** The solar term *)

Lemma january_without_ppt_uniform : uniform_shape january_without_ppt_md (1%nat, 1%nat).
Proof.
  intros var month g. destruct var; cbn [january_without_ppt_md dict_get]; try discriminate;
    destruct (1 =? month)%nat; try discriminate; intros H; now injection H as <-.
Qed.

Lemma january_without_ppt_loaded : first_shape (md_values january_without_ppt_md) <> None.
Proof. discriminate. Qed.

(** C2 as stated fails: a cell with a solar transmittance mean of 0.50 in
    January, in data where January has no precipitation grid, receives nothing
    in the solar-only count, in app.py and in sundex_v2.py, where the claim
    has it receive [(1 - Phi((0.40 - 0.50) / 0.12)) * 31], about 24.7 days. *)
Lemma solar_mean_without_precipitation :
  exists c s d r,
    dict_get (january_without_ppt_md Soltrans) 1 = Some (one_cell (Fin 0.50)) /\
    cell (one_cell (Fin 0.50)) 0 0 = Fin 0.50 /\
    calculate_good_days Erf.erf false january_without_ppt_md 0.40 2.5 (-5) = Ok (c, s, d) /\
    estimate_good_days_from_monthly Erf.erf false january_without_ppt_md DEFAULT_THRESHOLDS
      = Ok r /\
    at_ s 0 0 = Fin 0 /\ at_ (r_good_days_solar r) 0 0 = Fin 0 /\
    24.65 < (1 - norm_cdf Erf.erf ((0.40 - 0.50) / 0.12)) * 31.
Proof.
  destruct (calculate_good_days_returns Erf.erf false january_without_ppt_md (1%nat, 1%nat)
              january_without_ppt_uniform ltac:(simpl; lia) (or_intror january_without_ppt_loaded)
              WINTER_MONTHS 0.40 2.5 (-5)) as [[[c s] d] Hr].
  destruct (estimate_good_days_returns Erf.erf false january_without_ppt_md (1%nat, 1%nat)
              january_without_ppt_uniform ltac:(simpl; lia) (or_intror january_without_ppt_loaded)
              WINTER_MONTHS DEFAULT_THRESHOLDS) as [r Hr2].
  exists c, s, d, r. split; [reflexivity|]. split; [reflexivity|].
  split; [exact Hr|]. split; [exact Hr2|].
  destruct (calculate_good_days_cells Erf.erf _ _ _ _ _ _ _ _ _ 0%nat 0%nat Hr)
    as (_ & -> & _).
  destruct (estimate_good_days_cells Erf.erf _ _ _ _ _ 0%nat 0%nat Hr2)
    as (_ & -> & _).
  split; [reflexivity|]. split; [reflexivity|].
  pose proof ErfFacts.erf_scenario. lra.
Qed.

(** C2, amended. In a month whose three grids (solar transmittance,
    precipitation, temperature) are loaded, a cell whose solar transmittance
    mean is not missing adds [(1 - Phi((solar_min - mean) / 0.12)) * days] to
    the solar-only count the estimator returns, with
    [Phi z = 0.5 * (1 + erf (z / sqrt 2))]: the count returned for a table of
    months that ends with the month is the count returned for the table
    without it plus that term, in app.py and in sundex_v2.py.  A month that
    lacks one of the three grids adds nothing, whatever the solar mean.  With
    the error function itself, 31 days, a mean of 0.50 and [solar_min = 0.40]
    the probability is about 0.7977, and on data that hold January alone the
    solar-only count of the cell is about 24.7 days. *)
Theorem solar_contribution :
  (forall erf z, norm_cdf erf z = 0.5 * (1 + erf (z / sqrt 2))) /\
  (forall erf none_is_scalar months md smin pmax tmin month days c s d c' s' d' i j,
     calculate_good_days_over erf none_is_scalar months md smin pmax tmin = Ok (c, s, d) ->
     calculate_good_days_over erf none_is_scalar (months ++ [(month, days)]) md
       smin pmax tmin = Ok (c', s', d') ->
     (forall gs gp gt mean,
        dict_get (md Soltrans) month = Some gs ->
        dict_get (md Ppt) month = Some gp ->
        dict_get (md Tmean) month = Some gt ->
        (i < nrows gs)%nat -> (j < ncols gs)%nat -> cell gs i j = Fin mean ->
        at_ s' i j
        = sadd (at_ s i j) (Fin ((1 - norm_cdf erf ((smin - mean) / 0.12)) * INR days))) /\
     (dict_get (md Soltrans) month = None \/ dict_get (md Ppt) month = None \/
      dict_get (md Tmean) month = None ->
      at_ s' i j = at_ s i j)) /\
  (forall erf none_is_scalar months md th month days r r' i j,
     estimate_good_days_over erf none_is_scalar months md th = Ok r ->
     estimate_good_days_over erf none_is_scalar (months ++ [(month, days)]) md th = Ok r' ->
     (forall gs gp gt mean,
        dict_get (md Soltrans) month = Some gs ->
        dict_get (md Ppt) month = Some gp ->
        dict_get (md Tmean) month = Some gt ->
        (i < nrows gs)%nat -> (j < ncols gs)%nat -> cell gs i j = Fin mean ->
        at_ (r_good_days_solar r') i j
        = sadd (at_ (r_good_days_solar r) i j)
            (Fin ((1 - norm_cdf erf ((solar_min th - mean) / 0.12)) * INR days))) /\
     (dict_get (md Soltrans) month = None \/ dict_get (md Ppt) month = None \/
      dict_get (md Tmean) month = None ->
      at_ (r_good_days_solar r') i j = at_ (r_good_days_solar r) i j)) /\
  0.7975 < 1 - norm_cdf Erf.erf ((0.40 - 0.50) / 0.12) < 0.7983 /\
  (forall none_is_scalar pmax tmin,
     exists c s d v,
       calculate_good_days Erf.erf none_is_scalar january_md 0.40 pmax tmin = Ok (c, s, d) /\
       at_ s 0 0 = Fin v /\ 24.65 < v < 24.75) /\
  (forall none_is_scalar pmax tmin tmax,
     exists r v,
       estimate_good_days_from_monthly Erf.erf none_is_scalar january_md
         (mkthresholds 0.40 pmax tmin tmax) = Ok r /\
       at_ (r_good_days_solar r) 0 0 = Fin v /\ 24.65 < v < 24.75).
Proof.
  split; [reflexivity|]. split; [|split; [|split; [|split]]].
  - intros erf none_is_scalar months md smin pmax tmin month days c s d c' s' d' i j H H'.
    pose proof (calculate_good_days_month erf _ _ _ _ _ _ _ _ _ _ _ _ _ _ i j H H') as Hm.
    split.
    + intros gs gp gt mean Hs Hp Ht Hi Hj Hmean.
      rewrite (month_inputs_loaded md i j month gs gp gt Hs Hp Ht) in Hm.
      destruct Hm as (_ & -> & _).
      now rewrite bcell_in_range, Hmean by assumption.
    + intros Hnone. rewrite (month_inputs_none md i j month Hnone) in Hm. tauto.
  - intros erf none_is_scalar months md th month days r r' i j H H'.
    pose proof (estimate_good_days_month erf _ _ _ _ _ _ _ _ i j H H') as Hm.
    split.
    + intros gs gp gt mean Hs Hp Ht Hi Hj Hmean.
      rewrite (month_inputs_loaded md i j month gs gp gt Hs Hp Ht) in Hm.
      destruct Hm as (_ & -> & _).
      unfold v2_solar. cbn [fst]. now rewrite bcell_in_range, Hmean by assumption.
    + intros Hnone. rewrite (month_inputs_none md i j month Hnone) in Hm. tauto.
  - exact ErfFacts.erf_scenario.
  - intros none_is_scalar pmax tmin.
    destruct (calculate_good_days_returns Erf.erf none_is_scalar january_md (1%nat, 1%nat)
                january_uniform ltac:(simpl; lia) (or_intror january_loaded)
                WINTER_MONTHS 0.40 pmax tmin) as [[[c s] d] Hr].
    exists c, s, d. eexists. split; [exact Hr|].
    destruct (calculate_good_days_cells Erf.erf _ _ _ _ _ _ _ _ _ 0%nat 0%nat Hr)
      as (_ & -> & _).
    split; [reflexivity|]. pose proof ErfFacts.erf_scenario as He.
    cbv beta. cbn [snd solar_min]. replace (INR 31) with 31 by (simpl; lra). lra.
  - intros none_is_scalar pmax tmin tmax.
    destruct (estimate_good_days_returns Erf.erf none_is_scalar january_md (1%nat, 1%nat)
                january_uniform ltac:(simpl; lia) (or_intror january_loaded)
                WINTER_MONTHS (mkthresholds 0.40 pmax tmin tmax)) as [r Hr].
    exists r. eexists. split; [exact Hr|].
    destruct (estimate_good_days_cells Erf.erf _ _ _ _ _ 0%nat 0%nat Hr)
      as (_ & -> & _).
    split; [reflexivity|]. pose proof ErfFacts.erf_scenario as He.
    cbv beta. cbn [snd solar_min]. replace (INR 31) with 31 by (simpl; lra). lra.
Qed.

(** ** The dry-day fraction *)

(** app.py: divisor [precip_max * 6], floor 0.10. *)
Lemma app_dry_fraction erf md smin pmax tmin c s d month days c' s' d' gs gp gt i j ppt :
  dict_get (md Soltrans) month = Some gs ->
  dict_get (md Ppt) month = Some gp ->
  dict_get (md Tmean) month = Some gt ->
  (i < nrows gp)%nat -> (j < ncols gp)%nat -> cell gp i j = Fin ppt ->
  calculate_good_days_body erf md smin pmax tmin (c, s, d) (month, days) = Ok (c', s', d') ->
  at_ d' i j
  = sadd (at_ d i j)
      (Fin (clip (0.95 - ppt / INR days / (pmax * 6)) 0.10 0.95 * INR days)).
Proof.
  intros Hs Hp Ht Hi Hj Hppt Hbody.
  apply (calculate_good_days_body_cells _ _ _ _ _ _ _ _ _ _ _ _ _ i j) in Hbody.
  unfold month_inputs in Hbody. rewrite Hs, Hp, Ht in Hbody.
  destruct Hbody as (_ & _ & ->).
  unfold app_dry, dry_frac. cbn [fst snd].
  now rewrite bcell_in_range, Hppt by assumption.
Qed.

(** sundex_v2.py: divisor 15, floor 0.15, whatever [precip_max] is. *)
Lemma v2_dry_fraction erf md th acc month days acc' gs gp gt i j ppt :
  dict_get (md Soltrans) month = Some gs ->
  dict_get (md Ppt) month = Some gp ->
  dict_get (md Tmean) month = Some gt ->
  (i < nrows gp)%nat -> (j < ncols gp)%nat -> cell gp i j = Fin ppt ->
  estimate_good_days_body erf md th acc (month, days) = Ok acc' ->
  at_ (good_days_dry acc') i j
  = sadd (at_ (good_days_dry acc) i j)
      (Fin (clip (0.95 - ppt / INR days / 15) 0.15 0.95 * INR days)).
Proof.
  intros Hs Hp Ht Hi Hj Hppt Hbody.
  apply (estimate_good_days_body_cells _ _ _ _ _ _ _ i j) in Hbody.
  unfold month_inputs in Hbody. rewrite Hs, Hp, Ht in Hbody.
  destruct Hbody as (_ & _ & -> & _).
  unfold v2_dry, dry_frac. cbn [fst snd].
  now rewrite bcell_in_range, Hppt by assumption.
Qed.

(** build_webapp_v2.py: divisor [precipMax * 8], floor 0.05. *)
Lemma js_dry_fraction precipMax ppt days :
  js_fracDry precipMax ppt days = clip (0.95 - ppt / days / (precipMax * 8)) 0.05 0.95.
Proof.
  unfold js_fracDry, clip. cbv zeta.
  set (v := 0.95 - ppt / days / (precipMax * 8)).
  unfold Rmax, Rmin.
  destruct (Rle_dec 0.95 v); destruct (Rle_dec v 0.05);
    repeat match goal with |- context [Rle_dec ?a ?b] => destruct (Rle_dec a b) end; lra.
Qed.

Lemma november_uniform : uniform_shape november_md (1%nat, 1%nat).
Proof.
  intros var month g. destruct var; cbn [november_md dict_get]; try discriminate;
    destruct (11 =? month)%nat; try discriminate; intros H; now injection H as <-.
Qed.

Lemma november_loaded : first_shape (md_values november_md) <> None.
Proof. discriminate. Qed.

Lemma clip_inside x lo hi : lo <= x <= hi -> clip x lo hi = x.
Proof.
  intros H. unfold clip, Rmin, Rmax.
  destruct (Rle_dec x lo); destruct (Rle_dec _ hi); lra.
Qed.

(** C3, [estimate_good_days_from_monthly] (sundex_v2.py) with
    [precip_max = 5] on a cell with 150 mm in November: the dry-day count is
    18.5, the fraction being [0.95 - 5 / 15]; with the divisor
    [precip_max * 15] of the specification it would be 26.5. *)
Theorem sundex_v2_dry_ignores_precip_max :
  (forall (none_is_scalar : bool) (pmax : R),
   exists r,
     estimate_good_days_from_monthly Erf.erf none_is_scalar november_md
       (mkthresholds 0.40 pmax (-5) 20) = Ok r /\
     at_ (r_good_days_dry r) 0 0 = Fin 18.5) /\
  clip (0.95 - 150 / 30 / (5 * 15)) 0.15 0.95 * 30 = 26.5.
Proof.
  split.
  - intros none_is_scalar pmax.
    destruct (estimate_good_days_returns Erf.erf none_is_scalar november_md (1%nat, 1%nat)
                november_uniform ltac:(simpl; lia) (or_intror november_loaded)
                WINTER_MONTHS
                (mkthresholds 0.40 pmax (-5) 20)) as [r Hr].
    exists r. split; [exact Hr|].
    destruct (estimate_good_days_cells Erf.erf _ _ _ _ _ 0%nat 0%nat Hr) as (_ & _ & -> & _).
    unfold contributions, WINTER_MONTHS. simpl. f_equal.
    rewrite clip_inside; lra.
  - rewrite clip_inside; lra.
Qed.

(** ** Missing inputs *)









(** ** The theorems at concrete inputs *)

Lemma combined_good_days_within_period_witness :
  (forall x, -1 <= Erf.erf_clamped x <= 1) /\
  0 <= solar_min DEFAULT_THRESHOLDS <= 1 /\ 0 < precip_max DEFAULT_THRESHOLDS /\
  exists c s d x,
    calculate_good_days Erf.erf_clamped true january_md 0.40 2.5 (-5) = Ok (c, s, d) /\
    at_ c 0 0 = Fin x /\ 0 <= x <= INR TOTAL_DAYS.
Proof.
  assert (H1 : 0 <= solar_min DEFAULT_THRESHOLDS <= 1) by (simpl; lra).
  assert (H2 : 0 < precip_max DEFAULT_THRESHOLDS) by (simpl; lra).
  split; [exact ErfFacts.erf_clamped_range|]. split; [exact H1|]. split; [exact H2|].
  destruct (calculate_good_days_returns Erf.erf_clamped true january_md (1%nat, 1%nat)
              january_uniform ltac:(simpl; lia) (or_introl eq_refl) WINTER_MONTHS 0.40 2.5 (-5))
    as [[[c s] d] Hr].
  destruct (calculate_good_days_cells Erf.erf_clamped _ _ _ _ _ _ _ _ _ 0%nat 0%nat Hr)
    as (Hc & _).
  unfold contributions, WINTER_MONTHS in Hc. simpl in Hc.
  exists c, s, d. eexists. split; [exact Hr|]. split; [exact Hc|].
  exact (proj1 (combined_good_days_within_period Erf.erf_clamped
                  ErfFacts.erf_clamped_range true WINTER_MONTHS january_md DEFAULT_THRESHOLDS
                  H1 H2) c s d Hr 0%nat 0%nat _ Hc).
Defined.

Lemma combined_le_each_criterion_witness :
  (forall x, -1 <= Erf.erf_clamped x <= 1) /\
  exists r x,
    estimate_good_days_from_monthly Erf.erf_clamped true january_md DEFAULT_THRESHOLDS
      = Ok r /\
    at_ (good_days r) 0 0 = Fin x /\
    (exists y, at_ (r_good_days_solar r) 0 0 = Fin y /\ x <= y) /\
    (exists y, at_ (r_good_days_dry r) 0 0 = Fin y /\ x <= y) /\
    (exists y, at_ (r_good_days_temp r) 0 0 = Fin y /\ x <= y).
Proof.
  split; [exact ErfFacts.erf_clamped_range|].
  destruct (estimate_good_days_returns Erf.erf_clamped true january_md (1%nat, 1%nat)
              january_uniform ltac:(simpl; lia) (or_introl eq_refl) WINTER_MONTHS DEFAULT_THRESHOLDS) as [r Hr].
  destruct (estimate_good_days_cells Erf.erf_clamped _ _ _ _ _ 0%nat 0%nat Hr)
    as (Hc & _).
  unfold contributions, WINTER_MONTHS in Hc. simpl in Hc.
  exists r. eexists. split; [exact Hr|]. split; [exact Hc|].
  exact (proj2 (combined_le_each_criterion Erf.erf_clamped
                  ErfFacts.erf_clamped_range true WINTER_MONTHS january_md DEFAULT_THRESHOLDS)
           r Hr 0%nat 0%nat _ Hc).
Defined.

Lemma solar_contribution_witness :
  exists c s d c' s' d',
    calculate_good_days_over Erf.erf false [(10%nat, 31%nat); (11%nat, 30%nat); (12%nat, 31%nat)]
      january_md 0.40 2.5 (-5) = Ok (c, s, d) /\
    calculate_good_days_over Erf.erf false
      ([(10%nat, 31%nat); (11%nat, 30%nat); (12%nat, 31%nat)] ++ [(1%nat, 31%nat)])
      january_md 0.40 2.5 (-5) = Ok (c', s', d') /\
    at_ s' 0 0
    = sadd (at_ s 0 0) (Fin ((1 - norm_cdf Erf.erf ((0.40 - 0.50) / 0.12)) * INR 31)).
Proof.
  destruct (calculate_good_days_returns Erf.erf false january_md (1%nat, 1%nat)
              january_uniform ltac:(simpl; lia) (or_intror january_loaded)
              [(10%nat, 31%nat); (11%nat, 30%nat); (12%nat, 31%nat)] 0.40 2.5 (-5))
    as [[[c s] d] Hr].
  destruct (calculate_good_days_returns Erf.erf false january_md (1%nat, 1%nat)
              january_uniform ltac:(simpl; lia) (or_intror january_loaded)
              ([(10%nat, 31%nat); (11%nat, 30%nat); (12%nat, 31%nat)] ++ [(1%nat, 31%nat)])
              0.40 2.5 (-5))
    as [[[c' s'] d'] Hr'].
  exists c, s, d, c', s', d'. split; [exact Hr|]. split; [exact Hr'|].
  pose proof solar_contribution as (_ & Happ & _).
  exact (proj1 (Happ Erf.erf false _ january_md 0.40 2.5 (-5) 1%nat 31%nat
                  c s d c' s' d' 0%nat 0%nat Hr Hr')
           (one_cell (Fin 0.50)) (one_cell (Fin 100)) (one_cell (Fin 2)) 0.50
           eq_refl eq_refl eq_refl ltac:(simpl; lia) ltac:(simpl; lia) eq_refl).
Defined.


Lemma last_discovery_wins_witness :
  Catalog.get_file_paths twice_listing Ppt !! 1%nat
  = Some "Data/prism_normals/PRISM_ppt_30yr_normal_4kmM3_01_bil/second.bil".
Proof.
  pose proof last_discovery_wins as (Hlast & _).
  refine (Hlast [Catalog.mkentry "PRISM_ppt_30yr_normal_4kmM4_01_bil" true ["first.bil"]]
            (Catalog.mkentry "PRISM_ppt_30yr_normal_4kmM3_01_bil" true ["second.bil"])
            [] Ppt 1%nat
            "Data/prism_normals/PRISM_ppt_30yr_normal_4kmM3_01_bil/second.bil" eq_refl _).
  intros e' [].
Defined.

Lemma downsample_block_mean_witness :
  (1 <= 2)%nat /\
  exists result,
    BuildWebapp.downsample half_missing 2 = Ok result /\
    nrows result = 1%nat /\ ncols result = 1%nat /\ cell result 0 0 = Fin 2.
Proof.
  assert (H : (1 <= 2)%nat) by lia.
  split; [exact H|].
  destruct (downsample_block_mean half_missing 2 H) as (result & Hd & Hr & Hc & Hcell & _).
  exists result. split; [exact Hd|]. split; [exact Hr|]. split; [exact Hc|].
  rewrite Hcell by (rewrite ?Hr, ?Hc; simpl; lia).
  simpl. f_equal. lra.
Defined.

(** * Further properties *)

Local Open Scope R_scope.

(** ** The catalog scans *)

Lemma classify_not_800m e :
  Catalog.classify e = if not_800m e then Sundex.classify e else None.
Proof.
  unfold Catalog.classify, Sundex.classify, not_800m.
  destruct (negb (Catalog.e_isdir e)); [now destruct (negb _)|].
  now destruct (Catalog.contains "800m" _).
Qed.

Lemma paths_set_pointwise p q var month file :
  (forall v, p v = q v) ->
  forall v, Catalog.paths_set p var month file v = Catalog.paths_set q var month file v.
Proof. intros H v. unfold Catalog.paths_set. now rewrite H. Qed.

Lemma scan_800m_steps listing : forall p q,
  (forall v, p v = q v) ->
  forall v, fold_left Catalog.get_file_paths_item listing p v
            = fold_left Sundex.get_file_paths_item (List.filter not_800m listing) q v.
Proof.
  induction listing as [|e listing IH]; intros p q H; [exact H|].
  simpl. unfold Catalog.get_file_paths_item at 2. rewrite classify_not_800m.
  destruct (not_800m e); simpl.
  - apply IH. unfold Sundex.get_file_paths_item.
    destruct (Sundex.classify e) as [[[var month] file]|]; [|exact H].
    now apply paths_set_pointwise.
  - now apply IH.
Qed.

(** X1. The scan of app.py, sundex_v2.py and build_webapp.py is the scan of
    sundex.py run on the listing without the entries whose lowered name
    contains ['800m']. *)
Theorem scan_skips_800m :
  forall (listing : list Catalog.entry) (var : variable),
  Catalog.get_file_paths listing var
  = Sundex.get_file_paths (List.filter not_800m listing) var.
Proof.
  intros listing var. unfold Catalog.get_file_paths, Sundex.get_file_paths.
  now apply scan_800m_steps.
Qed.

Lemma classify_three_vars e :
  BuildWebappV2.classify e
  = match Catalog.classify e with
    | Some (Tdmean, _, _) => None
    | c => c
    end.
Proof.
  unfold BuildWebappV2.classify, Catalog.classify, BuildWebappV2.path_vars, all_vars.
  destruct (negb (Catalog.e_isdir e)); [reflexivity|].
  destruct (Catalog.contains "800m" _); [reflexivity|]. cbn [find].
  destruct (Catalog.contains (var_name Ppt) _).
  { destruct (Catalog.month_of _) as [m|]; [|reflexivity].
    destruct (m =? 0)%nat; [reflexivity|]. now destruct (Catalog.find_raster_file _ _). }
  destruct (Catalog.contains (var_name Soltrans) _).
  { destruct (Catalog.month_of _) as [m|]; [|reflexivity].
    destruct (m =? 0)%nat; [reflexivity|]. now destruct (Catalog.find_raster_file _ _). }
  destruct (Catalog.contains (var_name Tmean) _).
  { destruct (Catalog.month_of _) as [m|]; [|reflexivity].
    destruct (m =? 0)%nat; [reflexivity|]. now destruct (Catalog.find_raster_file _ _). }
  destruct (Catalog.contains (var_name Tdmean) _); [|reflexivity].
  destruct (Catalog.month_of _) as [m|]; [|reflexivity].
  destruct (m =? 0)%nat; [reflexivity|]. now destruct (Catalog.find_raster_file _ _).
Qed.

Lemma scan_three_vars_steps listing : forall p q,
  (forall v, p v = if decide (v = Tdmean) then ∅ else q v) ->
  forall v, fold_left BuildWebappV2.get_file_paths_item listing p v
            = if decide (v = Tdmean) then ∅
              else fold_left Catalog.get_file_paths_item listing q v.
Proof.
  induction listing as [|e listing IH]; intros p q H; [exact H|].
  simpl. apply IH. intros v.
  unfold BuildWebappV2.get_file_paths_item, Catalog.get_file_paths_item.
  rewrite classify_three_vars.
  destruct (Catalog.classify e) as [[[var month] file]|]; [|apply H].
  unfold Catalog.paths_set.
  destruct var; try rewrite H;
    destruct (decide (v = Tdmean)) as [->|Hv]; try reflexivity;
    destruct (decide _); try reflexivity; try congruence.
Qed.

(** X2. The scan of build_webapp_v2.py, whose [paths] has no ['tdmean'],
    records for precipitation, solar transmittance and mean temperature what
    the scan of app.py records, and nothing for the dew point: a dew-point
    directory is not taken for another variable. *)
Theorem scan_without_tdmean :
  forall (listing : list Catalog.entry) (var : variable),
  BuildWebappV2.get_file_paths listing var
  = if decide (var = Tdmean) then ∅ else Catalog.get_file_paths listing var.
Proof.
  intros listing var.
  unfold BuildWebappV2.get_file_paths, Catalog.get_file_paths.
  apply scan_three_vars_steps. intros v. unfold Catalog.empty_paths.
  now destruct (decide _).
Qed.

Lemma int_two_digits s :
  Catalog.isdigit s = true -> String.length s = 2%nat -> (Catalog.int s <= 99)%nat.
Proof.
  destruct s as [|a [|b [|c s]]]; try discriminate. intros H _.
  unfold Catalog.isdigit in H. simpl in H.
  apply andb_prop in H as [Ha H]. apply andb_prop in H as [Hb _].
  unfold Catalog.is_digit in Ha, Hb.
  apply andb_prop in Ha as [_ Ha]. apply andb_prop in Hb as [_ Hb].
  apply Nat.leb_le in Ha, Hb.
  unfold Catalog.int. cbn [Catalog.int_acc]. lia.
Qed.

Lemma scan_bil_range parts : forall prev m,
  Catalog.scan_bil prev parts = Some m -> (m <= 99)%nat.
Proof.
  induction parts as [|p parts IH]; intros prev m; [discriminate|].
  simpl. destruct prev as [month_str|]; [|apply IH].
  destruct (String.eqb p "bil" && _) eqn:E; [|apply IH].
  intros H. injection H as <-.
  apply andb_prop in E as [_ E]. apply andb_prop in E as [Hd Hl].
  apply int_two_digits; [exact Hd|now apply Nat.eqb_eq].
Qed.

Lemma scan_yyyymm_range parts m :
  Catalog.scan_yyyymm parts = Some m -> (m <= 99)%nat.
Proof.
  induction parts as [|p parts IH]; [discriminate|].
  simpl. destruct ((String.length p =? 6)%nat && Catalog.isdigit p) eqn:E; [|exact IH].
  intros H. injection H as <-.
  apply andb_prop in E as [Hl Hd]. apply Nat.eqb_eq in Hl.
  destruct p as [|c1 [|c2 [|c3 [|c4 [|c5 [|c6 [|c7 p]]]]]]]; try discriminate.
  unfold Catalog.isdigit in Hd. simpl in Hd.
  apply andb_prop in Hd as [_ Hd]. apply andb_prop in Hd as [_ Hd].
  apply andb_prop in Hd as [_ Hd]. apply andb_prop in Hd as [_ Hd].
  apply andb_prop in Hd as [H5 Hd]. apply andb_prop in Hd as [H6 _].
  cbn [substring]. apply int_two_digits; [|reflexivity].
  unfold Catalog.isdigit. cbn [String.length Nat.eqb negb andb Catalog.all_digits].
  now rewrite H5, H6.
Qed.

Lemma month_of_range item m : Catalog.month_of item = Some m -> (m <= 99)%nat.
Proof.
  unfold Catalog.month_of.
  destruct (Catalog.contains "_bil" _); [apply scan_bil_range|].
  destruct (Catalog.contains "avg_30y" _); [apply scan_yyyymm_range|discriminate].
Qed.

Lemma find_raster_file_sound dir e file :
  Catalog.find_raster_file dir e = Some file ->
  exists f, In f (Catalog.e_files e) /\ Catalog.raster_ext f = true /\
            file = Catalog.path_join dir f.
Proof.
  unfold Catalog.find_raster_file. destruct (negb (Catalog.e_isdir e)); [discriminate|].
  destruct (find _ _) as [f|] eqn:E; [|discriminate].
  intros H. injection H as <-. apply find_some in E as [Hin Hext].
  exists f. auto.
Qed.

Lemma classify_sound e var month file :
  Catalog.classify e = Some (var, month, file) ->
  Catalog.e_isdir e = true /\ not_800m e = true /\
  Catalog.contains (var_name var) (Catalog.lower (Catalog.e_name e)) = true /\
  (1 <= month <= 99)%nat /\
  exists f, In f (Catalog.e_files e) /\ Catalog.raster_ext f = true /\
            file = Catalog.path_join
                     (Catalog.path_join Catalog.DATA_DIR (Catalog.e_name e)) f.
Proof.
  unfold Catalog.classify, not_800m.
  destruct (Catalog.e_isdir e); [|discriminate]. simpl negb at 1. cbv iota.
  destruct (Catalog.contains "800m" _); [discriminate|].
  destruct (find _ all_vars) as [v|] eqn:Ev; [|discriminate].
  destruct (Catalog.month_of _) as [m|] eqn:Em; [|discriminate].
  destruct (Nat.eqb_spec m 0) as [|Hm]; [discriminate|].
  destruct (Catalog.find_raster_file _ e) as [rf|] eqn:Ef; [|discriminate].
  intros H. injection H as <- <- <-.
  apply find_some in Ev as [_ Ev]. apply month_of_range in Em.
  apply find_raster_file_sound in Ef.
  repeat split; auto; lia.
Qed.

Lemma scan_sound_steps listing : forall paths var month file,
  fold_left Catalog.get_file_paths_item listing paths var !! month = Some file ->
  paths var !! month = Some file \/
  exists e, In e listing /\ Catalog.classify e = Some (var, month, file).
Proof.
  induction listing as [|e listing IH]; intros paths var month file H; [now left|].
  simpl in H. apply IH in H as [H|(e' & Hin & Hc)].
  - unfold Catalog.get_file_paths_item in H.
    destruct (Catalog.classify e) as [[[v m] f]|] eqn:E; [|now left].
    destruct (decide ((var, month) = (v, m))) as [Heq|Hne].
    + injection Heq as -> ->. rewrite CatalogFacts.paths_set_same in H.
      injection H as ->. right. exists e. split; [now left|exact E].
    + rewrite CatalogFacts.paths_set_other in H by exact Hne. now left.
  - right. exists e'. split; [now right|exact Hc].
Qed.

(** X3. Every path of the catalog comes from an entry of the listing: a
    directory whose lowered name contains the variable's key and no ['800m'],
    and a file of that directory with a raster extension, joined to the
    directory's path.  Its month is between 1 and 99: no month is 0, and none
    is tested against 12. *)
Theorem catalog_paths_come_from_listing :
  forall (listing : list Catalog.entry) (var : variable) (month : nat) (file : string),
  Catalog.get_file_paths listing var !! month = Some file ->
  exists e f,
    In e listing /\ Catalog.e_isdir e = true /\ not_800m e = true /\
    Catalog.contains (var_name var) (Catalog.lower (Catalog.e_name e)) = true /\
    In f (Catalog.e_files e) /\ Catalog.raster_ext f = true /\
    file = Catalog.path_join
             (Catalog.path_join Catalog.DATA_DIR (Catalog.e_name e)) f /\
    (1 <= month <= 99)%nat.
Proof.
  intros listing var month file H.
  apply scan_sound_steps in H as [H|(e & Hin & Hc)].
  - unfold Catalog.empty_paths in H. now rewrite lookup_empty in H.
  - apply classify_sound in Hc as (Hd & H8 & Hv & Hm & f & Hf & Hext & ->).
    exists e, f. repeat split; auto; lia.
Qed.

Lemma documented_names var month :
  (1 <= month <= 12)%nat ->
  let old := old_format_name var month in
  let new := new_format_name var month in
  Catalog.contains "800m" (Catalog.lower old) = false /\
  Catalog.contains "800m" (Catalog.lower new) = false /\
  find (fun v => Catalog.contains (var_name v) (Catalog.lower old)) all_vars = Some var /\
  find (fun v => Catalog.contains (var_name v) (Catalog.lower new)) all_vars = Some var /\
  Catalog.month_of old = Some month /\ Catalog.month_of new = Some month.
Proof.
  intros [H1 H12].
  do 13 (destruct month as [|month]; [try lia; destruct var; vm_compute; auto 10|]).
  lia.
Qed.

(** X4. The two directory names the scan is written for are read back: for
    every variable and every month from 1 to 12, a directory named in the old
    format ([PRISM_<var>_30yr_normal_4kmM4_<MM>_bil]) or in the new one
    ([prism_<var>_us_25m_2020<MM>_avg_30y]) is catalogued under that variable
    and that month whenever it holds a raster file, and is left out when it
    holds none. *)
Theorem documented_names_are_read_back :
  forall (var : variable) (month : nat) (files : list string) (name : string),
  (1 <= month <= 12)%nat ->
  name = old_format_name var month \/ name = new_format_name var month ->
  Catalog.classify (Catalog.mkentry name true files)
  = match find Catalog.raster_ext files with
    | Some f =>
        Some (var, month,
              Catalog.path_join (Catalog.path_join Catalog.DATA_DIR name) f)
    | None => None
    end.
Proof.
  intros var month files name Hm Hname.
  destruct (documented_names var month Hm) as (H8o & H8n & Hvo & Hvn & Hmo & Hmn).
  assert (Hpos : (month =? 0)%nat = false) by (apply Nat.eqb_neq; lia).
  unfold Catalog.classify, Catalog.find_raster_file. cbn [Catalog.e_name Catalog.e_isdir
    Catalog.e_files negb].
  destruct Hname as [-> | ->].
  - rewrite H8o, Hvo, Hmo, Hpos. unfold Catalog.raster_ext.
    now destruct (find _ files).
  - rewrite H8n, Hvn, Hmn, Hpos. unfold Catalog.raster_ext.
    now destruct (find _ files).
Qed.

Lemma catalog_paths_come_from_listing_witness :
  Catalog.get_file_paths twice_listing Ppt !! 1%nat
  = Some "Data/prism_normals/PRISM_ppt_30yr_normal_4kmM3_01_bil/second.bil" /\
  exists e f,
    In e twice_listing /\ Catalog.e_isdir e = true /\ not_800m e = true /\
    Catalog.contains (var_name Ppt) (Catalog.lower (Catalog.e_name e)) = true /\
    In f (Catalog.e_files e) /\ Catalog.raster_ext f = true /\
    "Data/prism_normals/PRISM_ppt_30yr_normal_4kmM3_01_bil/second.bil"
    = Catalog.path_join
        (Catalog.path_join Catalog.DATA_DIR (Catalog.e_name e)) f /\
    (1 <= 1 <= 99)%nat.
Proof.
  assert (H : Catalog.get_file_paths twice_listing Ppt !! 1%nat
              = Some "Data/prism_normals/PRISM_ppt_30yr_normal_4kmM3_01_bil/second.bil")
    by (vm_compute; reflexivity).
  split; [exact H|].
  exact (catalog_paths_come_from_listing twice_listing Ppt 1%nat _ H).
Defined.

Lemma documented_names_are_read_back_witness :
  (1 <= 1 <= 12)%nat /\
  Catalog.classify
    (Catalog.mkentry "prism_tmean_us_25m_202001_avg_30y" true ["readme.txt"; "tmean.tif"])
  = Some (Tmean, 1%nat,
          "Data/prism_normals/prism_tmean_us_25m_202001_avg_30y/tmean.tif").
Proof.
  assert (H : (1 <= 1 <= 12)%nat) by lia.
  split; [exact H|].
  exact (documented_names_are_read_back Tmean 1%nat ["readme.txt"; "tmean.tif"]
           "prism_tmean_us_25m_202001_avg_30y" H (or_intror eq_refl)).
Defined.

(** ** Winter averages (sundex.py) *)

Lemma load_raster_wa_shape fs filepath sh :
  gshape (fst (fst (SundexV2.load_raster_wa fs filepath (Some sh)))) = sh.
Proof. unfold SundexV2.load_raster_wa. cbn [fst]. apply gshape_conform. Qed.

Lemma load_raster_wa_first fs filepath :
  SundexV2.load_raster_wa fs filepath None
  = (mask_nodata (chosen_nodata (fs filepath)) (window_data (fs filepath)),
     window_transform (fs filepath), src_crs (fs filepath)).
Proof. reflexivity. Qed.

Lemma nanmean_stack_same_shape arrays sh :
  arrays <> [] -> Forall (fun a => gshape a = sh) arrays ->
  exists avg, nanmean_stack arrays = Ok avg /\ gshape avg = sh.
Proof.
  intros Hne Hall. destruct arrays as [|first rest]; [contradiction|].
  unfold nanmean_stack.
  assert (Hf : gshape first = sh) by (now inversion Hall).
  assert (Hb : forallb (fun arr => shape_eqb (gshape arr) (gshape first)) (first :: rest) = true).
  { apply forallb_forall. intros a Ha. rewrite List.Forall_forall in Hall.
    apply shape_eqb_eq. rewrite Hf. now apply Hall. }
  rewrite Hb. eexists. split; [reflexivity|]. exact Hf.
Qed.

Module SundexFacts.
Import Sundex.

Lemma load_months_aligned fs month_files t c sh months : forall arrs,
  Forall (fun a => gshape a = sh) arrs ->
  exists arrs',
    fold_left (load_month fs month_files) months (arrs, Some t, c, Some sh)
    = (arrs', Some t, c, Some sh) /\
    Forall (fun a => gshape a = sh) arrs' /\
    (arrs' = [] <-> arrs = [] /\ opened_months month_files months = []).
Proof.
  induction months as [|m months IH]; intros arrs Harrs.
  - exists arrs. simpl. repeat split; tauto.
  - cbn [fold_left opened_months flat_map]. unfold load_month at 2.
    destruct (month_files !! m) as [filepath|] eqn:E.
    + destruct (SundexV2.load_raster_wa fs filepath (Some sh)) as [[data t'] c'] eqn:El.
      assert (Hd : gshape data = sh).
      { pose proof (load_raster_wa_shape fs filepath sh) as H. now rewrite El in H. }
      destruct (IH (arrs ++ [data])%list) as (arrs' & Hfold & Hall & Hempty).
      { apply Forall_app. split; [exact Harrs|]. now constructor. }
      exists arrs'. split; [exact Hfold|]. split; [exact Hall|].
      split.
      * intros H. apply Hempty in H as [H _]. now destruct arrs.
      * intros [_ H]. discriminate H.
    + destruct (IH arrs Harrs) as (arrs' & Hfold & Hall & Hempty).
      exists arrs'. split; [exact Hfold|]. split; [exact Hall|]. exact Hempty.
Qed.

Lemma load_months_fresh fs month_files months :
  match opened_months month_files months with
  | [] =>
      fold_left (load_month fs month_files) months ([], None, None, None)
      = ([], None, None, None)
  | first :: _ =>
      exists arrs',
        fold_left (load_month fs month_files) months ([], None, None, None)
        = (arrs', Some (window_transform (fs first)), Some (src_crs (fs first)),
           Some (gshape (window_data (fs first)))) /\
        arrs' <> [] /\
        Forall (fun a => gshape a = gshape (window_data (fs first))) arrs'
  end.
Proof.
  induction months as [|m months IH]; [reflexivity|].
  cbn [fold_left opened_months flat_map]. unfold load_month at 2 4.
  destruct (month_files !! m) as [filepath|] eqn:E; [|exact IH].
  cbn [app]. rewrite load_raster_wa_first. cbn [app].
  destruct (load_months_aligned fs month_files (window_transform (fs filepath))
              (Some (src_crs (fs filepath))) (gshape (window_data (fs filepath))) months
              [mask_nodata (chosen_nodata (fs filepath)) (window_data (fs filepath))])
    as (arrs' & Hfold & Hall & Hempty).
  { constructor; [reflexivity|constructor]. }
  exists arrs'. unfold gshape at 1. cbn [nrows ncols mask_nodata emap].
  split; [exact Hfold|]. split; [|exact Hall].
  intros H. apply Hempty in H as [H _]. discriminate H.
Qed.

Lemma averages_set_shape averages var avg sh :
  (forall v a, averages v = Some a -> gshape a = sh) -> gshape avg = sh ->
  forall v a, averages_set averages var avg v = Some a -> gshape a = sh.
Proof.
  intros H Havg v a. unfold averages_set. destruct (decide (v = var)); [|apply H].
  intros E. now injection E as <-.
Qed.

Lemma compute_var_aligned fs file_paths months st var t c sh :
  averages_aligned st t c sh ->
  exists st', compute_var fs file_paths months st var = Ok st' /\
              averages_aligned st' t c sh /\
              (forall v, v <> var -> av_averages st' v = av_averages st v) /\
              (av_averages st' var = None <->
               av_averages st var = None /\ opened_months (file_paths var) months = []).
Proof.
  intros (Ht & Hc & Hs & Hav). unfold compute_var. rewrite Ht, Hc, Hs.
  destruct (load_months_aligned fs (file_paths var) t (Some c) sh months [] (List.Forall_nil _))
    as (arrs & -> & Hall & Hempty).
  destruct arrs as [|a arrs].
  - eexists. split; [reflexivity|].
    split; [split; [|split; [|split]]; try reflexivity; exact Hav|].
    split; [reflexivity|].
    cbn [av_averages]. destruct Hempty as [He _]. specialize (He eq_refl). tauto.
  - destruct (nanmean_stack_same_shape (a :: arrs) sh ltac:(discriminate) Hall)
      as (avg & -> & Havg).
    eexists. split; [reflexivity|]. split.
    { split; [|split; [|split]]; try reflexivity.
      cbn [av_averages]. now apply averages_set_shape. }
    split.
    + intros v Hv. cbn [av_averages]. unfold averages_set.
      destruct (decide (v = var)); [contradiction|reflexivity].
    + cbn [av_averages]. unfold averages_set.
      destruct (decide (var = var)); [|contradiction].
      split; [discriminate|]. intros [_ H]. destruct Hempty as [_ He].
      discriminate (He (conj eq_refl H)).
Qed.

Lemma compute_var_fresh fs file_paths months st var :
  averages_fresh st ->
  exists st', compute_var fs file_paths months st var = Ok st' /\
    match opened_months (file_paths var) months with
    | [] => averages_fresh st'
    | first :: _ =>
        averages_aligned st' (window_transform (fs first)) (src_crs (fs first))
          (gshape (window_data (fs first)))
    end.
Proof.
  intros (Ht & Hc & Hs & Hav). unfold compute_var. rewrite Ht, Hc, Hs.
  pose proof (load_months_fresh fs (file_paths var) months) as H.
  destruct (opened_months (file_paths var) months) as [|first rest].
  - rewrite H. eexists. split; [reflexivity|]. now repeat split.
  - destruct H as (arrs & -> & Hne & Hall).
    destruct arrs as [|a arrs]; [contradiction|].
    destruct (nanmean_stack_same_shape (a :: arrs) _ ltac:(discriminate) Hall)
      as (avg & -> & Havg).
    eexists. split; [reflexivity|].
    split; [|split; [|split]]; try reflexivity.
    cbn [av_averages]. apply averages_set_shape; [|exact Havg].
    intros v a'. rewrite Hav. discriminate.
Qed.

Lemma vars_aligned fs file_paths months t c sh vars : forall st,
  averages_aligned st t c sh ->
  exists st', for_each (compute_var fs file_paths months) vars st = Ok st' /\
              averages_aligned st' t c sh.
Proof.
  induction vars as [|var vars IH]; intros st Hst.
  - exists st. split; [reflexivity|exact Hst].
  - rewrite for_each_cons.
    destruct (compute_var_aligned fs file_paths months st var t c sh Hst)
      as (st1 & -> & Hst1 & _). cbn [mbind result_bind]. now apply IH.
Qed.

Lemma vars_fresh fs file_paths months vars : forall st,
  averages_fresh st ->
  exists st', for_each (compute_var fs file_paths months) vars st = Ok st' /\
    match opened_in file_paths vars months with
    | [] => averages_fresh st'
    | first :: _ =>
        averages_aligned st' (window_transform (fs first)) (src_crs (fs first))
          (gshape (window_data (fs first)))
    end.
Proof.
  induction vars as [|var vars IH]; intros st Hst.
  - exists st. split; [reflexivity|exact Hst].
  - rewrite for_each_cons. unfold opened_in. cbn [flat_map].
    destruct (compute_var_fresh fs file_paths months st var Hst) as (st1 & -> & Hst1).
    cbn [mbind result_bind].
    destruct (opened_months (file_paths var) months) as [|first rest]; cbn [app].
    + now apply IH.
    + now apply vars_aligned.
Qed.

Lemma load_months_arrays_empty fs month_files months : forall st,
  fst (fst (fst (fold_left (load_month fs month_files) months st))) = [] <->
  fst (fst (fst st)) = [] /\ opened_months month_files months = [].
Proof.
  induction months as [|m months IH]; intros st.
  - simpl. tauto.
  - cbn [fold_left opened_months flat_map]. rewrite IH.
    destruct st as [[[arrs t] c] ts]. unfold load_month.
    destruct (month_files !! m) as [filepath|]; [|reflexivity].
    destruct (SundexV2.load_raster_wa fs filepath ts) as [[data t'] c'].
    destruct t; cbn [fst app]; split; intros [H1 H2]; try discriminate;
      now destruct arrs.
Qed.

Lemma compute_var_keys fs file_paths months st var st' :
  compute_var fs file_paths months st var = Ok st' ->
  (forall v, v <> var -> av_averages st' v = av_averages st v) /\
  (av_averages st var = None ->
   (av_averages st' var = None <-> opened_months (file_paths var) months = [])).
Proof.
  unfold compute_var.
  pose proof (load_months_arrays_empty fs (file_paths var) months
                ([], av_transform st, av_crs st, av_target_shape st)) as He.
  destruct (fold_left _ months _) as [[[arrs t] c] ts]. cbn [fst] in He.
  destruct arrs as [|a arrs].
  - intros H. injection H as <-. cbn [av_averages]. split; [reflexivity|].
    intros Hn. split; [intros _; now apply He|intros _; exact Hn].
  - intros H. apply bind_ok in H as (avg & _ & H). injection H as <-. cbn [av_averages].
    unfold averages_set. split.
    + intros v Hv. now destruct (decide (v = var)).
    + intros _. destruct (decide (var = var)); [|contradiction].
      split; [discriminate|]. intros H. discriminate (proj2 He (conj eq_refl H)).
Qed.

Lemma vars_keys fs file_paths months vars : forall st st',
  List.NoDup vars ->
  for_each (compute_var fs file_paths months) vars st = Ok st' ->
  (forall v, ~ In v vars -> av_averages st' v = av_averages st v) /\
  (forall v, In v vars -> av_averages st v = None ->
     (av_averages st' v = None <-> opened_months (file_paths v) months = [])).
Proof.
  induction vars as [|var vars IH]; intros st st' Hnd H.
  - injection H as <-. split; [reflexivity|]. intros v [].
  - rewrite for_each_cons in H. apply bind_ok in H as (st1 & H1 & H).
    apply List.NoDup_cons_iff in Hnd as [Hnotin Hnd].
    apply compute_var_keys in H1 as [Hother Hvar].
    destruct (IH st1 st' Hnd H) as [IHout IHin]. split.
    + intros v Hv. rewrite IHout by (intros Hin; apply Hv; now right).
      apply Hother. intros ->. apply Hv. now left.
    + intros v [<-|Hin] Hnone.
      * rewrite IHout by exact Hnotin. now apply Hvar.
      * apply IHin; [exact Hin|]. rewrite Hother; [exact Hnone|].
        intros ->. contradiction.
Qed.

End SundexFacts.

Lemma all_vars_nodup : List.NoDup all_vars.
Proof. unfold all_vars. repeat constructor; simpl; intuition discriminate. Qed.

Lemma in_all_vars var : In var all_vars.
Proof. destruct var; simpl; auto. Qed.

(** X5. [compute_winter_averages] (sundex.py) returns for every catalog and
    every list of months: [np.stack] is never given arrays of different
    shapes.  A variable has an average exactly when one of the months has a
    file for it, and every average has the shape of the window of the first
    file opened, whose transform and CRS are the ones returned. *)
Theorem winter_averages_one_reference :
  forall (fs : string -> raster) (file_paths : Catalog.paths_t) (months : list nat),
  exists averages t c,
    Sundex.compute_winter_averages fs file_paths months = Ok (averages, t, c) /\
    (forall var, averages var = None <-> opened_months (file_paths var) months = []) /\
    match opened_in file_paths all_vars months with
    | [] => t = None /\ c = None
    | first :: _ =>
        t = Some (window_transform (fs first)) /\ c = Some (src_crs (fs first)) /\
        forall var avg, averages var = Some avg ->
                        gshape avg = gshape (window_data (fs first))
    end.
Proof.
  intros fs file_paths months. unfold Sundex.compute_winter_averages.
  destruct (SundexFacts.vars_fresh fs file_paths months all_vars
              (Sundex.mkavg no_averages None None None)) as (st & Hrun & Hst).
  { now repeat split. }
  rewrite Hrun. cbn [mbind result_bind].
  exists (Sundex.av_averages st), (Sundex.av_transform st), (Sundex.av_crs st).
  split; [reflexivity|]. split.
  - intros var.
    apply (SundexFacts.vars_keys fs file_paths months all_vars _ _ all_vars_nodup Hrun);
      [apply in_all_vars|reflexivity].
  - destruct (opened_in file_paths all_vars months) as [|first rest].
    + destruct Hst as (Ht & Hc & _). auto.
    + destruct Hst as (Ht & Hc & _ & Hav). auto.
Qed.

(** *** The two loaders side by side *)

Section Simulation.

Variable fs : string -> raster.
Variable file_paths : Catalog.paths_t.

Lemma months_simulation var months : forall st arrs,
  List.NoDup months ->
  (forall m, In m months -> dict_get (ls_data st var) m = None) ->
  let st' := fold_left (SundexV2.load_month fs var (file_paths var)) months st in
  fold_left (Sundex.load_month fs (file_paths var)) months
    (arrs, ls_transform st, ls_crs st, ls_target_shape st)
  = ((arrs ++ month_arrays (ls_data st' var) months)%list,
     ls_transform st', ls_crs st', ls_target_shape st') /\
  (forall v, v <> var -> ls_data st' v = ls_data st v) /\
  (forall m, ~ In m months -> dict_get (ls_data st' var) m = dict_get (ls_data st var) m).
Proof.
  induction months as [|m months IH]; intros st arrs Hnd Hnone.
  - simpl. rewrite app_nil_r. auto.
  - apply List.NoDup_cons_iff in Hnd as [Hm Hnd].
    cbn [fold_left]. cbv zeta.
    set (st1 := SundexV2.load_month fs var (file_paths var) st m).
    assert (H1 : Sundex.load_month fs (file_paths var)
                   (arrs, ls_transform st, ls_crs st, ls_target_shape st) m
                 = ((arrs ++ month_arrays (ls_data st1 var) [m])%list,
                    ls_transform st1, ls_crs st1, ls_target_shape st1) /\
                 (forall v, v <> var -> ls_data st1 v = ls_data st v) /\
                 (forall m', m' <> m ->
                    dict_get (ls_data st1 var) m' = dict_get (ls_data st var) m')).
    { unfold st1, Sundex.load_month, SundexV2.load_month, month_arrays. cbn [flat_map].
      destruct (file_paths var !! m) as [filepath|].
      - destruct (SundexV2.load_raster_wa fs filepath (ls_target_shape st))
          as [[data t] c].
        assert (Hget : dict_get (md_set (ls_data st) var m data var) m = Some data).
        { unfold md_set. destruct (decide (var = var)); [|contradiction].
          rewrite dict_get_set. now rewrite Nat.eqb_refl. }
        assert (Hv : forall v, v <> var -> md_set (ls_data st) var m data v = ls_data st v).
        { intros v Hv. unfold md_set. now destruct (decide (v = var)). }
        assert (Hm' : forall m', m' <> m ->
                  dict_get (md_set (ls_data st) var m data var) m'
                  = dict_get (ls_data st var) m').
        { intros m' Hne. unfold md_set. destruct (decide (var = var)); [|contradiction].
          rewrite dict_get_set. destruct (Nat.eqb_spec m m'); [congruence|reflexivity]. }
        destruct (ls_transform st); cbn [ls_data ls_transform ls_crs ls_target_shape];
          rewrite Hget, app_nil_r; auto.
      - rewrite (Hnone m (or_introl eq_refl)), !app_nil_r. auto. }
    destruct H1 as (Hstep & Hother1 & Hkeep1). rewrite Hstep.
    destruct (IH st1 (arrs ++ month_arrays (ls_data st1 var) [m])%list Hnd)
      as (Hfold & Hother & Hkeep).
    { intros m' Hin. rewrite Hkeep1 by (intros ->; contradiction).
      apply Hnone. now right. }
    cbv zeta in Hfold, Hother, Hkeep. rewrite Hfold. split; [|split].
    + f_equal. f_equal. f_equal. rewrite <- app_assoc. f_equal.
      unfold month_arrays. cbn [flat_map]. rewrite app_nil_r.
      now rewrite (Hkeep m Hm).
    + intros v Hv. rewrite Hother by exact Hv. now apply Hother1.
    + intros m' Hm'. rewrite Hkeep by (intros H; apply Hm'; now right).
      apply Hkeep1. intros ->. apply Hm'. now left.
Qed.

Lemma vars_simulation months vars : forall st sst sst',
  List.NoDup months -> List.NoDup vars ->
  (forall v, In v vars -> ls_data st v = []) ->
  Sundex.av_transform sst = ls_transform st ->
  Sundex.av_crs sst = ls_crs st ->
  Sundex.av_target_shape sst = ls_target_shape st ->
  for_each (Sundex.compute_var fs file_paths months) vars sst = Ok sst' ->
  let stF := fold_left (load_var_over fs file_paths months) vars st in
  Sundex.av_transform sst' = ls_transform stF /\
  Sundex.av_crs sst' = ls_crs stF /\
  Sundex.av_target_shape sst' = ls_target_shape stF /\
  (forall v, ~ In v vars -> ls_data stF v = ls_data st v) /\
  (forall v, In v vars ->
     match month_arrays (ls_data stF v) months with
     | [] => Sundex.av_averages sst' v = Sundex.av_averages sst v
     | a :: arrs =>
         exists avg, nanmean_stack (a :: arrs) = Ok avg /\
                     Sundex.av_averages sst' v = Some avg
     end).
Proof.
  induction vars as [|var vars IH]; intros st sst sst' Hndm Hndv Hempty Ht Hc Hs Hrun.
  - injection Hrun as <-. simpl. repeat split; auto. intros v [].
  - apply List.NoDup_cons_iff in Hndv as [Hvar Hndv].
    rewrite for_each_cons in Hrun. apply bind_ok in Hrun as (sst1 & Hstep & Hrun).
    cbn [fold_left]. cbv zeta.
    set (st1 := load_var_over fs file_paths months st var).
    destruct (months_simulation var months st [] Hndm) as (Hfold & Hother & Hkeep).
    { intros m _. now rewrite (Hempty var (or_introl eq_refl)). }
    cbv zeta in Hfold, Hother, Hkeep. fold (load_var_over fs file_paths months st var) in Hfold, Hother, Hkeep.
    fold st1 in Hfold, Hother, Hkeep. cbn [app] in Hfold.
    pose proof (SundexFacts.compute_var_keys fs file_paths months sst var sst1 Hstep)
      as [Hkeys1 _].
    unfold Sundex.compute_var in Hstep. rewrite Ht, Hc, Hs, Hfold in Hstep.
    assert (Hfields : Sundex.av_transform sst1 = ls_transform st1 /\
                      Sundex.av_crs sst1 = ls_crs st1 /\
                      Sundex.av_target_shape sst1 = ls_target_shape st1 /\
                      match month_arrays (ls_data st1 var) months with
                      | [] => Sundex.av_averages sst1 var = Sundex.av_averages sst var
                      | a :: arrs =>
                          exists avg, nanmean_stack (a :: arrs) = Ok avg /\
                                      Sundex.av_averages sst1 var = Some avg
                      end).
    { destruct (month_arrays (ls_data st1 var) months) as [|a arrs].
      - injection Hstep as <-. auto.
      - apply bind_ok in Hstep as (avg & Havg & Hstep). injection Hstep as <-.
        repeat split; auto. exists avg. split; [exact Havg|].
        cbn [Sundex.av_averages]. unfold averages_set.
        now destruct (decide (var = var)). }
    destruct Hfields as (Ht1 & Hc1 & Hs1 & Hvar1).
    destruct (IH st1 sst1 sst' Hndm Hndv) as (HtF & HcF & HsF & HoutF & HinF); auto.
    { intros v Hv. rewrite Hother by (intros ->; contradiction).
      apply Hempty. now right. }
    cbv zeta in HtF, HcF, HsF, HoutF, HinF.
    pose proof (SundexFacts.vars_keys fs file_paths months vars sst1 sst' Hndv Hrun)
      as [Hkeys _].
    repeat split; auto.
    + intros v Hv. rewrite HoutF by (intros H; apply Hv; now right).
      apply Hother. intros ->. apply Hv. now left.
    + intros v [<-|Hin].
      * rewrite HoutF by exact Hvar. rewrite Hkeys by exact Hvar. exact Hvar1.
      * specialize (HinF v Hin).
        rewrite Hkeys1 in HinF by (intros ->; contradiction). exact HinF.
Qed.

End Simulation.

Lemma winter_months_nodup : List.NoDup Sundex.WINTER_MONTHS.
Proof.
  unfold Sundex.WINTER_MONTHS. repeat constructor; simpl; intuition discriminate.
Qed.

Lemma winter_avg_var_step md w v (o : option grid) :
  match month_arrays (md v) Sundex.WINTER_MONTHS with
  | [] => o = None
  | a :: arrs => exists avg, nanmean_stack (a :: arrs) = Ok avg /\ o = Some avg
  end ->
  w v = None ->
  exists w', SundexV2Map.winter_avg_var md w v = Ok w' /\
             (forall u, u <> v -> w' u = w u) /\ w' v = o.
Proof.
  intros H Hw. unfold SundexV2Map.winter_avg_var.
  change (map fst WINTER_MONTHS) with Sundex.WINTER_MONTHS.
  destruct (month_arrays (md v) Sundex.WINTER_MONTHS) as [|a arrs].
  - exists w. subst o. auto.
  - destruct H as (avg & -> & ->). eexists. split; [reflexivity|].
    unfold averages_set. split.
    + intros u Hu. now destruct (decide (u = v)).
    + now destruct (decide (v = v)).
Qed.

(** X6. The winter averages that [create_map] of sundex_v2.py takes from the
    loaded monthly data are the averages [compute_winter_averages] of
    sundex.py computes from the same catalog and files, variable by variable,
    and neither computation raises; the transform and the CRS of the two runs
    are the same. *)
Theorem v2_winter_avg_is_sundex_average :
  forall (fs : string -> raster) (file_paths : Catalog.paths_t),
  exists averages t c winter_avg,
    Sundex.compute_winter_averages fs file_paths Sundex.WINTER_MONTHS
      = Ok (averages, t, c) /\
    SundexV2Map.winter_avg (ls_data (SundexV2.load_monthly_data fs file_paths))
      = Ok winter_avg /\
    (forall var, winter_avg var = averages var) /\
    t = ls_transform (SundexV2.load_monthly_data fs file_paths) /\
    c = ls_crs (SundexV2.load_monthly_data fs file_paths).
Proof.
  intros fs file_paths. unfold Sundex.compute_winter_averages.
  destruct (SundexFacts.vars_fresh fs file_paths Sundex.WINTER_MONTHS all_vars
              (Sundex.mkavg no_averages None None None)) as (sst & Hrun & _).
  { now repeat split. }
  rewrite Hrun. cbn [mbind result_bind].
  destruct (vars_simulation fs file_paths Sundex.WINTER_MONTHS all_vars
              (mkload md_empty None None None)
              (Sundex.mkavg no_averages None None None) sst
              winter_months_nodup all_vars_nodup (fun _ _ => eq_refl)
              eq_refl eq_refl eq_refl Hrun) as (Ht & Hc & _ & _ & Hin).
  cbv zeta in Ht, Hc, Hin.
  change (fold_left (load_var_over fs file_paths Sundex.WINTER_MONTHS) all_vars
            (mkload md_empty None None None))
    with (SundexV2.load_monthly_data fs file_paths) in Ht, Hc, Hin.
  set (md := ls_data (SundexV2.load_monthly_data fs file_paths)) in *.
  assert (Hstep : forall v,
            match month_arrays (md v) Sundex.WINTER_MONTHS with
            | [] => Sundex.av_averages sst v = None
            | a :: arrs => exists avg, nanmean_stack (a :: arrs) = Ok avg /\
                                       Sundex.av_averages sst v = Some avg
            end).
  { intros v. exact (Hin v (in_all_vars v)). }
  exists (Sundex.av_averages sst), (Sundex.av_transform sst), (Sundex.av_crs sst).
  unfold SundexV2Map.winter_avg.
  destruct (winter_avg_var_step md no_averages Soltrans _ (Hstep Soltrans) eq_refl)
    as (w1 & E1 & O1 & V1).
  destruct (winter_avg_var_step md w1 Ppt _ (Hstep Ppt)) as (w2 & E2 & O2 & V2).
  { now rewrite O1. }
  destruct (winter_avg_var_step md w2 Tmean _ (Hstep Tmean)) as (w3 & E3 & O3 & V3).
  { now rewrite O2, O1. }
  destruct (winter_avg_var_step md w3 Tdmean _ (Hstep Tdmean)) as (w4 & E4 & O4 & V4).
  { now rewrite O3, O2, O1. }
  exists w4. split; [reflexivity|]. split.
  { rewrite for_each_cons, E1. cbn [mbind result_bind].
    rewrite for_each_cons, E2. cbn [mbind result_bind].
    rewrite for_each_cons, E3. cbn [mbind result_bind].
    rewrite for_each_cons, E4. reflexivity. }
  split; [|split; assumption].
  intros [| | |].
  - now rewrite O4, O3, V2.
  - now rewrite O4, O3, O2, V1.
  - now rewrite O4, V3.
  - exact V4.
Qed.

(** ** The composite index (sundex.py) *)

Lemma at_nd_map f a i j : at_ (nd_map f a) i j = f (at_ a i j).
Proof. now destruct a. Qed.

Lemma gzip_cell f a b c i j :
  gzip f a b = Ok c -> cell c i j = f (bcell a i j) (bcell b i j).
Proof.
  unfold gzip.
  destruct (bdim (nrows a) (nrows b)); [|discriminate].
  destruct (bdim (ncols a) (ncols b)); [|discriminate].
  intros H. now injection H as <-.
Qed.

(** A property of every cell of the operands passes to every cell of the
    result. *)
Lemma nd_zip_cells (P Q S : sample -> Prop) f a b c :
  (forall u v, P u -> Q v -> S (f u v)) ->
  nd_zip f a b = Ok c ->
  (forall i j, P (at_ a i j)) -> (forall i j, Q (at_ b i j)) ->
  forall i j, S (at_ c i j).
Proof.
  intros Hf Hz Ha Hb i j. destruct a as [u|g], b as [v|h]; simpl in Hz.
  - injection Hz as <-. simpl. apply Hf; [apply (Ha 0%nat 0%nat)|apply (Hb 0%nat 0%nat)].
  - injection Hz as <-. simpl. apply Hf; [apply (Ha 0%nat 0%nat)|apply Hb].
  - injection Hz as <-. simpl. apply Hf; [apply Ha|apply (Hb 0%nat 0%nat)].
  - apply bind_ok in Hz as (c' & Hg & Hz). injection Hz as <-. simpl.
    rewrite (gzip_cell _ _ _ _ i j Hg). apply Hf; [apply Ha|apply Hb].
Qed.

Lemma within_clip x lo hi : lo <= hi -> within lo hi (Fin (clip x lo hi)).
Proof. intros H. simpl. now apply clip_bounds. Qed.

Lemma within_smap (f : R -> R) lo hi s :
  (forall x, lo <= f x <= hi) -> within lo hi (smap f s).
Proof. intros H. destruct s; simpl; auto. Qed.

Lemma solar_idx_of_range x : 0 <= Sundex.solar_idx_of x <= 100.
Proof. unfold Sundex.solar_idx_of. apply clip_bounds. lra. Qed.

Lemma precip_idx_of_range x : 0 <= Sundex.precip_idx_of x <= 100.
Proof.
  unfold Sundex.precip_idx_of.
  pose proof (clip_bounds (x / 2) 0 100 ltac:(lra)). lra.
Qed.

Lemma humidity_factor_of_range x : 0 <= Sundex.humidity_factor_of x <= 50.
Proof. unfold Sundex.humidity_factor_of. apply clip_bounds. lra. Qed.

Lemma temp_factor_of_range x : 0 <= Sundex.temp_factor_of x <= 50.
Proof.
  unfold Sundex.temp_factor_of.
  destruct (Rlt_dec 0 x); [destruct (Rlt_dec x 7)|]; apply clip_bounds; lra.
Qed.

Lemma within_sadd a b lo1 hi1 lo2 hi2 :
  within lo1 hi1 a -> within lo2 hi2 b -> within (lo1 + lo2) (hi1 + hi2) (sadd a b).
Proof. destruct a, b; simpl; auto. lra. Qed.

Lemma within_scale k lo hi s :
  0 <= k -> within lo hi s -> within (k * lo) (k * hi) (smap (fun x => k * x) s).
Proof. intros Hk. destruct s; simpl; auto. nra. Qed.

Lemma within_weaken lo hi lo' hi' s :
  lo' <= lo -> hi <= hi' -> within lo hi s -> within lo' hi' s.
Proof. destruct s; simpl; auto. lra. Qed.

Module ComputeSundexFacts.
Import Sundex.

Lemma solar_idx_within averages i j :
  let solar_idx :=
    match averages Soltrans with
    | Some soltrans => Arr2 (emap (smap solar_idx_of) soltrans)
    | None => full_like_50 (averages Ppt)
    end in
  within 0 100 (at_ solar_idx i j).
Proof.
  cbv zeta. destruct (averages Soltrans) as [g|].
  - simpl. apply within_smap, solar_idx_of_range.
  - unfold full_like_50. destruct (averages Ppt); simpl; lra.
Qed.

Lemma precip_idx_within averages solar_idx i j :
  let precip_idx :=
    match averages Ppt with
    | Some ppt => Arr2 (emap (smap precip_idx_of) ppt)
    | None => nd_map (fun _ => Fin 50) solar_idx
    end in
  within 0 100 (at_ precip_idx i j).
Proof.
  cbv zeta. destruct (averages Ppt) as [g|].
  - simpl. apply within_smap, precip_idx_of_range.
  - rewrite at_nd_map. simpl. lra.
Qed.

Lemma comfort_idx_within averages solar_idx comfort_idx i j :
  match averages Tmean, averages Tdmean with
  | Some tmean, Some tdmean =>
      dewpoint_spread ← gzip (smap2 Rminus) tmean tdmean;
      let humidity_factor := emap (smap humidity_factor_of) dewpoint_spread in
      let temp_factor := emap (smap temp_factor_of) tmean in
      comfort ← gzip sadd humidity_factor temp_factor;
      Ok (Arr2 comfort)
  | _, _ => Ok (nd_map (fun _ => Fin 50) solar_idx)
  end = Ok comfort_idx ->
  within 0 100 (at_ comfort_idx i j).
Proof.
  assert (Hdef : forall c, Ok (nd_map (fun _ => Fin 50) solar_idx) = Ok c ->
                           within 0 100 (at_ c i j)).
  { intros c H. injection H as <-. rewrite at_nd_map. simpl. lra. }
  destruct (averages Tmean) as [tmean|]; [|apply Hdef].
  destruct (averages Tdmean) as [tdmean|]; [|apply Hdef].
  intros H. apply bind_ok in H as (spread & _ & H).
  apply bind_ok in H as (comfort & Hc & H). injection H as <-. simpl.
  rewrite (gzip_cell _ _ _ _ i j Hc).
  apply (within_weaken (0 + 0) (50 + 50)); [lra|lra|].
  apply within_sadd; unfold bcell; simpl.
  - apply within_smap, humidity_factor_of_range.
  - apply within_smap, temp_factor_of_range.
Qed.

End ComputeSundexFacts.

(** X7. Every cell of the four grids [compute_sundex] returns (the solar,
    precipitation and comfort indices and the composite) is missing or lies
    between 0 and 100, whatever the averages hold and whichever variables are
    absent. *)
Theorem sundex_indices_between_0_and_100 :
  forall (averages : averages_t) (m : Sundex.metrics) (i j : nat),
  Sundex.compute_sundex averages = Ok m ->
  within 0 100 (at_ (Sundex.solar_idx m) i j) /\
  within 0 100 (at_ (Sundex.precip_idx m) i j) /\
  within 0 100 (at_ (Sundex.comfort_idx m) i j) /\
  within 0 100 (at_ (Sundex.sundex m) i j).
Proof.
  intros averages m i j H. unfold Sundex.compute_sundex in H.
  apply bind_ok in H as (comfort & Hcomfort & H).
  apply bind_ok in H as (weighted & Hw & H).
  apply bind_ok in H as (sx & Hsx & H). injection H as <-. cbn [Sundex.solar_idx
    Sundex.precip_idx Sundex.comfort_idx Sundex.sundex].
  pose proof (ComputeSundexFacts.solar_idx_within averages) as Hs. cbv zeta in Hs.
  pose proof (fun i j => ComputeSundexFacts.precip_idx_within averages
    match averages Soltrans with
    | Some soltrans => Arr2 (emap (smap Sundex.solar_idx_of) soltrans)
    | None => Sundex.full_like_50 (averages Ppt)
    end i j) as Hp. cbv zeta in Hp.
  pose proof (fun i j => ComputeSundexFacts.comfort_idx_within averages _ comfort i j Hcomfort)
    as Hc.
  split; [apply Hs|]. split; [apply Hp|]. split; [apply Hc|].
  apply (within_weaken (0.45 * 0 + 0.30 * 0 + 0.25 * 0)
           (0.45 * 100 + 0.30 * 100 + 0.25 * 100)); [lra|lra|].
  apply (nd_zip_cells (within (0.45 * 0 + 0.30 * 0) (0.45 * 100 + 0.30 * 100))
           (within (0.25 * 0) (0.25 * 100)) _ _ _ _ _
           (fun u v => within_sadd u v _ _ _ _) Hsx).
  - apply (nd_zip_cells (within (0.45 * 0) (0.45 * 100))
             (within (0.30 * 0) (0.30 * 100)) _ _ _ _ _
             (fun u v => within_sadd u v _ _ _ _) Hw).
    + intros i' j'. rewrite at_nd_map. apply within_scale; [lra|apply Hs].
    + intros i' j'. rewrite at_nd_map. apply within_scale; [lra|apply Hp].
  - intros i' j'. rewrite at_nd_map. apply within_scale; [lra|apply Hc].
Qed.

Lemma sundex_indices_between_0_and_100_witness :
  exists m,
    Sundex.compute_sundex one_cell_averages = Ok m /\
    within 0 100 (at_ (Sundex.solar_idx m) 0 0) /\
    within 0 100 (at_ (Sundex.precip_idx m) 0 0) /\
    within 0 100 (at_ (Sundex.comfort_idx m) 0 0) /\
    within 0 100 (at_ (Sundex.sundex m) 0 0).
Proof.
  eexists. split; [reflexivity|].
  exact (sundex_indices_between_0_and_100 one_cell_averages _ 0%nat 0%nat eq_refl).
Defined.

Lemma gzip_same_shape f a b sh :
  gshape a = sh -> gshape b = sh -> exists c, gzip f a b = Ok c /\ gshape c = sh.
Proof.
  intros Ha Hb. unfold gzip.
  apply shape_eq_inv in Ha as [Har Hac]. apply shape_eq_inv in Hb as [Hbr Hbc].
  assert (Hr : bdim (nrows a) (nrows b) = Some (fst sh)) by (rewrite Har, Hbr; apply bdim_same).
  assert (Hc : bdim (ncols a) (ncols b) = Some (snd sh)) by (rewrite Hac, Hbc; apply bdim_same).
  rewrite Hr, Hc. eexists. split; [reflexivity|]. now destruct sh.
Qed.

Lemma nd_zip_scalar_or_shape f a b sh :
  scalar_or_shape sh a -> scalar_or_shape sh b ->
  exists c, nd_zip f a b = Ok c /\ scalar_or_shape sh c /\
            (forall g, a = Arr2 g \/ b = Arr2 g -> has_shape c sh).
Proof.
  intros Ha Hb. destruct a as [u|g], b as [v|h]; simpl in *.
  - eexists. split; [reflexivity|]. split; [exact I|]. intros g [H|H]; discriminate.
  - eexists. split; [reflexivity|]. split; [exact Hb|]. intros _ _.
    eexists. split; [reflexivity|exact Hb].
  - eexists. split; [reflexivity|]. split; [exact Ha|]. intros _ _.
    eexists. split; [reflexivity|exact Ha].
  - destruct (gzip_same_shape f g h sh Ha Hb) as (c & -> & Hc). simpl.
    eexists. split; [reflexivity|]. split; [exact Hc|]. intros _ _.
    eexists. split; [reflexivity|exact Hc].
Qed.

Lemma scalar_or_shape_nd_map f a sh :
  scalar_or_shape sh a -> scalar_or_shape sh (nd_map f a).
Proof. now destruct a. Qed.

Lemma has_shape_nd_map f a sh : has_shape a sh -> has_shape (nd_map f a) sh.
Proof. intros (g & -> & H). eexists. split; [reflexivity|exact H]. Qed.

Lemma has_shape_scalar_or a sh : has_shape a sh -> scalar_or_shape sh a.
Proof. now intros (g & -> & H). Qed.

Lemma sundex_cell_nan s p t td :
  Sundex.sundex_cell s p t td = NaN <-> s = NaN \/ p = NaN \/ t = NaN \/ td = NaN.
Proof.
  unfold Sundex.sundex_cell.
  destruct s, p, t, td; simpl; split; auto; try discriminate;
    intros [H|[H|[H|H]]]; discriminate.
Qed.

Lemma compute_sundex_complete averages gs gp gt gd sh :
  averages Soltrans = Some gs -> averages Ppt = Some gp ->
  averages Tmean = Some gt -> averages Tdmean = Some gd ->
  gshape gs = sh -> gshape gp = sh -> gshape gt = sh -> gshape gd = sh ->
  exists m,
    Sundex.compute_sundex averages = Ok m /\
    has_shape (Sundex.sundex m) sh /\
    forall i j, (i < fst sh)%nat -> (j < snd sh)%nat ->
      at_ (Sundex.sundex m) i j
      = Sundex.sundex_cell (cell gs i j) (cell gp i j) (cell gt i j) (cell gd i j) /\
      at_ (Sundex.comfort_idx m) i j
      = sadd (smap Sundex.humidity_factor_of (smap2 Rminus (cell gt i j) (cell gd i j)))
             (smap Sundex.temp_factor_of (cell gt i j)).
Proof.
  intros Es Ep Et Ed Hs Hp Ht Hd.
  unfold Sundex.compute_sundex. rewrite Es, Ep, Et, Ed.
  destruct (gzip_same_shape (smap2 Rminus) gt gd sh Ht Hd) as (spread & Espread & Hspread).
  rewrite Espread. cbn [mbind result_bind].
  destruct (gzip_same_shape sadd (emap (smap Sundex.humidity_factor_of) spread)
              (emap (smap Sundex.temp_factor_of) gt) sh Hspread Ht)
    as (comfort & Ecomfort & Hcomfort).
  rewrite Ecomfort. cbn [mbind result_bind nd_map nd_zip].
  destruct (gzip_same_shape sadd
              (emap (smap (fun x => 0.45 * x)) (emap (smap Sundex.solar_idx_of) gs))
              (emap (smap (fun x => 0.30 * x)) (emap (smap Sundex.precip_idx_of) gp))
              sh Hs Hp) as (weighted & Eweighted & Hweighted).
  rewrite Eweighted. cbn [mbind result_bind nd_map nd_zip].
  destruct (gzip_same_shape sadd weighted (emap (smap (fun x => 0.25 * x)) comfort)
              sh Hweighted Hcomfort) as (sx & Esx & Hsx).
  rewrite Esx. cbn [mbind result_bind].
  eexists. split; [reflexivity|]. cbn [Sundex.sundex Sundex.comfort_idx].
  split; [eexists; split; [reflexivity|exact Hsx]|].
  intros i j Hi Hj.
  apply shape_eq_inv in Hs as [Hsr Hsc]. apply shape_eq_inv in Hp as [Hpr Hpc].
  apply shape_eq_inv in Ht as [Htr Htc]. apply shape_eq_inv in Hd as [Hdr Hdc].
  apply shape_eq_inv in Hspread as [Hspr Hspc].
  apply shape_eq_inv in Hcomfort as [Hcr Hcc].
  apply shape_eq_inv in Hweighted as [Hwr Hwc].
  assert (Hc : cell comfort i j
               = sadd (smap Sundex.humidity_factor_of
                         (smap2 Rminus (cell gt i j) (cell gd i j)))
                      (smap Sundex.temp_factor_of (cell gt i j))).
  { rewrite (gzip_cell _ _ _ _ i j Ecomfort).
    rewrite !bcell_in_range by (cbn [emap nrows ncols]; lia).
    cbn [emap cell]. rewrite (gzip_cell _ _ _ _ i j Espread).
    now rewrite !bcell_in_range by lia. }
  split; [|exact Hc].
  cbn [at_]. rewrite (gzip_cell _ _ _ _ i j Esx).
  rewrite !bcell_in_range by (cbn [emap nrows ncols]; lia).
  cbn [emap cell]. rewrite Hc, (gzip_cell _ _ _ _ i j Eweighted).
  now rewrite !bcell_in_range by (cbn [emap nrows ncols]; lia).
Qed.

(** X8. With the four averages present and of one shape, [compute_sundex]
    returns a composite of that shape.  A cell of the composite is missing
    exactly when one of its four samples is; otherwise it is
    [0.45 * solar + 0.30 * precip + 0.25 * comfort] of the cell's own
    samples. *)
Theorem sundex_of_complete_averages :
  forall (averages : averages_t) (soltrans ppt tmean tdmean : grid) (sh : shape),
  averages Soltrans = Some soltrans -> averages Ppt = Some ppt ->
  averages Tmean = Some tmean -> averages Tdmean = Some tdmean ->
  gshape soltrans = sh -> gshape ppt = sh -> gshape tmean = sh -> gshape tdmean = sh ->
  exists m,
    Sundex.compute_sundex averages = Ok m /\
    has_shape (Sundex.sundex m) sh /\
    forall i j, (i < fst sh)%nat -> (j < snd sh)%nat ->
      at_ (Sundex.sundex m) i j
      = Sundex.sundex_cell (cell soltrans i j) (cell ppt i j) (cell tmean i j)
          (cell tdmean i j) /\
      (at_ (Sundex.sundex m) i j = NaN <->
       cell soltrans i j = NaN \/ cell ppt i j = NaN \/
       cell tmean i j = NaN \/ cell tdmean i j = NaN).
Proof.
  intros averages gs gp gt gd sh Es Ep Et Ed Hs Hp Ht Hd.
  destruct (compute_sundex_complete averages gs gp gt gd sh Es Ep Et Ed Hs Hp Ht Hd)
    as (m & Hm & Hshape & Hcells).
  exists m. split; [exact Hm|]. split; [exact Hshape|].
  intros i j Hi Hj. destruct (Hcells i j Hi Hj) as [Hcell _].
  split; [exact Hcell|]. rewrite Hcell. apply sundex_cell_nan.
Qed.

Lemma sundex_of_complete_averages_witness :
  exists m,
    Sundex.compute_sundex one_cell_averages = Ok m /\
    has_shape (Sundex.sundex m) (1%nat, 1%nat) /\
    at_ (Sundex.sundex m) 0 0
    = Sundex.sundex_cell (Fin 0.5) (Fin 120) (Fin 4) (Fin 1).
Proof.
  destruct (sundex_of_complete_averages one_cell_averages
              (one_cell (Fin 0.5)) (one_cell (Fin 120)) (one_cell (Fin 4))
              (one_cell (Fin 1)) (1%nat, 1%nat)
              eq_refl eq_refl eq_refl eq_refl eq_refl eq_refl eq_refl eq_refl)
    as (m & Hm & Hshape & Hcells).
  exists m. split; [exact Hm|]. split; [exact Hshape|].
  exact (proj1 (Hcells 0%nat 0%nat ltac:(simpl; lia) ltac:(simpl; lia))).
Defined.

Lemma clip_monotone x y lo hi : x <= y -> clip x lo hi <= clip y lo hi.
Proof.
  intros H. unfold clip. now apply Rle_min_compat_r, Rle_max_compat_r.
Qed.

(** X9. More sun, less precipitation and a lower dew point never lower the
    composite: between two complete sets of averages of one shape, at a cell
    where the mean temperature is the same, the solar transmittance is not
    smaller, and the precipitation and the dew point are not larger, the
    composite is not smaller. *)
Theorem sundex_monotone :
  forall (averages averages' : averages_t)
         (soltrans ppt tmean tdmean soltrans' ppt' tmean' tdmean' : grid) (sh : shape)
         (m m' : Sundex.metrics) (i j : nat) (s p t d s' p' d' : R),
  averages Soltrans = Some soltrans -> averages Ppt = Some ppt ->
  averages Tmean = Some tmean -> averages Tdmean = Some tdmean ->
  averages' Soltrans = Some soltrans' -> averages' Ppt = Some ppt' ->
  averages' Tmean = Some tmean' -> averages' Tdmean = Some tdmean' ->
  gshape soltrans = sh -> gshape ppt = sh -> gshape tmean = sh -> gshape tdmean = sh ->
  gshape soltrans' = sh -> gshape ppt' = sh -> gshape tmean' = sh -> gshape tdmean' = sh ->
  Sundex.compute_sundex averages = Ok m ->
  Sundex.compute_sundex averages' = Ok m' ->
  (i < fst sh)%nat -> (j < snd sh)%nat ->
  cell soltrans i j = Fin s -> cell ppt i j = Fin p ->
  cell tmean i j = Fin t -> cell tdmean i j = Fin d ->
  cell soltrans' i j = Fin s' -> cell ppt' i j = Fin p' ->
  cell tmean' i j = Fin t -> cell tdmean' i j = Fin d' ->
  s <= s' -> p' <= p -> d' <= d ->
  exists x x',
    at_ (Sundex.sundex m) i j = Fin x /\ at_ (Sundex.sundex m') i j = Fin x' /\ x <= x'.
Proof.
  intros averages averages' gs gp gt gd gs' gp' gt' gd' sh m m' i j s p t d s' p' d'
    Es Ep Et Ed Es' Ep' Et' Ed' Hs Hp Ht Hd Hs' Hp' Ht' Hd' Hm Hm' Hi Hj
    Cs Cp Ct Cd Cs' Cp' Ct' Cd' Hss Hpp Hdd.
  destruct (compute_sundex_complete averages gs gp gt gd sh Es Ep Et Ed Hs Hp Ht Hd)
    as (m1 & Hm1 & _ & Hcells).
  destruct (compute_sundex_complete averages' gs' gp' gt' gd' sh Es' Ep' Et' Ed'
              Hs' Hp' Ht' Hd') as (m2 & Hm2 & _ & Hcells').
  rewrite Hm in Hm1. injection Hm1 as <-. rewrite Hm' in Hm2. injection Hm2 as <-.
  destruct (Hcells i j Hi Hj) as [-> _]. destruct (Hcells' i j Hi Hj) as [-> _].
  rewrite Cs, Cp, Ct, Cd, Cs', Cp', Ct', Cd'. unfold Sundex.sundex_cell. cbn [smap smap2 sadd].
  eexists. eexists. split; [reflexivity|]. split; [reflexivity|].
  pose proof (clip_monotone (s * 100) (s' * 100) 0 100 ltac:(lra)).
  pose proof (clip_monotone (p' / 2) (p / 2) 0 100 ltac:(lra)).
  pose proof (clip_monotone ((t - d) / 15 * 50) ((t - d') / 15 * 50) 0 50 ltac:(lra)).
  unfold Sundex.solar_idx_of, Sundex.precip_idx_of, Sundex.humidity_factor_of. lra.
Qed.

Lemma sundex_monotone_witness :
  exists m m' x x',
    Sundex.compute_sundex one_cell_averages = Ok m /\
    Sundex.compute_sundex one_cell_averages_drier = Ok m' /\
    at_ (Sundex.sundex m) 0 0 = Fin x /\ at_ (Sundex.sundex m') 0 0 = Fin x' /\ x <= x'.
Proof.
  destruct (compute_sundex_complete one_cell_averages
              (one_cell (Fin 0.5)) (one_cell (Fin 120)) (one_cell (Fin 4))
              (one_cell (Fin 1)) (1%nat, 1%nat)
              eq_refl eq_refl eq_refl eq_refl eq_refl eq_refl eq_refl eq_refl)
    as (m & Hm & _).
  destruct (compute_sundex_complete one_cell_averages_drier
              (one_cell (Fin 0.6)) (one_cell (Fin 60)) (one_cell (Fin 4))
              (one_cell (Fin 0)) (1%nat, 1%nat)
              eq_refl eq_refl eq_refl eq_refl eq_refl eq_refl eq_refl eq_refl)
    as (m' & Hm' & _).
  destruct (sundex_monotone one_cell_averages one_cell_averages_drier
              (one_cell (Fin 0.5)) (one_cell (Fin 120)) (one_cell (Fin 4))
              (one_cell (Fin 1))
              (one_cell (Fin 0.6)) (one_cell (Fin 60)) (one_cell (Fin 4))
              (one_cell (Fin 0)) (1%nat, 1%nat) m m' 0%nat 0%nat 0.5 120 4 1 0.6 60 0
              eq_refl eq_refl eq_refl eq_refl eq_refl eq_refl eq_refl eq_refl
              eq_refl eq_refl eq_refl eq_refl eq_refl eq_refl eq_refl eq_refl
              Hm Hm' ltac:(simpl; lia) ltac:(simpl; lia)
              eq_refl eq_refl eq_refl eq_refl eq_refl eq_refl eq_refl eq_refl
              ltac:(lra) ltac:(lra) ltac:(lra))
    as (x & x' & Hx & Hx' & Hle).
  exists m, m', x, x'. auto.
Defined.

Lemma temp_factor_damp_chill t : 0 < t < 7 -> Sundex.temp_factor_of t <= 12.5.
Proof.
  intros [H0 H7]. unfold Sundex.temp_factor_of.
  destruct (Rlt_dec 0 t); [|lra]. destruct (Rlt_dec t 7); [|lra].
  assert (Habs : Rabs (t - 3.5) <= 3.5) by (apply Rabs_le; lra).
  pose proof (Rabs_pos (t - 3.5)).
  unfold clip, Rmin, Rmax.
  destruct (Rle_dec (30 - (7 - Rabs (t - 3.5)) * 5) 0); destruct (Rle_dec _ 50); lra.
Qed.

Lemma temp_factor_outside_zone t :
  t = 0 \/ 7 <= t <= 20 -> 30 <= Sundex.temp_factor_of t.
Proof.
  intros H. unfold Sundex.temp_factor_of.
  assert (Habs : Rabs (t - 10) <= 10) by (apply Rabs_le; lra).
  pose proof (Rabs_pos (t - 10)).
  assert (Hc : 30 <= clip (50 - Rabs (t - 10) * 2) 0 50).
  { unfold clip, Rmin, Rmax.
    destruct (Rle_dec (50 - Rabs (t - 10) * 2) 0); destruct (Rle_dec _ 50); lra. }
  destruct (Rlt_dec 0 t); [destruct (Rlt_dec t 7)|]; try exact Hc. lra.
Qed.

(** X10. The damp-chill penalty.  At a cell whose mean temperature is above
    0 C and below 7 C the comfort index is at most 62.5 and the composite at
    most 90.625, the temperature term being at most 12.5 there; at exactly
    0 C, and from 7 C to 20 C, the temperature term is at least 30. *)
Theorem damp_chill_penalty :
  (forall (averages : averages_t) (soltrans ppt tmean tdmean : grid) (sh : shape)
          (m : Sundex.metrics) (i j : nat) (t : R),
     averages Soltrans = Some soltrans -> averages Ppt = Some ppt ->
     averages Tmean = Some tmean -> averages Tdmean = Some tdmean ->
     gshape soltrans = sh -> gshape ppt = sh -> gshape tmean = sh -> gshape tdmean = sh ->
     Sundex.compute_sundex averages = Ok m ->
     (i < fst sh)%nat -> (j < snd sh)%nat ->
     cell tmean i j = Fin t -> 0 < t < 7 ->
     within 0 62.5 (at_ (Sundex.comfort_idx m) i j) /\
     within 0 90.625 (at_ (Sundex.sundex m) i j)) /\
  (forall t, 0 < t < 7 -> Sundex.temp_factor_of t <= 12.5) /\
  (forall t, t = 0 \/ 7 <= t <= 20 -> 30 <= Sundex.temp_factor_of t).
Proof.
  split; [|split; [exact temp_factor_damp_chill|exact temp_factor_outside_zone]].
  intros averages gs gp gt gd sh m i j t Es Ep Et Ed Hs Hp Ht Hd Hm Hi Hj Ct Hzone.
  destruct (compute_sundex_complete averages gs gp gt gd sh Es Ep Et Ed Hs Hp Ht Hd)
    as (m1 & Hm1 & _ & Hcells).
  rewrite Hm in Hm1. injection Hm1 as <-.
  destruct (Hcells i j Hi Hj) as [-> ->]. rewrite Ct. unfold Sundex.sundex_cell.
  pose proof (temp_factor_damp_chill t Hzone) as Htf.
  pose proof (temp_factor_of_range t) as Htr.
  destruct (cell gd i j) as [|d]; [simpl; split; [exact I|]|].
  { destruct (smap _ (cell gs i j)), (smap _ (cell gp i j)); exact I. }
  cbn [smap smap2 sadd].
  pose proof (humidity_factor_of_range (t - d)) as Hh.
  split; [simpl; lra|].
  destruct (cell gs i j) as [|s]; [exact I|].
  destruct (cell gp i j) as [|p]; [exact I|].
  cbn [smap smap2 sadd within].
  pose proof (solar_idx_of_range s). pose proof (precip_idx_of_range p). lra.
Qed.

Lemma damp_chill_penalty_witness :
  exists m,
    Sundex.compute_sundex one_cell_averages = Ok m /\
    within 0 62.5 (at_ (Sundex.comfort_idx m) 0 0) /\
    within 0 90.625 (at_ (Sundex.sundex m) 0 0).
Proof.
  destruct (compute_sundex_complete one_cell_averages
              (one_cell (Fin 0.5)) (one_cell (Fin 120)) (one_cell (Fin 4))
              (one_cell (Fin 1)) (1%nat, 1%nat)
              eq_refl eq_refl eq_refl eq_refl eq_refl eq_refl eq_refl eq_refl)
    as (m & Hm & _).
  exists m. split; [exact Hm|].
  exact (proj1 damp_chill_penalty one_cell_averages
           (one_cell (Fin 0.5)) (one_cell (Fin 120)) (one_cell (Fin 4))
           (one_cell (Fin 1)) (1%nat, 1%nat) m 0%nat 0%nat 4
           eq_refl eq_refl eq_refl eq_refl eq_refl eq_refl eq_refl eq_refl
           Hm ltac:(simpl; lia) ltac:(simpl; lia) eq_refl ltac:(lra)).
Defined.

(** X11. A variable that has no average counts as a neutral 50:
    [compute_sundex] fills the solar index with 50 when solar transmittance
    is absent, the precipitation index when precipitation is absent, and the
    comfort index when the mean temperature or the dew point is absent; with
    all of them absent the composite is the single value 50, not a grid. *)
Theorem absent_variables_count_as_50 :
  forall (averages : averages_t) (m : Sundex.metrics),
  Sundex.compute_sundex averages = Ok m ->
  (averages Soltrans = None -> forall i j, at_ (Sundex.solar_idx m) i j = Fin 50) /\
  (averages Ppt = None -> forall i j, at_ (Sundex.precip_idx m) i j = Fin 50) /\
  (averages Tmean = None \/ averages Tdmean = None ->
   forall i j, at_ (Sundex.comfort_idx m) i j = Fin 50) /\
  (averages Soltrans = None -> averages Ppt = None ->
   averages Tmean = None \/ averages Tdmean = None ->
   Sundex.sundex m = Arr0 (Fin 50)).
Proof.
  intros averages m H. unfold Sundex.compute_sundex in H.
  apply bind_ok in H as (comfort & Hcomfort & H).
  apply bind_ok in H as (weighted & Hw & H).
  apply bind_ok in H as (sx & Hsx & H). injection H as <-.
  cbn [Sundex.solar_idx Sundex.precip_idx Sundex.comfort_idx Sundex.sundex].
  assert (Hc50 : averages Tmean = None \/ averages Tdmean = None ->
                 comfort = nd_map (fun _ => Fin 50)
                             match averages Soltrans with
                             | Some soltrans => Arr2 (emap (smap Sundex.solar_idx_of) soltrans)
                             | None => Sundex.full_like_50 (averages Ppt)
                             end).
  { intros [Ht|Hd].
    - rewrite Ht in Hcomfort. now injection Hcomfort as <-.
    - rewrite Hd in Hcomfort. destruct (averages Tmean); now injection Hcomfort as <-. }
  split; [|split; [|split]].
  - intros Es i j. rewrite Es. unfold Sundex.full_like_50.
    now destruct (averages Ppt).
  - intros Ep i j. rewrite Ep. now rewrite at_nd_map.
  - intros Htd i j. rewrite (Hc50 Htd). now rewrite at_nd_map.
  - intros Es Ep Htd. rewrite (Hc50 Htd) in Hsx. rewrite Es, Ep in Hw, Hsx.
    cbn in Hw. injection Hw as <-. cbn in Hsx. injection Hsx as <-.
    f_equal. f_equal. lra.
Qed.

Lemma absent_variables_count_as_50_witness :
  exists m,
    Sundex.compute_sundex no_averages = Ok m /\ Sundex.sundex m = Arr0 (Fin 50).
Proof.
  eexists. split; [reflexivity|].
  exact (proj2 (proj2 (proj2 (absent_variables_count_as_50 no_averages _ eq_refl)))
           eq_refl eq_refl (or_introl eq_refl)).
Defined.

Lemma compute_sundex_returns averages sh :
  (forall var g, averages var = Some g -> gshape g = sh) ->
  exists m, Sundex.compute_sundex averages = Ok m /\
            scalar_or_shape sh (Sundex.sundex m) /\
            (averages Soltrans <> None \/ averages Ppt <> None ->
             has_shape (Sundex.sundex m) sh).
Proof.
  intros Hu. unfold Sundex.compute_sundex. cbv zeta.
  set (solar_idx := match averages Soltrans with
                    | Some soltrans => Arr2 (emap (smap Sundex.solar_idx_of) soltrans)
                    | None => Sundex.full_like_50 (averages Ppt)
                    end).
  set (precip_idx := match averages Ppt with
                     | Some ppt => Arr2 (emap (smap Sundex.precip_idx_of) ppt)
                     | None => nd_map (fun _ => Fin 50) solar_idx
                     end).
  assert (Hsolar : scalar_or_shape sh solar_idx /\
                   (averages Soltrans <> None \/ averages Ppt <> None ->
                    has_shape solar_idx sh)).
  { unfold solar_idx, Sundex.full_like_50.
    destruct (averages Soltrans) as [gs|] eqn:Es.
    - pose proof (Hu _ _ Es) as H. split; [exact H|]. intros _.
      eexists. split; [reflexivity|exact H].
    - destruct (averages Ppt) as [gp|] eqn:Ep.
      + pose proof (Hu _ _ Ep) as H.
        assert (H' : gshape (np_full (gshape gp) (Fin 50)) = sh) by (rewrite <- H; reflexivity).
        split; [exact H'|]. intros _. eexists. split; [reflexivity|exact H'].
      + split; [exact I|]. intros [H|H]; contradiction. }
  destruct Hsolar as [Hsolar Hsolar2].
  assert (Hprecip : scalar_or_shape sh precip_idx).
  { unfold precip_idx. destruct (averages Ppt) as [gp|] eqn:Ep.
    - exact (Hu _ _ Ep).
    - now apply scalar_or_shape_nd_map. }
  assert (Hcomfort : exists comfort,
            match averages Tmean, averages Tdmean with
            | Some tmean, Some tdmean =>
                dewpoint_spread ← gzip (smap2 Rminus) tmean tdmean;
                comfort ← gzip sadd
                            (emap (smap Sundex.humidity_factor_of) dewpoint_spread)
                            (emap (smap Sundex.temp_factor_of) tmean);
                Ok (Arr2 comfort)
            | _, _ => Ok (nd_map (fun _ => Fin 50) solar_idx)
            end = Ok comfort /\ scalar_or_shape sh comfort).
  { destruct (averages Tmean) as [gt|] eqn:Et;
      [|eexists; split; [reflexivity|now apply scalar_or_shape_nd_map]].
    destruct (averages Tdmean) as [gd|] eqn:Ed;
      [|eexists; split; [reflexivity|now apply scalar_or_shape_nd_map]].
    pose proof (Hu _ _ Et) as Ht. pose proof (Hu _ _ Ed) as Hd.
    destruct (gzip_same_shape (smap2 Rminus) gt gd sh Ht Hd) as (spread & -> & Hspread).
    cbn [mbind result_bind].
    destruct (gzip_same_shape sadd (emap (smap Sundex.humidity_factor_of) spread)
                (emap (smap Sundex.temp_factor_of) gt) sh Hspread Ht)
      as (comfort & -> & Hc).
    eexists. split; [reflexivity|exact Hc]. }
  destruct Hcomfort as (comfort & -> & Hcomfort). cbn [mbind result_bind].
  destruct (nd_zip_scalar_or_shape sadd
              (nd_map (smap (fun x => 0.45 * x)) solar_idx)
              (nd_map (smap (fun x => 0.30 * x)) precip_idx) sh)
    as (weighted & -> & Hweighted & Hweighted2);
    [now apply scalar_or_shape_nd_map|now apply scalar_or_shape_nd_map|].
  cbn [mbind result_bind].
  destruct (nd_zip_scalar_or_shape sadd weighted
              (nd_map (smap (fun x => 0.25 * x)) comfort) sh)
    as (sx & -> & Hsx & Hsx2);
    [exact Hweighted|now apply scalar_or_shape_nd_map|].
  cbn [mbind result_bind]. eexists. split; [reflexivity|]. cbn [Sundex.sundex].
  split; [exact Hsx|].
  intros Hpresent. destruct (Hsolar2 Hpresent) as (g & Eg & Hg).
  destruct (Hweighted2 (emap (smap (fun x => 0.45 * x)) g)) as (gw & Egw & Hgw).
  { left. now rewrite Eg. }
  apply (Hsx2 gw). now left.
Qed.

(** X12. The two steps of sundex.py run one after the other return for every
    catalog: the averages [compute_winter_averages] yields are of one shape,
    so [compute_sundex] never meets arrays it cannot combine.  With no file
    opened the composite is the single value 50; with a file for solar
    transmittance or precipitation it is a grid of the shape of the first
    window opened. *)
Theorem sundex_pipeline_returns :
  forall (fs : string -> raster) (file_paths : Catalog.paths_t) (months : list nat),
  exists averages t c m,
    Sundex.compute_winter_averages fs file_paths months = Ok (averages, t, c) /\
    Sundex.compute_sundex averages = Ok m /\
    match opened_in file_paths all_vars months with
    | [] => Sundex.sundex m = Arr0 (Fin 50)
    | first :: _ =>
        scalar_or_shape (gshape (window_data (fs first))) (Sundex.sundex m) /\
        (opened_months (file_paths Soltrans) months <> [] \/
         opened_months (file_paths Ppt) months <> [] ->
         has_shape (Sundex.sundex m) (gshape (window_data (fs first))))
    end.
Proof.
  intros fs file_paths months. unfold Sundex.compute_winter_averages.
  destruct (SundexFacts.vars_fresh fs file_paths months all_vars
              (Sundex.mkavg no_averages None None None)) as (st & Hrun & Hst).
  { now repeat split. }
  rewrite Hrun. cbn [mbind result_bind].
  pose proof (SundexFacts.vars_keys fs file_paths months all_vars _ _ all_vars_nodup Hrun)
    as [_ Hkeys].
  exists (Sundex.av_averages st), (Sundex.av_transform st), (Sundex.av_crs st).
  destruct (opened_in file_paths all_vars months) as [|first rest].
  - destruct Hst as (_ & _ & _ & Hnone).
    destruct (compute_sundex_returns (Sundex.av_averages st) (0%nat, 0%nat))
      as (m & Hm & _).
    { intros var g. rewrite Hnone. discriminate. }
    exists m. split; [reflexivity|]. split; [exact Hm|].
    unfold Sundex.compute_sundex in Hm. rewrite !Hnone in Hm.
    cbn in Hm. injection Hm as <-. cbn [Sundex.sundex]. f_equal. f_equal. lra.
  - destruct Hst as (_ & _ & _ & Hav).
    destruct (compute_sundex_returns (Sundex.av_averages st) _ Hav) as (m & Hm & Hs & Hg).
    exists m. split; [reflexivity|]. split; [exact Hm|]. split; [exact Hs|].
    intros Hpresent. apply Hg.
    destruct Hpresent as [H|H]; [left|right]; intros Hn; apply H;
      now apply (Hkeys _ (in_all_vars _) eq_refl).
Qed.

(** ** Downsampling by a factor of 1 *)

(** X14. With a factor of 1, [downsample] returns its input: the same
    shape and, cell by cell, the same samples, the missing ones included. *)
Theorem downsample_by_1 :
  forall arr : grid,
  exists result,
    BuildWebapp.downsample arr 1 = Ok result /\
    nrows result = nrows arr /\ ncols result = ncols arr /\
    forall i j, (i < nrows arr)%nat -> (j < ncols arr)%nat ->
                cell result i j = cell arr i j.
Proof.
  intros arr.
  destruct (DownsampleFacts.downsample_cells arr 1 ltac:(lia))
    as (result & Hd & Hr & Hc & Hcell).
  rewrite Nat.div_1_r in Hr, Hc.
  exists result. split; [exact Hd|]. split; [exact Hr|]. split; [exact Hc|].
  intros i j Hi Hj. rewrite Hcell by lia.
  unfold BuildWebapp.block_at. cbn [seq flat_map map app].
  rewrite !Nat.mul_1_r, !Nat.add_0_r. unfold nanmean_cell.
  destruct (cell arr i j) as [|x]; [reflexivity|].
  cbn [valid_samples]. unfold np_mean. cbn [Rsum fold_right length INR].
  f_equal. field.
Qed.

